(* ===== verification/_CoqProject ===== *)
-Q . S2P
Prelude.v
JsCollections.v
Types.v
JsString.v
LineProvider.v
VariableStorage.v
DialogueTreeRuntime.v
TreeRuntimeSpec.v
TreeRuntimeTests.v
CommandDispatcher.v
Runner.v
RunnerTree.v
