(* ===== verification/Prelude.v ===== *)
(** * A verification library for dialogue-runner

    This development models the TypeScript package [@magicborn/dialogue-runner]
    (sources under [src/]) in Rocq, as a shallow embedding: each class becomes a
    [Record] of its fields, each method a function on that record, each thrown
    [Error] a value of [Types.DialogueError] returned in a [result], each
    TypeScript interface a [Class], and the runner's control loop a fuelled
    [Fixpoint].

    ** The program and how its parts interact

    A host builds a [DialogueRunner] ([src/unnamed/part_000], [runner.ts])
    around a runtime (anything implementing [DialogueRuntime] of
    [src/src/types.ts]; the package ships the graph walker
    [DialogueTreeRuntime] of [src/src/dialogue-tree-runtime.ts]), a line
    provider ([src/unnamed/part_004], [line-provider.ts]), a command
    dispatcher ([src/src/command-dispatcher.ts]) and a variable storage
    (lines 222-358 of [dialogue-tree-runtime.ts]).  [start], [continue] and
    [selectOption] run the loop [runUntilPause], which asks the runtime for
    events: lines and option sets are resolved through the line provider and
    pause the loop, commands go through the dispatcher, whose handlers read
    and write variables through the runner (storage first, then runtime),
    node events are passed to subscribers.

    ** Files, in dependency order

    - [Prelude.v] (this file): the [result] type and its [let*] notation in
      [dr_scope], JavaScript's [||] on optional strings and array indexing by
      a number, the hint databases [dialogue] and [dialogue_rw], shared
      tactics.
    - [JsCollections.v]: JavaScript's insertion-ordered [Map] as an
      association list ([js_map], well formed when no key repeats) and [Set]
      as a list, with the lemmas every component uses (get after set and
      delete, order independence of [get] on well-formed maps, maps over
      values) and the equivalence [js_map_equiv] with its [Proper]
      instances for setoid rewriting.
    - [Types.v]: [types.ts]: [VariableValue], [RuntimeEvent], [OptionInfo],
      the errors, the class [DialogueRuntime] and its laws.
    - [JsString.v]: the string built-ins the code calls ([trim],
      [toLowerCase], [startsWith]/[endsWith], [slice], [join],
      [parseFloat], [replace] with a string pattern) on 8-bit strings, with
      the lemmas on concatenation, [substring] and [replace] the proofs use.
    - [LineProvider.v]: Module [LineProvider]: the base class's locale
      fields and [applySubstitutions], [MapLineProvider], and
      [FetchLineProvider] whose network is an input ([Network]: URL to
      response); the class [LineProviderClass] is what the runner uses.
    - [VariableStorage.v]: the class [VariableStorage] with its laws;
      Module [InMemory] ([InMemoryVariableStorage], an instance); Module
      [LocalStorage], with the browser's [localStorage] as explicit state
      ([LocalStore]), JSON's [null] for non-finite numbers, the
      [__proto__] assignment and the key order of JavaScript objects.
    - [DialogueTreeRuntime.v]: Module [DialogueTreeRuntime]: the tree, the
      runtime's fields ([TreeRuntime]) and every method under its name; an
      instance of [DialogueRuntime].
    - [TreeRuntimeSpec.v]: Module [GraphWalkerSpec], the spec's graph-walker
      state machine (spec 4.1) written as an inductive labelled step
      relation on abstract states (entering, body, line, exiting, offering,
      awaiting, finished; the visited marker; the program), with
      [selectOption], [reset] and [load]; Module [TreeRuntimeRefinement],
      the option indices a runtime offers and the abstraction [abs] from
      runtime states to spec states.
    - [TreeRuntimeTests.v]: the helper [collectEvents] of
      [dialogue-tree-runtime.test.ts] (a [while] loop, with fuel); a measure
      on runtime states that bounds how long the loop runs on a tree without
      a cycle of NPC links; the test "program loading" stated for every
      runtime and program.
    - [CommandDispatcher.v]: Module [CommandDispatcher]: a handler is a
      function from its arguments to a [CmdProg], the sequence of
      [CommandContext] calls (and awaited timers) it makes; the tokenizer as
      a fold of its loop body over the characters; [dispatch]; the built-in
      handlers of [createDefaultDispatcher] and [parseValue].
    - [Runner.v]: Module [Runner]: [DialogueRunner] in a [Section] over any
      runtime, line provider and storage instances; [run_cmd] runs a
      handler's program against the command context; [run_loop] is the
      [while] loop.  The class [DialogueRuntimeControl] states what the
      runner's waiting flag needs of a runtime.
    - [RunnerTree.v]: the [ScriptedRuntime] test double of
      [dialogue-tree-runtime.test.ts], the tree runtime's instance of
      [DialogueRuntimeControl], and the runner over the tree runtime.

    ** What the theorems show

    - Reference runtime ([DialogueTreeRuntimeFacts]): the NPC and PLAYER
      node protocols, selection and its errors, a well-formedness invariant
      of every reachable state, progress, [dialogue_complete] last and
      absorbing, [node_start] once per node per run.  [TreeRuntimeRefinement]: every run of [continue],
      [setSelectedOption], [reset], [loadProgram] and [setVariable] is a
      run of the spec's machine with the same events (a refinement proved
      by rule induction over the spec's runs), and a selection throws
      exactly when the spec has no such step; the option ids of a PLAYER
      node are [0..n-1] and exactly those are accepted (bounds, the spec's
      rule on option indices).  [TreeRuntimeTests]: [collectEvents]
      terminates on every tree without an NPC cycle (termination, with an
      explicit measure) and runs out of any fuel on a cycle; a
      [loadProgram] restarts any runtime at the new program's start node.
    - Dispatcher ([CommandDispatcherFacts]): case-insensitive [on]/[off],
      [hasHandler] agreeing with [dispatch], the tokenizer's invariant (no
      empty token) and round trip on plain words, and that the quotes of a
      quoted value are stripped before [parseValue] sees it.
    - Line provider ([LineProviderFacts]): [getLine] after [setLine],
      [applySubstitutions] replacing only the first [{0}] and scanning the
      text a substitution put in again for the later placeholders, fetching
      a locale once, the fallback re-fetch, the cache kept across
      [setLocale].
    - Storages ([InMemoryFacts], [LocalStorageFacts]): the in-memory storage
      meets the interface laws and never lists a name twice; the local
      storage's reload round trip and the order of the names after a
      reload (array indices first, ascending); without [localStorage] it
      refines the in-memory storage; with it, any session of writes and
      page reloads refines a plain map in which a reload passes every
      value through JSON and loses [__proto__].
    - Runner ([RunnerFacts], [RunnerTree]): write-through of variables,
      [stop], lines with their placeholder, subscriptions, the [set] command
      end to end, a [stop] command ending the loop before its next step,
      a [null] from the runtime ending the loop without completing the run,
      an unsubscription that also cancels an [onAny] subscription, the
      runner's waiting flag equal to the runtime's after any sequence of
      calls, termination, and [start()] after a completed tree run
      completing again at once.  For a tree runtime the spec's execution-state
      invariant (awaiting a choice implies running and not finished;
      finished implies not running) holds unless [stop()] is called while
      waiting or [continue()] on a runner never started; both exceptions
      are shown to break it.

    ** Bounds and fuel

    [runUntilPause] takes a fuel bound on the iterations of its loop.  For
    the tree runtime 5 is enough for every call ([tree_runner_never_out_of_fuel]):
    each event that does not pause strictly decreases a rank of the runtime's
    state bounded by 4 ([continue_rank_decreases], [rank_le]), and writes of
    variables by command handlers keep it.  The generic lemma
    [run_loop_total] gives fuel [rank + 1] for any runtime with such a rank.
    The test helper [collectEvents] does not pause on lines, so its bound
    depends on the tree: with a height [h] that decreases along NPC links,
    [measure] (5 per level of height plus at most 4 for the current node's
    block) bounds its iterations ([collectEvents_terminates]); the tests
    use fuel 10, enough for their two-node trees.
    JavaScript numbers are exact rationals or infinities ([JsNumber]): the
    rounding to binary64 is not modelled, nor is [NaN] except as
    [parseFloat]'s failure.  Strings are 8-bit ([Stdlib.Strings.String]).

    ** Not modelled

    [src/src/index.ts] only re-exports.  The decoding of program bytes
    (TextDecoder and JSON.parse in [loadProgram]), [setTimeout] (a handler's
    wait is a [CmdWaitSeconds] step with no effect on the state), a
    [localStorage.setItem] that throws, handlers that call back into the
    runner or throw (handlers are observers whose calls are recorded), and
    the aliasing of a [Map] passed to the [MapLineProvider] constructor, and
    the prototype of the tree's [nodes] object (a node key such as
    [constructor] reads an inherited property; the model's [gmap] has no
    such keys).  The refinement assumes programs without an empty node key
    or [lineId], the two places where the code's JavaScript falsiness
    departs from the spec, and leaves out [setNode] (see the findings).
    The README's quick start (src/unnamed/part_001) calls the library with
    a runtime it does not define and a [MapLineProvider] argument of a type
    the constructor does not take, so it is not modelled (a finding records
    what it would do).  The test double [ScriptedRuntime] of the test file's
    last case is modelled in [RunnerTree.v]; the fixed inputs of the test
    cases are instances of the general theorems and are not restated.  The
    documentation files (README, AGENTS, CHANGELOG) are prose. *)

From Stdlib Require Export String ZArith.
From stdpp Require Export base list gmap strings sets.
#[local] Set Warnings "-clear-no-such-hyp".

Declare Scope dr_scope.
Delimit Scope dr_scope with dr.
Open Scope dr_scope.

(** ** Results: a call either returns or throws *)

(** A method that may [throw] returns [Ok v] or [Err e]. *)
Inductive result (A E : Type) : Type :=
| Ok (v : A)
| Err (e : E).
Arguments Ok {A E} v.
Arguments Err {A E} e.

Definition result_bind {A B E} (r : result A E) (k : A -> result B E) : result B E :=
  match r with
  | Ok v => k v
  | Err e => Err e
  end.

Notation "'let*' x := c 'in' k" := (result_bind c (fun x => k))
  (at level 10, x name, c at level 100, k at level 200) : dr_scope.

(** Statement sequencing: [rt |> f |> g] applies [f], then [g], the way the
    source assigns one field after another. *)
Notation "x |> f" := (f x) (at level 69, left associativity, only parsing) : dr_scope.

(** [arr[i]] for an integer index: [undefined] below 0 and past the end. *)
Definition js_index {A} (l : list A) (i : Z) : option A :=
  if Z.ltb i 0 then None else l !! Z.to_nat i.

Lemma js_index_Some {A} (l : list A) i x :
  js_index l i = Some x <-> (0 <= i)%Z /\ l !! Z.to_nat i = Some x.
Proof. unfold js_index. destruct (Z.ltb_spec i 0); [split; [done|lia]|naive_solver lia]. Qed.

Lemma js_index_None {A} (l : list A) i :
  js_index l i = None <-> (i < 0)%Z \/ (length l <= Z.to_nat i)%nat.
Proof.
  unfold js_index. destruct (Z.ltb_spec i 0); [split; [by left|done]|].
  rewrite lookup_ge_None. lia.
Qed.

Definition is_ok {A E} (r : result A E) : bool :=
  match r with Ok _ => true | Err _ => false end.

Lemma result_bind_Ok {A B E} (r : result A E) (k : A -> result B E) v :
  result_bind r k = Ok v <-> exists a, r = Ok a /\ k a = Ok v.
Proof.
  destruct r as [a|e]; simpl; split; intros H; [by exists a|..].
  - by destruct H as (?&[= ->]&?).
  - done.
  - by destruct H as (?&?&?).
Qed.

(** ** JavaScript truthiness on strings *)

(** [s || d] for an optional string [s]: both [undefined] and the empty
    string are falsy. *)
Definition js_or_str (s : option string) (d : string) : string :=
  match s with
  | Some x => if String.eqb x "" then d else x
  | None => d
  end.

(** [!s] for an optional string. *)
Definition js_falsy_str (s : option string) : bool :=
  match s with
  | Some x => String.eqb x ""
  | None => true
  end.

Lemma js_or_str_nonempty x d : x <> ""%string -> js_or_str (Some x) d = x.
Proof. intros Hx. simpl. destruct (String.eqb_spec x "") as [->|]; done. Qed.

Lemma js_or_str_cases s d :
  (js_falsy_str s = true /\ js_or_str s d = d) \/
  (js_falsy_str s = false /\ s = Some (js_or_str s d)).
Proof.
  destruct s as [x|]; simpl; [|by left].
  destruct (String.eqb_spec x ""); [left|right]; done.
Qed.

(** ** Automation shared by the components *)

Create HintDb dialogue discriminated.
#[export] Hint Variables Opaque : dialogue.
#[export] Hint Constants Opaque : dialogue.
(** Rewriting with the equations of the models' operations. *)
Create Rewrite HintDb dialogue_rw.

#[export] Hint Resolve js_or_str_nonempty : dialogue.

(** Case analysis on the boolean tests and option matches of a goal, with
    the equation kept: the step every branch-by-branch lemma starts with. *)
Ltac case_goal :=
  repeat match goal with
  | |- context [match ?x with _ => _ end] =>
      lazymatch x with
      | context [match _ with _ => _ end] => fail
      | _ => let E := fresh "E" in destruct x eqn:E
      end
  end.
