(* ===== verification/JsCollections.v ===== *)
(** * JavaScript's [Map] and [Set]

    A JavaScript [Map] iterates in insertion order: [set] on a present key
    replaces the value in place, [set] on a new key appends, [delete] removes
    the entry.  We model [Map<K, V>] as the association list of its entries in
    iteration order, which never holds a key twice ([js_map_wf]); a [Set<T>]
    is the list of its elements in insertion order.  The code of
    dialogue-runner uses these for the runtime's and the storages' variables,
    the dispatcher's handler table and the runner's subscribers.  Two maps
    that answer every [get] alike are equivalent ([js_map_equiv]); [get],
    [set] and mapping the values respect it, so proofs rewrite with it. *)

From S2P Require Import Prelude.
#[local] Set Warnings "-clear-no-such-hyp".

Section JsMap.
Context {K V : Type} `{EqDecision K}.

Definition js_map := list (K * V).

(** [map.get(k)] *)
Fixpoint js_map_get (k : K) (m : js_map) : option V :=
  match m with
  | [] => None
  | (k', v) :: m' => if decide (k = k') then Some v else js_map_get k m'
  end.

(** [map.has(k)] *)
Definition js_map_has (k : K) (m : js_map) : bool :=
  match js_map_get k m with Some _ => true | None => false end.

(** [map.set(k, v)]: in place when [k] is present, appended otherwise. *)
Fixpoint js_map_set (k : K) (v : V) (m : js_map) : js_map :=
  match m with
  | [] => [(k, v)]
  | (k', v') :: m' =>
      if decide (k = k') then (k, v) :: m' else (k', v') :: js_map_set k v m'
  end.

(** [map.delete(k)]: the map without [k], and whether [k] was there. *)
Fixpoint js_map_remove (k : K) (m : js_map) : js_map :=
  match m with
  | [] => []
  | (k', v) :: m' => if decide (k = k') then js_map_remove k m' else (k', v) :: js_map_remove k m'
  end.

Definition js_map_delete (k : K) (m : js_map) : bool * js_map :=
  (js_map_has k m, js_map_remove k m).

(** [Array.from(map.keys())] *)
Definition js_map_keys (m : js_map) : list K := map fst m.

(** No key occurs twice. *)
Definition js_map_wf (m : js_map) : Prop := NoDup (js_map_keys m).

Lemma js_map_get_set_eq k v m : js_map_get k (js_map_set k v m) = Some v.
Proof.
  induction m as [|[k' v'] m IH]; simpl; [by rewrite decide_True|].
  case_decide; subst; simpl; [by rewrite decide_True | by rewrite decide_False].
Qed.

Lemma js_map_get_set_ne k k' v m :
  k <> k' -> js_map_get k' (js_map_set k v m) = js_map_get k' m.
Proof.
  intros Hne. induction m as [|[k0 v0] m IH]; simpl.
  - by rewrite decide_False.
  - repeat (case_decide; simpl); subst; done.
Qed.

Lemma js_map_get_set k k' v m :
  js_map_get k' (js_map_set k v m) = if decide (k = k') then Some v else js_map_get k' m.
Proof.
  case_decide; subst; [apply js_map_get_set_eq | by apply js_map_get_set_ne].
Qed.

Lemma js_map_get_In k v m : js_map_get k m = Some v -> In (k, v) m.
Proof.
  induction m as [|[k' v'] m IH]; simpl; [done|].
  case_decide; [intros [= ->]; subst; by left | by right; apply IH].
Qed.

Lemma js_map_get_None_keys k m : js_map_get k m = None <-> k ∉ js_map_keys m.
Proof.
  induction m as [|[k' v'] m IH]; simpl; [set_solver|].
  case_decide; subst; [split; [done|set_solver]|].
  rewrite IH. set_solver.
Qed.

Lemma js_map_keys_set_present k v m :
  k ∈ js_map_keys m -> js_map_keys (js_map_set k v m) = js_map_keys m.
Proof.
  induction m as [|[k' v'] m IH]; simpl; [set_solver|].
  case_decide; subst; simpl; [done|]. intros Hk. f_equal. apply IH. set_solver.
Qed.

Lemma js_map_keys_set_absent k v m :
  k ∉ js_map_keys m -> js_map_keys (js_map_set k v m) = js_map_keys m ++ [k].
Proof.
  induction m as [|[k' v'] m IH]; simpl; [done|].
  case_decide; subst; [set_solver|]. intros Hk. simpl. f_equal. apply IH. set_solver.
Qed.

Lemma js_map_set_wf k v m : js_map_wf m -> js_map_wf (js_map_set k v m).
Proof.
  unfold js_map_wf. intros Hnd.
  destruct (decide (k ∈ js_map_keys m)).
  - by rewrite js_map_keys_set_present.
  - rewrite js_map_keys_set_absent by done. apply NoDup_app. split; [done|].
    split; [set_solver|]. apply NoDup_singleton.
Qed.

Lemma js_map_get_delete k k' m :
  js_map_get k' (js_map_delete k m).2 = if decide (k = k') then None else js_map_get k' m.
Proof.
  unfold js_map_delete; cbn [snd].
  induction m as [|[k0 v0] m IH]; simpl; [by case_decide|].
  repeat (case_decide; simpl); subst; done.
Qed.
Lemma js_map_get_In_wf k v m : js_map_wf m -> In (k, v) m -> js_map_get k m = Some v.
Proof.
  unfold js_map_wf, js_map_keys. induction m as [|[k' v'] m IH]; intros Hwf Hin; [done|].
  cbn in *. apply NoDup_cons in Hwf as [Hk' Hwf]. destruct Hin as [[= <- <-]|Hin].
  - by rewrite decide_True.
  - rewrite decide_False; [by apply IH|]. intros ->. apply Hk'.
    apply list_elem_of_In, in_map_iff. by exists (k', v).
Qed.

Lemma js_map_keys_perm m m' : m ≡ₚ m' -> js_map_keys m ≡ₚ js_map_keys m'.
Proof. intros H. unfold js_map_keys. by rewrite H. Qed.

Lemma js_map_wf_perm m m' : m ≡ₚ m' -> js_map_wf m -> js_map_wf m'.
Proof. intros H Hwf. unfold js_map_wf. by rewrite <- (js_map_keys_perm _ _ H). Qed.

(** On maps without duplicate keys, [get] does not depend on the order. *)
Lemma js_map_get_perm k m m' : js_map_wf m -> m ≡ₚ m' -> js_map_get k m = js_map_get k m'.
Proof.
  intros Hwf Hp. pose proof (js_map_wf_perm _ _ Hp Hwf) as Hwf'.
  destruct (js_map_get k m) as [v|] eqn:E.
  - symmetry. apply js_map_get_In_wf; [done|]. apply js_map_get_In in E.
    by apply (Permutation_in _ Hp).
  - destruct (js_map_get k m') as [v|] eqn:E'; [|done].
    apply js_map_get_In in E'. apply (Permutation_in _ (Permutation_sym Hp)) in E'.
    by rewrite (js_map_get_In_wf _ _ _ Hwf E') in E.
Qed.

Lemma js_map_remove_wf k m : js_map_wf m -> js_map_wf (js_map_remove k m).
Proof.
  unfold js_map_wf, js_map_keys. induction m as [|[k' v'] m IH]; intros Hwf; [done|].
  cbn in Hwf. apply NoDup_cons in Hwf as [Hk' Hwf]. cbn. case_decide; [by apply IH|].
  cbn. apply NoDup_cons; split; [|by apply IH].
  intros Hin. apply Hk'. clear -Hin. induction m as [|[k0 v0] m IH]; [done|].
  cbn in *. case_decide; [set_solver|]. cbn in Hin. set_solver.
Qed.
(** A property of every entry survives [set] of an entry that has it, and
    [remove]. *)
Lemma js_map_set_Forall (P : K * V -> Prop) k v m :
  Forall P m -> P (k, v) -> Forall P (js_map_set k v m).
Proof.
  induction m as [|[k' v'] m IH]; intros Hm Hkv; cbn; [by constructor|].
  apply Forall_cons in Hm as [Hk' Hm]. case_decide; constructor; auto.
Qed.

Lemma js_map_remove_Forall (P : K * V -> Prop) k m : Forall P m -> Forall P (js_map_remove k m).
Proof.
  induction m as [|[k' v'] m IH]; intros Hm; cbn; [done|].
  apply Forall_cons in Hm as [Hk' Hm]. case_decide; [|constructor]; auto.
Qed.

Lemma js_map_get_Forall (P : K * V -> Prop) k v m : Forall P m -> js_map_get k m = Some v -> P (k, v).
Proof.
  intros Hm Hg. apply js_map_get_In, list_elem_of_In in Hg.
  by apply (proj1 (Forall_forall P m) Hm).
Qed.
End JsMap.

(** ** Maps that answer every [get] alike *)

Section JsMapEquiv.
Context {K V : Type} `{EqDecision K}.

Definition js_map_equiv (m m' : list (K * V)) : Prop := forall k, js_map_get k m = js_map_get k m'.

#[export] Instance js_map_equiv_equivalence : Equivalence js_map_equiv.
Proof.
  split; [intros m k; done|intros m m' H k; by rewrite H|intros m1 m2 m3 H1 H2 k; by rewrite H1, H2].
Qed.

#[export] Instance js_map_get_proper k : Proper (js_map_equiv ==> eq) (js_map_get k).
Proof. intros m m' H. apply H. Qed.

#[export] Instance js_map_set_proper k v : Proper (js_map_equiv ==> js_map_equiv) (js_map_set k v).
Proof. intros m m' H k'. rewrite !js_map_get_set. by case_decide. Qed.

Lemma js_map_perm_equiv m m' : js_map_wf m -> m ≡ₚ m' -> js_map_equiv m m'.
Proof. intros Hwf Hp k. by apply js_map_get_perm. Qed.

Lemma js_map_get_remove (k k' : K) (m : list (K * V)) :
  js_map_get k' (js_map_remove k m) = if decide (k = k') then None else js_map_get k' m.
Proof. apply (js_map_get_delete k k' m). Qed.

#[export] Instance js_map_remove_proper (k : K) : Proper (js_map_equiv ==> js_map_equiv) (js_map_remove k).
Proof. intros m m' H k'. rewrite !js_map_get_remove. by case_decide. Qed.

(** Deleting an absent key changes no lookup. *)
Lemma js_map_remove_absent (k : K) (m : list (K * V)) : js_map_has k m = false -> js_map_equiv (js_map_remove k m) m.
Proof.
  unfold js_map_has. intros Hk k'. rewrite js_map_get_remove.
  case_decide; [subst; by destruct (js_map_get k' m)|done].
Qed.
End JsMapEquiv.

Section JsMapValues.
Context {K V W : Type} `{EqDecision K}.

(** Mapping the values of a [Map]. *)
Definition js_map_values (f : V -> W) (m : list (K * V)) : list (K * W) :=
  map (fun '(k, v) => (k, f v)) m.

Lemma js_map_get_values f k m : js_map_get k (js_map_values f m) = option_map f (js_map_get k m).
Proof. induction m as [|[k' v] m IH]; [done|]. cbn. by case_decide. Qed.

Lemma js_map_values_set f k v m : js_map_values f (js_map_set k v m) = js_map_set k (f v) (js_map_values f m).
Proof. unfold js_map_values. induction m as [|[k' v'] m IH]; [done|]. cbn. case_decide; cbn; by rewrite ?IH. Qed.

Lemma js_map_values_remove f k m : js_map_values f (js_map_remove k m) = js_map_remove k (js_map_values f m).
Proof. unfold js_map_values. induction m as [|[k' v'] m IH]; [done|]. cbn. case_decide; cbn; by rewrite ?IH. Qed.

#[export] Instance js_map_values_proper f : Proper (js_map_equiv ==> js_map_equiv) (js_map_values f).
Proof. intros m m' H k. by rewrite !js_map_get_values, H. Qed.

Lemma js_map_keys_values f m : js_map_keys (js_map_values f m) = js_map_keys m.
Proof. unfold js_map_values, js_map_keys. induction m as [|[k' v'] m IH]; [done|]. cbn. by rewrite IH. Qed.
End JsMapValues.

Arguments js_map : clear implicits.

#[export] Hint Resolve js_map_get_set_eq js_map_set_wf js_map_set_Forall js_map_remove_Forall : dialogue.
#[export] Hint Rewrite @js_map_get_set_eq @js_map_get_set_ne using congruence : dialogue_rw.

(** ** [Set] with insertion order *)

Section JsSet.
Context {T : Type} `{EqDecision T}.

(** [set.add(x)]: no effect when [x] is already present. *)
Definition js_set_add (x : T) (s : list T) : list T :=
  if decide (x ∈ s) then s else s ++ [x].

(** [set.delete(x)] *)
Definition js_set_delete (x : T) (s : list T) : list T :=
  filter (fun y => y <> x) s.

Lemma js_set_add_elem x y s : y ∈ js_set_add x s <-> y = x \/ y ∈ s.
Proof. unfold js_set_add. case_decide; set_solver. Qed.

Lemma js_set_delete_elem x y s : y ∈ js_set_delete x s <-> y <> x /\ y ∈ s.
Proof. unfold js_set_delete. rewrite list_elem_of_filter. tauto. Qed.

Lemma js_set_add_NoDup x s : NoDup s -> NoDup (js_set_add x s).
Proof.
  unfold js_set_add. intros Hs. case_decide; [done|].
  apply NoDup_app. split; [done|]. split; [set_solver|]. apply NoDup_singleton.
Qed.

Lemma js_set_add_idem x s : js_set_add x (js_set_add x s) = js_set_add x s.
Proof. unfold js_set_add at 1. rewrite decide_True; [done|]. apply js_set_add_elem. by left. Qed.
End JsSet.
