(* ===== verification/Types.v ===== *)
(** * Core types: values, runtime events, errors and the runtime interface

    Models [src/src/types.ts]: [VariableValue], the [RuntimeEvent] tagged
    union (one constructor per interface, carrying that interface's fields),
    [OptionInfo], and the [DialogueRuntime] interface as the class
    [DialogueRuntime].  A TypeScript method that mutates the runtime becomes a
    function returning the new runtime; [continue()] returns the new runtime
    and the event; [setSelectedOption] may throw, so it returns a [result].
    [loadProgram] takes bytes that the implementation decodes as JSON; the
    decoding is not modelled, so the class leaves it out and each runtime
    exposes its own [loadProgram] on decoded programs.

    The errors every component throws are the constructors of
    [DialogueError], one per [throw] site, named after its message. *)

From S2P Require Import Prelude.
From Stdlib Require Import QArith Qcanon.
From stdpp Require Import numbers.
#[local] Set Warnings "-clear-no-such-hyp".

(** ** Values *)

(** A JavaScript [number] as produced by the code: a finite value or an
    infinity.  Finite values are exact rationals: the rounding of decimal
    literals to binary64 is not modelled. *)
Inductive JsNumber : Type :=
| JsFinite (q : Qc)
| JsInfinity
| JsNegInfinity.

#[export] Instance JsNumber_eq_dec : EqDecision JsNumber.
Proof. solve_decision. Defined.

(** [type VariableValue = string | number | boolean] *)
Inductive VariableValue : Type :=
| VString (s : string)
| VNumber (n : JsNumber)
| VBool (b : bool).

#[export] Instance VariableValue_eq_dec : EqDecision VariableValue.
Proof. solve_decision. Defined.

(** ** Runtime events *)

(** [interface OptionInfo] *)
Record OptionInfo : Type := mkOptionInfo {
  option_id : Z;
  option_lineId : string;
  option_enabled : bool;
  option_destinationNode : option string;
}.

#[export] Instance OptionInfo_eq_dec : EqDecision OptionInfo.
Proof. solve_decision. Defined.

(** [type RuntimeEvent = LineEvent | OptionsEvent | ...] *)
Inductive RuntimeEvent : Type :=
| LineEvent (lineId : string) (substitutions : list string)
| OptionsEvent (options : list OptionInfo)
| CommandEvent (text : string)
| NodeStartEvent (nodeName : string)
| NodeCompleteEvent (nodeName : string)
| DialogueCompleteEvent
| PrepareForLinesEvent (lineIds : list string).

#[export] Instance RuntimeEvent_eq_dec : EqDecision RuntimeEvent.
Proof. solve_decision. Defined.

(** [RuntimeEventType]: the [type] tag of an event. *)
Inductive RuntimeEventType : Type :=
| T_line | T_options | T_command | T_node_start | T_node_complete
| T_dialogue_complete | T_prepare_for_lines.

#[export] Instance RuntimeEventType_eq_dec : EqDecision RuntimeEventType.
Proof. solve_decision. Defined.

Definition event_type (e : RuntimeEvent) : RuntimeEventType :=
  match e with
  | LineEvent _ _ => T_line
  | OptionsEvent _ => T_options
  | CommandEvent _ => T_command
  | NodeStartEvent _ => T_node_start
  | NodeCompleteEvent _ => T_node_complete
  | DialogueCompleteEvent => T_dialogue_complete
  | PrepareForLinesEvent _ => T_prepare_for_lines
  end.

(** The events after which the runner's loop stops stepping: a line and an
    option set pause, and [dialogue_complete] ends the loop
    ([handleRuntimeEvent] returns [true] for exactly these). *)
Definition stops_loop (e : RuntimeEvent) : bool :=
  match e with
  | LineEvent _ _ | OptionsEvent _ | DialogueCompleteEvent => true
  | _ => false
  end.

(** ** Errors: one constructor per [throw new Error(...)] *)
Inductive DialogueError : Type :=
| ErrNotCurrentlyWaitingForOption   (** runtime: 'Not currently waiting for an option' *)
| ErrInvalidOptionId (id : Z)       (** runtime: [`Invalid option id ${optionId}`] *)
| ErrCannotContinueWhileWaiting     (** runner: 'Cannot continue while waiting for option selection' *)
| ErrDialogueAlreadyComplete        (** runner: 'Dialogue is already complete' *)
| ErrNotWaitingForOptionSelection   (** runner: 'Not waiting for option selection' *)
| ErrOptionsNotSupported.           (** scripted test runtime: 'Options not supported' *)

#[export] Instance DialogueError_eq_dec : EqDecision DialogueError.
Proof. solve_decision. Defined.

(** ** The [DialogueRuntime] interface *)
Class DialogueRuntime (R : Type) : Type := {
  rt_setNode : string -> R -> R;
  rt_continue : R -> R * option RuntimeEvent;
  rt_setSelectedOption : Z -> R -> result R DialogueError;
  rt_getVariable : string -> R -> option VariableValue;
  rt_setVariable : string -> VariableValue -> R -> R;
  rt_getVariableNames : R -> list string;
  rt_isWaitingForOption : R -> bool;
  rt_isDialogueComplete : R -> bool;
  rt_reset : R -> R;
}.

(** What the runner relies on: the working set of variables behaves as a
    map, and writing a variable does not change the control state. *)
Class DialogueRuntimeLaws (R : Type) `{DialogueRuntime R} : Prop := {
  rt_get_set_eq n v r : rt_getVariable n (rt_setVariable n v r) = Some v;
  rt_get_set_ne n n' v r :
    n <> n' -> rt_getVariable n' (rt_setVariable n v r) = rt_getVariable n' r;
  rt_set_complete n v r :
    rt_isDialogueComplete (rt_setVariable n v r) = rt_isDialogueComplete r;
  rt_set_waiting n v r :
    rt_isWaitingForOption (rt_setVariable n v r) = rt_isWaitingForOption r;
}.
