(* ===== verification/JsString.v ===== *)
(** * JavaScript string built-ins used by dialogue-runner

    The command dispatcher and the line provider call [String.prototype.trim],
    [toLowerCase], [startsWith]/[endsWith], [slice], [Array.prototype.join],
    [String.prototype.replace] with a string pattern, and the global
    [parseFloat].  They are modelled here from the ECMAScript definitions, on
    strings of 8-bit characters ([Stdlib.Strings.String]): JavaScript strings
    are sequences of UTF-16 code units, and only the code units 0-255 are
    represented.  Within that range the definitions below agree with the
    standard: white space is TAB, LF, VT, FF, CR, SPACE and NO-BREAK SPACE;
    lower-casing maps A-Z and the Latin-1 capitals U+00C0-U+00DE (but U+00D7)
    to their small letters.  [parseFloat] returns the exact decimal value of
    the longest numeric prefix; its rounding to binary64 is not modelled. *)

From S2P Require Import Prelude Types.
From Stdlib Require Import Ascii QArith Qcanon DecimalString DecimalNat.
#[local] Set Warnings "-clear-no-such-hyp".

Local Open Scope nat_scope.
Local Open Scope string_scope.

(** ** Concatenation ([String.append] does not reduce by [simpl] under
    stdpp, so its equations are lemmas) *)

Lemma string_app_nil_l (b : string) : "" ++ b = b.
Proof. reflexivity. Qed.

Lemma string_app_cons c (a b : string) : String c a ++ b = String c (a ++ b).
Proof. reflexivity. Qed.

Lemma string_app_nil_r (a : string) : a ++ "" = a.
Proof. induction a as [|x a IH]; [done|]. by rewrite string_app_cons, IH. Qed.

Lemma string_app_assoc (a b c : string) : (a ++ b) ++ c = a ++ (b ++ c).
Proof. induction a as [|x a IH]; [done|]. by rewrite !string_app_cons, IH. Qed.

#[export] Hint Rewrite string_app_nil_l string_app_cons string_app_nil_r string_app_assoc : dialogue_rw.

(** ** Characters *)

Definition js_is_whitespace (c : ascii) : bool :=
  let n := nat_of_ascii c in
  (Nat.leb 9 n && Nat.leb n 13) || Nat.eqb n 32 || Nat.eqb n 160.

Definition js_lower_char (c : ascii) : ascii :=
  let n := nat_of_ascii c in
  if (Nat.leb 65 n && Nat.leb n 90) || (Nat.leb 192 n && Nat.leb n 222 && negb (Nat.eqb n 215))
  then ascii_of_nat (n + 32)%nat else c.

(** ** [trim], [toLowerCase], [startsWith], [endsWith], [slice(1, -1)] *)

Fixpoint trim_start (s : string) : string :=
  match s with
  | EmptyString => EmptyString
  | String c s' => if js_is_whitespace c then trim_start s' else s
  end.

Fixpoint trim_end (s : string) : string :=
  match s with
  | EmptyString => EmptyString
  | String c s' =>
      let t := trim_end s' in
      if String.eqb t "" && js_is_whitespace c then "" else String c t
  end.

(** [s.trim()] *)
Definition js_trim (s : string) : string := trim_end (trim_start s).

(** [s.toLowerCase()] *)
Fixpoint js_toLowerCase (s : string) : string :=
  match s with
  | EmptyString => EmptyString
  | String c s' => String (js_lower_char c) (js_toLowerCase s')
  end.

(** [s.startsWith(p)] and [s.endsWith(p)] *)
Definition js_startsWith (s p : string) : bool := String.prefix p s.

Fixpoint string_rev (s : string) : string :=
  match s with
  | EmptyString => EmptyString
  | String c s' => string_rev s' ++ String c EmptyString
  end.

Definition js_endsWith (s p : string) : bool := String.prefix (string_rev p) (string_rev s).

(** [s.slice(1, -1)]: drop the first and the last character (empty when [s]
    has fewer than two). *)
Definition js_slice_1_m1 (s : string) : string :=
  substring 1 (String.length s - 2)%nat s.

(** [parts.join(sep)] *)
Fixpoint js_join (sep : string) (parts : list string) : string :=
  match parts with
  | [] => ""
  | [p] => p
  | p :: ps => p ++ sep ++ js_join sep ps
  end.

(** Decimal text of a natural number, as [`${n}`] prints it. *)
Definition nat_to_string (n : nat) : string := NilEmpty.string_of_uint (Nat.to_uint n).

(** ** [parseFloat] *)

Definition digit_of (c : ascii) : option nat :=
  let n := nat_of_ascii c in
  if Nat.leb 48 n && Nat.leb n 57 then Some (n - 48)%nat else None.

(** The longest run of decimal digits at the front of [s]. *)
Fixpoint take_digits (s : string) : list nat * string :=
  match s with
  | String c s' =>
      match digit_of c with
      | Some d => let '(ds, r) := take_digits s' in (d :: ds, r)
      | None => ([], s)
      end
  | EmptyString => ([], EmptyString)
  end.

Definition Z_of_digits (ds : list nat) : Z :=
  fold_left (fun acc d => 10 * acc + Z.of_nat d)%Z ds 0%Z.

(** An optional sign: [-1], [1], and what follows it. *)
Definition take_sign (s : string) : Z * string :=
  match s with
  | String "-"%char s' => (-1, s')%Z
  | String "+"%char s' => (1, s')%Z
  | _ => (1%Z, s)
  end.

(** The exponent part [e[+-]digits], taken only when digits follow. *)
Definition take_exponent (s : string) : Z :=
  match s with
  | String c s' =>
      if (c =? "e")%char || (c =? "E")%char then
        let '(sg, r) := take_sign s' in
        match take_digits r with
        | ([], _) => 0%Z
        | (ds, _) => (sg * Z_of_digits ds)%Z
        end
      else 0%Z
  | EmptyString => 0%Z
  end.

(** [m * 10^e] as an exact rational. *)
Definition scale10 (m : Z) (e : Z) : Q :=
  if (0 <=? e)%Z then inject_Z (m * 10 ^ e) else Qmake m (Z.to_pos (10 ^ (- e))).

(** [parseFloat(s)]: [None] is [NaN]. *)
Definition js_parseFloat (s : string) : option JsNumber :=
  let '(sg, r) := take_sign (trim_start s) in
  if String.prefix "Infinity" r then
    Some (if (sg <? 0)%Z then JsNegInfinity else JsInfinity)
  else
    let '(int_ds, r1) := take_digits r in
    let '(frac_ds, r2) :=
      match r1 with
      | String "."%char r1' => take_digits r1'
      | _ => ([], r1)
      end in
    match (int_ds ++ frac_ds)%list with
    | [] => None
    | ds =>
        let e := (take_exponent r2 - Z.of_nat (length frac_ds))%Z in
        Some (JsFinite (Q2Qc (scale10 (sg * Z_of_digits ds) e)))
    end.

(** ** [String.prototype.replace] with a string pattern *)

(** The position of the first occurrence of [p] in [s], if any. *)
Fixpoint find_from (p s : string) (i : nat) : option nat :=
  if String.prefix p s then Some i else
  match s with
  | EmptyString => None
  | String _ s' => find_from p s' (S i)
  end.

(** GetSubstitution for a match with no capture groups: [$$] is [$],
    [$&] the matched text, [$`] the text before it, [$'] the text after it;
    any other [$] stays. *)
Fixpoint get_substitution (matched before after : string) (r : string) : string :=
  match r with
  | String "$"%char (String "$"%char r') => "$" ++ get_substitution matched before after r'
  | String "$"%char (String "&"%char r') => matched ++ get_substitution matched before after r'
  | String "$"%char (String "`"%char r') => before ++ get_substitution matched before after r'
  | String "$"%char (String "'"%char r') => after ++ get_substitution matched before after r'
  | String c r' => String c (get_substitution matched before after r')
  | EmptyString => EmptyString
  end.

(** [s.replace(p, r)]: only the first occurrence of [p] is replaced. *)
Definition js_replace (s p r : string) : string :=
  match find_from p s 0 with
  | None => s
  | Some i =>
      let before := substring 0 i s in
      let after := substring (i + String.length p)%nat (String.length s - (i + String.length p))%nat s in
      before ++ get_substitution p before after r ++ after
  end.

(** ** Lemmas *)

Lemma trim_start_cons c s : js_is_whitespace c = false -> trim_start (String c s) = String c s.
Proof. intros Hc. by cbn; rewrite Hc. Qed.

Lemma trim_end_cons c s : trim_end s <> "" -> trim_end (String c s) = String c (trim_end s).
Proof. intros Hs. cbn. apply String.eqb_neq in Hs as ->. done. Qed.

Lemma trim_end_single c : js_is_whitespace c = false -> trim_end (String c "") = String c "".
Proof. intros Hc. by cbn; rewrite Hc. Qed.

Lemma trim_end_app a b : trim_end b <> "" -> trim_end (a ++ b) = a ++ trim_end b.
Proof.
  intros Hb. induction a as [|c a IH]; [done|].
  rewrite string_app_cons, trim_end_cons, IH; [done|].
  rewrite IH. by destruct a.
Qed.

Lemma js_join_cons_cons sep p q ps : js_join sep (p :: q :: ps) = p ++ sep ++ js_join sep (q :: ps).
Proof. reflexivity. Qed.

Lemma js_join_head sep c w ws : exists r, js_join sep (String c w :: ws) = String c r.
Proof. destruct ws; eexists; reflexivity. Qed.

(** ** Lemmas on [find_from], [substring] and [js_replace] *)

(** Whether character [c] occurs in [s]. *)
Fixpoint has_char (c : ascii) (s : string) : bool :=
  match s with
  | EmptyString => false
  | String d s' => Ascii.eqb c d || has_char c s'
  end.

Lemma has_char_app c a b : has_char c (a ++ b) = has_char c a || has_char c b.
Proof. induction a as [|d a IH]; [done|]. rewrite string_app_cons; cbn. by rewrite IH, orb_assoc. Qed.

Lemma string_length_app a b : String.length (a ++ b) = String.length a + String.length b.
Proof. induction a as [|c a IH]; [done|]. by rewrite string_app_cons; cbn; rewrite IH. Qed.

Lemma prefix_app p s : String.prefix p (p ++ s) = true.
Proof.
  induction p as [|c p IH]; [by destruct s|].
  rewrite string_app_cons; cbn. destruct (ascii_dec c c); done.
Qed.

Lemma prefix_head c p d s : String.prefix (String c p) (String d s) = true -> c = d.
Proof. cbn. by destruct (ascii_dec c d). Qed.

Lemma find_from_here p s i : find_from p (p ++ s) i = Some i.
Proof. pose proof (prefix_app p s) as H. destruct (p ++ s); cbn [find_from]; by rewrite H. Qed.

Lemma find_from_skip c p a s i :
  has_char c a = false ->
  find_from (String c p) (a ++ s) i = find_from (String c p) s (i + String.length a).
Proof.
  revert i. induction a as [|d a IH]; intros i Ha.
  - by rewrite string_app_nil_l, Nat.add_0_r.
  - cbn [has_char] in Ha. apply orb_false_iff in Ha as [Hcd Ha].
    rewrite string_app_cons. cbn [find_from].
    destruct (String.prefix (String c p) (String d (a ++ s))) eqn:E.
    + apply prefix_head in E. subst. by rewrite Ascii.eqb_refl in Hcd.
    + rewrite IH by done. cbn [String.length]. f_equal. lia.
Qed.

Lemma substring_0_app a s : substring 0 (String.length a) (a ++ s) = a.
Proof. induction a as [|c a IH]; [by destruct s|]. rewrite string_app_cons; cbn. by rewrite IH. Qed.

Lemma substring_app_r a s n m : substring (String.length a + n) m (a ++ s) = substring n m s.
Proof. induction a as [|c a IH]; [done|]. rewrite string_app_cons; cbn. apply IH. Qed.

Lemma substring_full s : substring 0 (String.length s) s = s.
Proof. rewrite <- (string_app_nil_r s) at 2. by rewrite substring_0_app. Qed.

Lemma get_substitution_plain m b a r : has_char "$" r = false -> get_substitution m b a r = r.
Proof.
  induction r as [|c r IH]; intros Hr; [done|]. cbn in Hr. apply orb_false_iff in Hr as [Hc Hr].
  assert (get_substitution m b a (String c r) = String c (get_substitution m b a r)) as ->.
  { destruct (Ascii.eqb_spec "$" c) as [<-|Hne]; [done|].
    destruct c as [[] [] [] [] [] [] [] []]; done. }
  by rewrite IH.
Qed.

(** [replace] on a text whose first occurrence of the pattern follows a
    prefix without the pattern's first character. *)
Lemma js_replace_first c p a b r :
  has_char c a = false ->
  js_replace (a ++ String c p ++ b) (String c p) r = a ++ get_substitution (String c p) a b r ++ b.
Proof.
  intros Ha. unfold js_replace. rewrite find_from_skip, find_from_here by done. cbn [Nat.add].
  rewrite substring_0_app, !string_length_app.
  replace (String.length a + (String.length (String c p) + String.length b) -
           (String.length a + String.length (String c p))) with (String.length b) by lia.
  assert (substring (String.length a + String.length (String c p)) (String.length b)
            (a ++ String c p ++ b) = b) as ->; [|done].
  rewrite substring_app_r, <- (Nat.add_0_r (String.length (String c p))), substring_app_r.
  apply substring_full.
Qed.
