(* ===== verification/LineProvider.v ===== *)
(** * Line providers: resolving line ids to localized text

    Models [src/unnamed/part_004] ([line-provider.ts]).  The abstract class
    [LineProvider] holds the locale pair and [applySubstitutions]; its two
    subclasses are [MapLineProvider] (an in-memory [Map] of entries) and
    [FetchLineProvider] (a cache filled from [<baseUrl>/<locale>.json]).
    Each is a record of its fields with one function per method.  The network
    is an argument of [FetchLineProvider.prepareLines]: a [Network] answers
    each URL with a response, and [prepareLines] returns, beside the new
    provider, the URLs it requested in order.  The runner uses a provider
    through the class [LineProviderClass] ([getLine], [prepareLines]), which
    both providers instantiate. *)

From S2P Require Import Prelude JsCollections Types JsString.
From Stdlib Require Import Ascii.
#[local] Set Warnings "-clear-no-such-hyp".

Local Open Scope string_scope.

Module LineProvider.

(** [Record<string, string>] as the list of its entries. *)
Definition Metadata : Type := list (string * string).

(** [interface LocalizedLine] *)
Record LocalizedLine : Type := mkLocalizedLine {
  ll_text : string;
  ll_lineId : string;
  ll_substitutions : list string;
  ll_metadata : option Metadata;
}.

(** [interface LineProviderOptions]; an absent field is [None]. *)
Record LineProviderOptions : Type := mkLineProviderOptions {
  opt_locale : option string;
  opt_fallbackLocale : option string;
}.

(** [interface LineEntry] *)
Record LineEntry : Type := mkLineEntry {
  entry_id : string;
  entry_text : string;
  entry_metadata : option Metadata;
}.

(** The fields of the abstract base class. *)
Record LineProviderBase : Type := mkLineProviderBase {
  locale : string;
  fallbackLocale : string;
}.

(** [constructor(options = {})] of the base class. *)
Definition base_new (options : LineProviderOptions) : LineProviderBase :=
  mkLineProviderBase (js_or_str options.(opt_locale) "en-US")
                     (js_or_str options.(opt_fallbackLocale) "en-US").

(** [setLocale(locale)] *)
Definition base_setLocale (l : string) (b : LineProviderBase) : LineProviderBase :=
  mkLineProviderBase l b.(fallbackLocale).

(** The [forEach] of [applySubstitutions] from index [idx]: [result] is
    replaced by [result.replace(`{${idx}}`, sub)] for each [sub] in turn. *)
Fixpoint apply_subs_from (idx : nat) (result : string) (subs : list string) : string :=
  match subs with
  | [] => result
  | sub :: subs' =>
      apply_subs_from (S idx) (js_replace result ("{" ++ nat_to_string idx ++ "}") sub) subs'
  end.

(** [protected applySubstitutions(text, substitutions)] *)
Definition applySubstitutions (text : string) (substitutions : list string) : string :=
  apply_subs_from 0 text substitutions.

(** The [LocalizedLine] both [getLine] methods build from an entry. *)
Definition localize (entry : LineEntry) (lineId : string) (substitutions : list string) : LocalizedLine :=
  mkLocalizedLine (applySubstitutions entry.(entry_text) substitutions) lineId substitutions
                  entry.(entry_metadata).

(** ** What the runner uses of a line provider *)
Class LineProviderClass (P : Type) : Type := {
  lp_getLine : string -> list string -> P -> option LocalizedLine;
  lp_prepareLines : list string -> P -> P;
}.

(** ** [MapLineProvider] *)

Record MapLineProvider : Type := mkMapLineProvider {
  mlp_base : LineProviderBase;
  lines : js_map string LineEntry;
}.

(** The constructor's argument: a [Map] of entries or a plain object, given
    by its [Object.entries]. *)
Inductive LinesInit : Type :=
| LinesMap (m : js_map string LineEntry)
| LinesRecord (entries : list (string * string)).

(** [for (const [id, text] of entries) lines.set(id, { id, text })] *)
Definition set_entries (entries : list (string * string)) (m : js_map string LineEntry) :
    js_map string LineEntry :=
  fold_left (fun m '(id, text) => js_map_set id (mkLineEntry id text None) m) entries m.

(** [new MapLineProvider(lines, options)] *)
Definition MapLineProvider_new (init : LinesInit) (options : LineProviderOptions) : MapLineProvider :=
  mkMapLineProvider (base_new options)
    (match init with
     | LinesMap m => m
     | LinesRecord entries => set_entries entries []
     end).

(** [getLine(lineId, substitutions = [])] *)
Definition map_getLine (lineId : string) (substitutions : list string) (p : MapLineProvider) :
    option LocalizedLine :=
  match js_map_get lineId p.(lines) with
  | None => None
  | Some entry => Some (localize entry lineId substitutions)
  end.

(** [prepareLines(_lineIds)]: nothing to do. *)
Definition map_prepareLines (_ : list string) (p : MapLineProvider) : MapLineProvider := p.

Definition map_setLocale (l : string) (p : MapLineProvider) : MapLineProvider :=
  mkMapLineProvider (base_setLocale l p.(mlp_base)) p.(lines).

(** [setLine(lineId, text, metadata?)] *)
Definition setLine (lineId text : string) (metadata : option Metadata) (p : MapLineProvider) :
    MapLineProvider :=
  mkMapLineProvider p.(mlp_base) (js_map_set lineId (mkLineEntry lineId text metadata) p.(lines)).

(** [loadFromCsv(entries)] *)
Definition loadFromCsv (entries : list (string * string)) (p : MapLineProvider) : MapLineProvider :=
  mkMapLineProvider p.(mlp_base) (set_entries entries p.(lines)).

#[export] Instance MapLineProvider_LineProvider : LineProviderClass MapLineProvider := {
  lp_getLine := map_getLine;
  lp_prepareLines := map_prepareLines;
}.

(** ** [FetchLineProvider] *)

(** A value of the locale file: a text, or an object with a text and
    metadata. *)
Inductive LineData : Type :=
| LDText (text : string)
| LDEntry (text : string) (metadata : option Metadata).

(** What [fetch(url)] gives: it throws, or a response that is not [ok], or
    an [ok] response whose [json()] throws ([None]) or yields the entries
    of an object. *)
Inductive FetchResponse : Type :=
| FetchThrows
| FetchNotOk
| FetchOk (data : option (list (string * LineData))).

Definition Network : Type := string -> FetchResponse.

Record FetchLineProvider : Type := mkFetchLineProvider {
  flp_base : LineProviderBase;
  baseUrl : string;
  cache : js_map string LineEntry;
  loadedLocales : list string;
}.

Definition FetchLineProvider_new (baseUrl : string) (options : LineProviderOptions) : FetchLineProvider :=
  mkFetchLineProvider (base_new options) baseUrl [] [].

Definition fetch_getLine (lineId : string) (substitutions : list string) (p : FetchLineProvider) :
    option LocalizedLine :=
  match js_map_get lineId p.(cache) with
  | None => None
  | Some entry => Some (localize entry lineId substitutions)
  end.

Definition fetch_setLocale (l : string) (p : FetchLineProvider) : FetchLineProvider :=
  mkFetchLineProvider (base_setLocale l p.(flp_base)) p.(baseUrl) p.(cache) p.(loadedLocales).

(** [private loadLines(data)] *)
Definition loadLines (data : list (string * LineData)) (p : FetchLineProvider) : FetchLineProvider :=
  mkFetchLineProvider p.(flp_base) p.(baseUrl)
    (fold_left (fun c '(id, value) =>
                  match value with
                  | LDText text => js_map_set id (mkLineEntry id text None) c
                  | LDEntry text md => js_map_set id (mkLineEntry id text md) c
                  end) data p.(cache))
    p.(loadedLocales).

Definition add_loaded (l : string) (p : FetchLineProvider) : FetchLineProvider :=
  mkFetchLineProvider p.(flp_base) p.(baseUrl) p.(cache) (js_set_add l p.(loadedLocales)).

(** [`${this.baseUrl}/${locale}.json`] *)
Definition locale_url (base l : string) : string := base ++ "/" ++ l ++ ".json".

(** [async prepareLines(lineIds)]: the new provider and the URLs fetched.
    Every [throw] inside the [try] (a failed [fetch], a failed [json()])
    leaves the provider as it was. *)
Definition fetch_prepareLines (net : Network) (_ : list string) (p : FetchLineProvider) :
    FetchLineProvider * list string :=
  let l := p.(flp_base).(locale) in
  let fb := p.(flp_base).(fallbackLocale) in
  if bool_decide (l ∈ p.(loadedLocales)) then (p, []) else
  let url := locale_url p.(baseUrl) l in
  match net url with
  | FetchThrows | FetchOk None => (p, [url])
  | FetchNotOk =>
      if negb (String.eqb l fb) then
        let fallbackUrl := locale_url p.(baseUrl) fb in
        match net fallbackUrl with
        | FetchOk (Some data) => (add_loaded fb (loadLines data p), [url; fallbackUrl])
        | _ => (p, [url; fallbackUrl])
        end
      else (p, [url])
  | FetchOk (Some data) => (add_loaded l (loadLines data p), [url])
  end.

#[export] Instance FetchLineProvider_LineProvider (net : Network) : LineProviderClass FetchLineProvider := {
  lp_getLine := fetch_getLine;
  lp_prepareLines ids p := (fetch_prepareLines net ids p).1;
}.

End LineProvider.

Module LineProviderFacts.
Import LineProvider.

(** ** [getLine] after [setLine] *)

(** C22: Round trip of the in-memory provider: after [setLine id text md],
    [getLine id subs] returns [text] with [subs] applied, [id], [subs] and
    [md]. *)
Theorem getLine_setLine id text md subs p :
  map_getLine id subs (setLine id text md p) =
    Some (mkLocalizedLine (applySubstitutions text subs) id subs md).
Proof. unfold map_getLine, setLine; cbn. by rewrite js_map_get_set_eq. Qed.

Lemma getLine_setLine_ne id id' text md subs p :
  id <> id' -> map_getLine id' subs (setLine id text md p) = map_getLine id' subs p.
Proof. intros Hne. unfold map_getLine, setLine; cbn. by rewrite js_map_get_set_ne. Qed.

(** ** [applySubstitutions] *)

Lemma placeholder_cons idx : "{" ++ nat_to_string idx ++ "}" = String "{" (nat_to_string idx ++ "}").
Proof. reflexivity. Qed.

Lemma find_from_absent c p s i : has_char c s = false -> find_from (String c p) s i = None.
Proof.
  intros Hs. rewrite <- (string_app_nil_r s), find_from_skip by done. done.
Qed.

Lemma js_replace_absent c p s r : has_char c s = false -> js_replace s (String c p) r = s.
Proof. intros Hs. unfold js_replace. by rewrite find_from_absent. Qed.

Lemma apply_subs_from_no_brace idx text subs :
  has_char "{" text = false -> apply_subs_from idx text subs = text.
Proof.
  revert idx. induction subs as [|sub subs IH]; intros idx Ht; [done|].
  cbn [apply_subs_from]. rewrite placeholder_cons, js_replace_absent by done. by apply IH.
Qed.

(** A text without a [{] is returned unchanged whatever the
    substitutions. *)
Lemma applySubstitutions_no_placeholder text subs :
  has_char "{" text = false -> applySubstitutions text subs = text.
Proof. apply apply_subs_from_no_brace. Qed.

(** C35: With one substitution, the first placeholder [{0}] is replaced by
    it and any later [{0}] is left as it is: for every text whose part
    before the first [{0}] has no [{], and every substitution without [$]
    (which [replace] would read as a replacement pattern). *)
Theorem applySubstitutions_single a b sub :
  has_char "{" a = false -> has_char "$" sub = false ->
  applySubstitutions (a ++ "{0}" ++ b) [sub] = a ++ sub ++ b.
Proof.
  intros Ha Hs. unfold applySubstitutions; cbn [apply_subs_from].
  rewrite placeholder_cons. change (nat_to_string 0 ++ "}") with "0}".
  by rewrite js_replace_first, get_substitution_plain.
Qed.

(** C34: The substitutions are applied one after another with
    [String.prototype.replace], each on the text the previous ones left, so
    the text put in for [{0}] is scanned again: when the first substitution
    contains the placeholder [{1}], that placeholder is replaced by the
    second substitution, for every text whose [{0}] comes first and every
    substitutions without [$]. *)
Theorem applySubstitutions_rescans a b m n sub1 :
  has_char "{" a = false -> has_char "{" m = false ->
  has_char "$" m = false -> has_char "$" n = false -> has_char "$" sub1 = false ->
  applySubstitutions (a ++ "{0}" ++ b) [m ++ "{1}" ++ n; sub1] = a ++ m ++ sub1 ++ n ++ b.
Proof.
  intros Ha Hm Hmd Hnd Hs. unfold applySubstitutions; cbn [apply_subs_from].
  rewrite !placeholder_cons. change (nat_to_string 0 ++ "}") with "0}". change (nat_to_string 1 ++ "}") with "1}".
  rewrite js_replace_first, get_substitution_plain by (done || by rewrite !has_char_app, Hmd, Hnd).
  change (m ++ String "{" "1}" ++ n) with (m ++ "{1}" ++ n).
  assert (a ++ (m ++ "{1}" ++ n) ++ b = (a ++ m) ++ String "{" "1}" ++ (n ++ b)) as ->
    by (by rewrite !string_app_assoc).
  rewrite js_replace_first, get_substitution_plain by (done || by rewrite has_char_app, Ha, Hm).
  by rewrite !string_app_assoc.
Qed.

(** ** [FetchLineProvider.prepareLines] *)

Lemma fetch_prepareLines_loaded net ids p :
  p.(flp_base).(locale) ∈ p.(loadedLocales) -> fetch_prepareLines net ids p = (p, []).
Proof. intros H. unfold fetch_prepareLines. by rewrite bool_decide_eq_true_2. Qed.

Lemma fetch_prepareLines_unloaded net ids p :
  p.(flp_base).(locale) ∉ p.(loadedLocales) ->
  fetch_prepareLines net ids p =
    let l := p.(flp_base).(locale) in
    let fb := p.(flp_base).(fallbackLocale) in
    let url := locale_url p.(baseUrl) l in
    match net url with
    | FetchThrows | FetchOk None => (p, [url])
    | FetchNotOk =>
        if negb (String.eqb l fb) then
          let fallbackUrl := locale_url p.(baseUrl) fb in
          match net fallbackUrl with
          | FetchOk (Some data) => (add_loaded fb (loadLines data p), [url; fallbackUrl])
          | _ => (p, [url; fallbackUrl])
          end
        else (p, [url])
    | FetchOk (Some data) => (add_loaded l (loadLines data p), [url])
    end.
Proof. intros H. unfold fetch_prepareLines. by rewrite bool_decide_eq_false_2. Qed.

(** C29: A locale file that loads is fetched once: the first [prepareLines]
    requests its URL and marks the locale loaded; the next one requests
    nothing and changes nothing. *)
Theorem fetch_prepareLines_once net ids ids' p data :
  p.(flp_base).(locale) ∉ p.(loadedLocales) ->
  net (locale_url p.(baseUrl) p.(flp_base).(locale)) = FetchOk (Some data) ->
  let '(p1, urls) := fetch_prepareLines net ids p in
  urls = [locale_url p.(baseUrl) p.(flp_base).(locale)] /\ fetch_prepareLines net ids' p1 = (p1, []).
Proof.
  intros Hl Hnet. rewrite fetch_prepareLines_unloaded by done. cbn zeta. rewrite Hnet.
  split; [done|]. apply fetch_prepareLines_loaded. cbn. apply js_set_add_elem. by left.
Qed.

(** C36: When the locale's file is missing and the fallback's loads, the
    fallback is marked loaded but the locale is not, so every later
    [prepareLines] requests both files again. *)
Theorem fetch_prepareLines_fallback_refetches net ids ids' p data :
  p.(flp_base).(locale) ∉ p.(loadedLocales) ->
  p.(flp_base).(locale) <> p.(flp_base).(fallbackLocale) ->
  net (locale_url p.(baseUrl) p.(flp_base).(locale)) = FetchNotOk ->
  net (locale_url p.(baseUrl) p.(flp_base).(fallbackLocale)) = FetchOk (Some data) ->
  let urls := [locale_url p.(baseUrl) p.(flp_base).(locale);
               locale_url p.(baseUrl) p.(flp_base).(fallbackLocale)] in
  let '(p1, urls1) := fetch_prepareLines net ids p in
  urls1 = urls /\ (fetch_prepareLines net ids' p1).2 = urls.
Proof.
  intros Hl Hfb Hnet Hnet'. rewrite fetch_prepareLines_unloaded by done. cbn zeta.
  rewrite Hnet. apply String.eqb_neq in Hfb as Hfb'. rewrite Hfb'; cbn [negb]. rewrite Hnet'.
  split; [done|]. rewrite fetch_prepareLines_unloaded; cbn.
  - by rewrite Hnet, Hfb', Hnet'.
  - rewrite js_set_add_elem. apply String.eqb_neq in Hfb'. intros [?|?]; done.
Qed.

(** ** Witnesses *)

Lemma applySubstitutions_single_witness :
  applySubstitutions ("Hello, " ++ "{0}" ++ "! {0}") ["Alex"] = "Hello, " ++ "Alex" ++ "! {0}".
Proof. apply applySubstitutions_single; reflexivity. Defined.

Lemma applySubstitutions_rescans_witness :
  applySubstitutions ("" ++ "{0}" ++ " and {1}") ["" ++ "{1}" ++ ""; "x"] = "" ++ "" ++ "x" ++ "" ++ " and {1}".
Proof. apply applySubstitutions_rescans; reflexivity. Defined.

Definition en_fr_net : Network := fun url =>
  if String.eqb url "/i18n/en-US.json" then FetchOk (Some [("greet", LDText "Hello")])
  else if String.eqb url "/i18n/fr-FR.json" then FetchOk (Some [("bye", LDText "Au revoir")])
  else FetchNotOk.

(** [setLocale] keeps the cache: after switching from a loaded locale to
    another and loading it, a line the new locale's file lacks is still
    served in the old locale. *)
Theorem stale_line_after_setLocale :
  let p0 := FetchLineProvider_new "/i18n" (mkLineProviderOptions None None) in
  let p1 := (fetch_prepareLines en_fr_net [] p0).1 in
  let p2 := (fetch_prepareLines en_fr_net [] (fetch_setLocale "fr-FR" p1)).1 in
  p2.(flp_base).(locale) = "fr-FR" /\
  option_map ll_text (fetch_getLine "greet" [] p2) = Some "Hello".
Proof. vm_compute. split; reflexivity. Qed.

Lemma fetch_prepareLines_once_witness :
  let p := FetchLineProvider_new "/i18n" (mkLineProviderOptions None None) in
  let '(p1, urls) := fetch_prepareLines en_fr_net [] p in
  urls = [locale_url "/i18n" "en-US"] /\ fetch_prepareLines en_fr_net ["greet"] p1 = (p1, []).
Proof.
  apply (fetch_prepareLines_once en_fr_net [] ["greet"]
           (FetchLineProvider_new "/i18n" (mkLineProviderOptions None None)) [("greet", LDText "Hello")]);
    [vm_compute; set_solver|reflexivity].
Defined.

Lemma fetch_prepareLines_fallback_refetches_witness :
  let p := FetchLineProvider_new "/i18n" (mkLineProviderOptions (Some "de-DE") None) in
  let urls := [locale_url "/i18n" "de-DE"; locale_url "/i18n" "en-US"] in
  let '(p1, urls1) := fetch_prepareLines en_fr_net [] p in
  urls1 = urls /\ (fetch_prepareLines en_fr_net [] p1).2 = urls.
Proof.
  apply (fetch_prepareLines_fallback_refetches en_fr_net [] []
           (FetchLineProvider_new "/i18n" (mkLineProviderOptions (Some "de-DE") None))
           [("greet", LDText "Hello")]);
    [vm_compute; set_solver|vm_compute; congruence|reflexivity..].
Defined.

End LineProviderFacts.
