(* ===== verification/VariableStorage.v ===== *)
(** * Variable storages

    Models lines 222-358 of [src/src/dialogue-tree-runtime.ts] (the
    [variable-storage] module concatenated there): the [VariableStorage]
    interface as a class with the laws a client relies on, the
    [InMemoryVariableStorage] that instantiates it, and the
    [LocalStorageVariableStorage], whose cache is written through to the
    browser's [localStorage] as JSON.

    The browser store is explicit state: [LocalStore] is [None] when
    [typeof localStorage === 'undefined'] (Node) and otherwise maps each key
    to what [getItem] returns, given by its [JSON.parse] result.
    [JSON.stringify] writes a non-finite number as [null] and
    [obj['__proto__'] = v] with a primitive [v] does not create a property;
    both are modelled, so the local storage's cache holds JavaScript values
    ([JsValue]) that may be [null] after a reload, and it is not an instance
    of the class, whose values are [VariableValue]s. *)

From S2P Require Import Prelude JsCollections Types JsString.
From Stdlib Require Import QArith Qcanon Ascii Sorted.
#[local] Set Warnings "-clear-no-such-hyp".

Local Open Scope string_scope.

(** ** The interface *)

Class VariableStorage (S : Type) : Type := {
  vs_get : string -> S -> option VariableValue;
  vs_set : string -> VariableValue -> S -> S;
  vs_has : string -> S -> bool;
  vs_delete : string -> S -> bool * S;
  vs_clear : S -> S;
  vs_getAll : S -> js_map string VariableValue;
  vs_getAllNames : S -> list string;
}.

(** What a client of the interface relies on: it behaves as a map, and
    [getAll]/[getAllNames] list its contents. *)
Class VariableStorageLaws (S : Type) `{VariableStorage S} : Prop := {
  vs_get_set_eq n v s : vs_get n (vs_set n v s) = Some v;
  vs_get_set_ne n n' v s : n <> n' -> vs_get n' (vs_set n v s) = vs_get n' s;
  vs_has_get n s : vs_has n s = bool_decide (is_Some (vs_get n s));
  vs_get_delete n n' s : vs_get n' (vs_delete n s).2 = if decide (n = n') then None else vs_get n' s;
  vs_delete_result n s : (vs_delete n s).1 = vs_has n s;
  vs_get_clear n s : vs_get n (vs_clear s) = None;
  vs_getAll_get n s : js_map_get n (vs_getAll s) = vs_get n s;
  vs_getAllNames_keys s : vs_getAllNames s = js_map_keys (vs_getAll s);
}.

(** ** [InMemoryVariableStorage] *)

Module InMemory.

Record InMemoryVariableStorage : Type := mkInMemoryVariableStorage {
  variables : js_map string VariableValue;
}.

(** [constructor(initial?)]: the entries of [initial] in [Object.entries]
    order. *)
Definition new (initial : option (list (string * VariableValue))) : InMemoryVariableStorage :=
  mkInMemoryVariableStorage
    (match initial with
     | Some entries => fold_left (fun m '(key, value) => js_map_set key value m) entries []
     | None => []
     end).

Definition get (name : string) (s : InMemoryVariableStorage) : option VariableValue :=
  js_map_get name s.(variables).

Definition set (name : string) (value : VariableValue) (s : InMemoryVariableStorage) : InMemoryVariableStorage :=
  mkInMemoryVariableStorage (js_map_set name value s.(variables)).

Definition has (name : string) (s : InMemoryVariableStorage) : bool := js_map_has name s.(variables).

Definition delete (name : string) (s : InMemoryVariableStorage) : bool * InMemoryVariableStorage :=
  let '(b, m) := js_map_delete name s.(variables) in (b, mkInMemoryVariableStorage m).

Definition clear (s : InMemoryVariableStorage) : InMemoryVariableStorage := mkInMemoryVariableStorage [].

(** [getAll()] copies the map: a copy is the same association list. *)
Definition getAll (s : InMemoryVariableStorage) : js_map string VariableValue := s.(variables).

Definition getAllNames (s : InMemoryVariableStorage) : list string := js_map_keys s.(variables).

#[export] Instance InMemory_VariableStorage : VariableStorage InMemoryVariableStorage := {
  vs_get := get; vs_set := set; vs_has := has; vs_delete := delete; vs_clear := clear;
  vs_getAll := getAll; vs_getAllNames := getAllNames;
}.

End InMemory.

#[export] Existing Instance InMemory.InMemory_VariableStorage.

(** ** [LocalStorageVariableStorage] *)

Module LocalStorage.

(** The JSON values the storage writes and reads back. *)
Inductive JsonValue : Type :=
| JNull
| JBool (b : bool)
| JNum (q : Qc)
| JStr (s : string).

(** A value in the cache: a variable value, or the [null] that a
    non-finite number becomes through JSON. *)
Inductive JsValue : Type :=
| JsVar (v : VariableValue)
| JsNull.

#[export] Instance JsonValue_eq_dec : EqDecision JsonValue.
Proof. solve_decision. Defined.
#[export] Instance JsValue_eq_dec : EqDecision JsValue.
Proof. solve_decision. Defined.

(** What [localStorage.getItem(key)] holds, by what the code makes of it:
    the empty string (falsy), a text [JSON.parse] rejects, or a JSON object,
    given by its own properties in creation order (no key twice).  Other
    JSON texts (arrays, strings, numbers, [null]) are not modelled: this
    storage never writes them. *)
Inductive StoredItem : Type :=
| ItemEmpty
| ItemUnparseable
| ItemObject (props : list (string * JsonValue)).

(** [localStorage]: [None] when it is undefined. *)
Definition LocalStore : Type := option (js_map string StoredItem).

Record LocalStorageVariableStorage : Type := mkLocalStorageVariableStorage {
  storageKey : string;
  cache : js_map string JsValue;
}.

(** [JSON.stringify] of one value: [Infinity] and [-Infinity] become
    [null]. *)
Definition json_of_value (v : JsValue) : JsonValue :=
  match v with
  | JsVar (VString s) => JStr s
  | JsVar (VNumber (JsFinite q)) => JNum q
  | JsVar (VNumber _) => JNull
  | JsVar (VBool b) => JBool b
  | JsNull => JNull
  end.

(** The value [JSON.parse] gives back. *)
Definition value_of_json (j : JsonValue) : JsValue :=
  match j with
  | JNull => JsNull
  | JBool b => JsVar (VBool b)
  | JNum q => JsVar (VNumber (JsFinite q))
  | JStr s => JsVar (VString s)
  end.

(** An array index: the canonical decimal text of an integer below
    [2^32 - 1]. *)
Definition array_index (k : string) : option Z :=
  match take_digits k with
  | (ds, EmptyString) =>
      match ds with
      | [] => None
      | 0 :: _ :: _ => None
      | _ => let n := Z_of_digits ds in if (n <? 4294967295)%Z then Some n else None
      end
  | _ => None
  end%nat.

Fixpoint insert_by_index {A} (k : string) (n : Z) (a : A) (l : list (string * A)) : list (string * A) :=
  match l with
  | [] => [(k, a)]
  | (k', a') :: l' =>
      match array_index k' with
      | Some n' => if (n <=? n')%Z then (k, a) :: l else (k', a') :: insert_by_index k n a l'
      | None => (k, a) :: l
      end
  end.

Fixpoint sort_indices {A} (l : list (string * A)) : list (string * A) :=
  match l with
  | [] => []
  | (k, a) :: l' =>
      match array_index k with
      | Some n => insert_by_index k n a (sort_indices l')
      | None => sort_indices l'
      end
  end.

(** [OrdinaryOwnPropertyKeys]: the array indices in ascending order, then
    the other keys in creation order. *)
Definition object_order {A} (props : list (string * A)) : list (string * A) :=
  (sort_indices props ++ filter (fun p => array_index p.1 = None) props)%list.

(** [obj[key] = value] on a fresh object: [__proto__] calls the prototype
    setter, which ignores a primitive. *)
Definition obj_assign (props : list (string * JsonValue)) (kv : string * JsValue) : list (string * JsonValue) :=
  let '(key, value) := kv in
  if String.eqb key "__proto__" then props else js_map_set key (json_of_value value) props.

(** [private save()] *)
Definition save (s : LocalStorageVariableStorage) (env : LocalStore) : LocalStore :=
  match env with
  | None => None
  | Some store =>
      let obj := fold_left obj_assign s.(cache) [] in
      Some (js_map_set s.(storageKey) (ItemObject (object_order obj)) store)
  end.

(** [private load()]: [new Map(Object.entries(JSON.parse(data)))]. *)
Definition load (key : string) (env : LocalStore) : js_map string JsValue :=
  match env with
  | None => []
  | Some store =>
      match js_map_get key store with
      | Some (ItemObject props) => js_map_values value_of_json (object_order props)
      | _ => []
      end
  end.

(** [constructor(storageKey = 'yarn-variables')] *)
Definition new (storageKey : option string) (env : LocalStore) : LocalStorageVariableStorage :=
  let key := default "yarn-variables" storageKey in
  mkLocalStorageVariableStorage key (load key env).

Definition get (name : string) (s : LocalStorageVariableStorage) : option JsValue :=
  js_map_get name s.(cache).

Definition with_cache (c : js_map string JsValue) (s : LocalStorageVariableStorage) : LocalStorageVariableStorage :=
  mkLocalStorageVariableStorage s.(storageKey) c.

(** [set(name, value)]: update the cache, then [save()]. *)
Definition set (name : string) (value : VariableValue) (s : LocalStorageVariableStorage) (env : LocalStore) :
    LocalStorageVariableStorage * LocalStore :=
  let s' := with_cache (js_map_set name (JsVar value) s.(cache)) s in
  (s', save s' env).

Definition has (name : string) (s : LocalStorageVariableStorage) : bool := js_map_has name s.(cache).

(** [delete(name)]: saves only when something was deleted. *)
Definition delete (name : string) (s : LocalStorageVariableStorage) (env : LocalStore) :
    bool * LocalStorageVariableStorage * LocalStore :=
  let '(result, c) := js_map_delete name s.(cache) in
  let s' := with_cache c s in
  (result, s', if result then save s' env else env).

Definition clear (s : LocalStorageVariableStorage) (env : LocalStore) : LocalStorageVariableStorage * LocalStore :=
  let s' := with_cache [] s in (s', save s' env).

Definition getAll (s : LocalStorageVariableStorage) : js_map string JsValue := s.(cache).

Definition getAllNames (s : LocalStorageVariableStorage) : list string := js_map_keys s.(cache).

End LocalStorage.

(** ** The in-memory storage meets the interface *)

Module InMemoryFacts.
Import InMemory.

Lemma inmemory_delete_snd n s : (delete n s).2 = mkInMemoryVariableStorage (js_map_remove n s.(variables)).
Proof. reflexivity. Qed.

#[export] Instance InMemory_laws : VariableStorageLaws InMemoryVariableStorage.
Proof.
  split; intros; cbn; unfold get, set, has, getAll, getAllNames; cbn.
  - apply js_map_get_set_eq.
  - by apply js_map_get_set_ne.
  - unfold js_map_has. by destruct (js_map_get _ _).
  - apply (js_map_get_delete n n' s.(variables)).
  - done.
  - done.
  - done.
  - done.
Qed.

(** The storage operations, as a client issues them. *)
Inductive StorageOp : Type :=
| OpSet (name : string) (value : VariableValue)
| OpDelete (name : string)
| OpClear.

Definition apply_op (op : StorageOp) (s : InMemoryVariableStorage) : InMemoryVariableStorage :=
  match op with
  | OpSet n v => set n v s
  | OpDelete n => (delete n s).2
  | OpClear => clear s
  end.

Definition run_ops (ops : list StorageOp) (s : InMemoryVariableStorage) : InMemoryVariableStorage :=
  fold_left (fun s op => apply_op op s) ops s.

Lemma fold_set_wf (entries : list (string * VariableValue)) m :
  js_map_wf m -> js_map_wf (fold_left (fun m '(key, value) => js_map_set key value m) entries m).
Proof. revert m. induction entries as [|[k v] entries IH]; intros m Hm; [done|]. apply IH, js_map_set_wf, Hm. Qed.

Lemma apply_op_wf op s : js_map_wf s.(variables) -> js_map_wf (apply_op op s).(variables).
Proof.
  destruct op; cbn; intros H.
  - by apply js_map_set_wf.
  - by apply js_map_remove_wf.
  - apply NoDup_nil_2.
Qed.

(** Invariant of the in-memory storage: from any initial record and
    after any sequence of [set], [delete] and [clear], [getAllNames] lists
    no name twice. *)
Theorem inmemory_names_nodup initial ops : NoDup (getAllNames (run_ops ops (new initial))).
Proof.
  unfold getAllNames, run_ops.
  assert (js_map_wf (new initial).(variables)) as H0.
  { destruct initial; cbn; [apply fold_set_wf|]; apply NoDup_nil_2. }
  revert H0. generalize (new initial) as s.
  induction ops as [|op ops IH]; intros s Hs; [done|]. cbn. by apply IH, apply_op_wf.
Qed.

End InMemoryFacts.

#[export] Existing Instance InMemoryFacts.InMemory_laws.

(** ** What survives a reload of the local storage *)

Module LocalStorageFacts.
Import LocalStorage.

Lemma insert_by_index_perm {A} k n (a : A) l : insert_by_index k n a l ≡ₚ (k, a) :: l.
Proof.
  induction l as [|[k' a'] l IH]; [done|]. cbn.
  repeat case_match; try done. rewrite IH. apply perm_swap.
Qed.

Lemma object_order_perm {A} (l : list (string * A)) : object_order l ≡ₚ l.
Proof.
  unfold object_order. induction l as [|[k a] l IH]; [done|]. cbn [sort_indices fst].
  destruct (array_index k) eqn:E.
  - rewrite filter_cons_False by (cbn; by rewrite E). rewrite insert_by_index_perm. cbn. by rewrite IH.
  - rewrite filter_cons_True by exact E. rewrite <- Permutation_middle. by rewrite IH.
Qed.

(** The object [save()] builds: [__proto__] is not an own property, and
    every other name of the cache has its value's JSON. *)
Lemma fold_obj_assign_get n c acc :
  js_map_wf c ->
  js_map_get n (fold_left obj_assign c acc) =
    if String.eqb n "__proto__" then js_map_get n acc
    else match js_map_get n c with
         | Some v => Some (json_of_value v)
         | None => js_map_get n acc
         end.
Proof.
  revert acc. induction c as [|[k v] c IH]; intros acc Hwf.
  { cbn. by destruct (String.eqb n "__proto__"). }
  unfold js_map_wf, js_map_keys in Hwf. cbn in Hwf. apply NoDup_cons in Hwf as [Hk Hwf].
  cbn [fold_left]. rewrite IH by done. unfold obj_assign.
  destruct (String.eqb_spec n "__proto__") as [->|Hn]; cbn [js_map_get].
  - destruct (String.eqb_spec k "__proto__") as [->|Hk']; [done|]. by rewrite js_map_get_set_ne.
  - case_decide as Hnk.
    + subst. assert (js_map_get k c = None) as -> by (by apply js_map_get_None_keys).
      apply String.eqb_neq in Hn as Hn'. rewrite Hn'. apply js_map_get_set_eq.
    + destruct (js_map_get n c); [done|].
      destruct (String.eqb k "__proto__"); [done|]. by rewrite js_map_get_set_ne.
Qed.

Lemma fold_obj_assign_wf c acc : js_map_wf acc -> js_map_wf (fold_left obj_assign c acc).
Proof.
  revert acc. induction c as [|[k v] c IH]; intros acc H; [done|]. cbn.
  apply IH. unfold obj_assign. case_match; [done|]. by apply js_map_set_wf.
Qed.

(** C19: Round trip through [localStorage]: after [save()], a storage created
    on the same key reads every name other than [__proto__] back as the
    JSON image of its value (a string, a boolean and a finite number
    unchanged, [Infinity] as [null]). *)
Theorem reload_get s store n :
  js_map_wf s.(cache) -> n <> "__proto__" ->
  get n (new (Some s.(storageKey)) (save s (Some store))) =
    option_map (fun v => value_of_json (json_of_value v)) (get n s).
Proof.
  intros Hwf Hn. unfold new, save, load, get; cbn. rewrite js_map_get_set_eq.
  set (obj := fold_left obj_assign s.(cache) []).
  assert (js_map_equiv (object_order (object_order obj)) obj) as ->.
  { symmetry. apply js_map_perm_equiv; [apply fold_obj_assign_wf, NoDup_nil_2|].
    by rewrite !object_order_perm. }
  rewrite js_map_get_values. subst obj. rewrite fold_obj_assign_get by done.
  apply String.eqb_neq in Hn as ->. by destruct (js_map_get n s.(cache)).
Qed.

(** ** The order of the names after a reload *)

(** Whether a name is an array index, and its numeric value. *)
Definition is_index (k : string) : bool := bool_decide (is_Some (array_index k)).
Definition not_index (k : string) : bool := negb (is_index k).
Definition index_key (k : string) : Z := default 0%Z (array_index k).

Definition key_le {A} (p q : string * A) : Prop := (index_key p.1 <= index_key q.1)%Z.

Lemma insert_by_index_hd {A} (x : string * A) k n (a : A) l :
  HdRel key_le x l -> key_le x (k, a) -> HdRel key_le x (insert_by_index k n a l).
Proof.
  intros Hl Hx. destruct l as [|[k' a'] l]; cbn; [by constructor|].
  repeat case_match; constructor; try done. by inversion Hl.
Qed.

(** Inserting an index into a sorted list of indices keeps it sorted. *)
Lemma insert_by_index_sorted {A} k n (a : A) l :
  array_index k = Some n -> Forall (fun p => is_index p.1 = true) l -> Sorted key_le l ->
  Sorted key_le (insert_by_index k n a l).
Proof.
  intros Hk. induction l as [|[k' a'] l IH]; intros Hall Hs; cbn; [by repeat constructor|].
  apply Forall_cons in Hall as [Hk' Hall]. unfold is_index in Hk'; cbn in Hk'.
  apply bool_decide_eq_true in Hk' as [n' Hn']. rewrite Hn'.
  apply Sorted_inv in Hs as [Hs Hhd].
  destruct (Z.leb_spec n n').
  - constructor; [by constructor|]. constructor. unfold key_le, index_key; cbn. by rewrite Hk, Hn'.
  - constructor; [by apply IH|]. apply insert_by_index_hd; [done|].
    unfold key_le, index_key; cbn. rewrite Hk, Hn'. cbn. lia.
Qed.

Lemma sort_indices_spec {A} (l : list (string * A)) :
  Forall (fun p => is_index p.1 = true) (sort_indices l) /\ Sorted key_le (sort_indices l) /\
  sort_indices l ≡ₚ filter (fun p => is_index p.1) l.
Proof.
  induction l as [|[k a] l (Hall & Hs & Hp)]; [done|]. cbn [sort_indices].
  destruct (array_index k) as [n|] eqn:Ek.
  - rewrite filter_cons_True
      by (unfold is_index; cbn; rewrite Ek; rewrite bool_decide_eq_true_2; [done|by eexists]).
    split_and!.
    + rewrite insert_by_index_perm. constructor; [|done]. unfold is_index; cbn. rewrite Ek. by apply bool_decide_eq_true_2.
    + by apply insert_by_index_sorted.
    + by rewrite insert_by_index_perm, Hp.
  - rewrite filter_cons_False
      by (unfold is_index; cbn; rewrite Ek; rewrite bool_decide_eq_false_2; [by intros ?|by intros []]).
    done.
Qed.

Lemma obj_assign_eq acc k v :
  obj_assign acc (k, v) = if String.eqb k "__proto__" then acc else js_map_set k (json_of_value v) acc.
Proof. reflexivity. Qed.

(** The keys of the object [save()] builds: the cache's names, in order,
    without [__proto__]. *)
Lemma fold_obj_assign_keys c acc :
  js_map_wf c -> (forall k, k ∈ js_map_keys c -> k ∉ js_map_keys acc) ->
  js_map_keys (fold_left obj_assign c acc) =
    (js_map_keys acc ++ filter (fun n => negb (String.eqb n "__proto__")) (js_map_keys c))%list.
Proof.
  revert acc. induction c as [|[k v] c IH]; intros acc Hwf Hdis; cbn [fold_left].
  { by rewrite app_nil_r. }
  unfold js_map_wf, js_map_keys in Hwf. cbn in Hwf. apply NoDup_cons in Hwf as [Hk Hwf].
  rewrite obj_assign_eq. change (js_map_keys ((k, v) :: c)) with (k :: js_map_keys c).
  rewrite filter_cons. destruct (String.eqb k "__proto__"); cbn [negb].
  - apply IH; [done|]. intros k' Hk'. apply Hdis. unfold js_map_keys; cbn. set_solver.
  - rewrite IH; [|done|].
    + rewrite js_map_keys_set_absent, <- app_assoc; [done|]. apply Hdis. unfold js_map_keys; cbn. set_solver.
    + intros k' Hk'. rewrite js_map_keys_set_absent by (apply Hdis; unfold js_map_keys; cbn; set_solver).
      rewrite elem_of_app, list_elem_of_singleton. intros [Hin | ->]; [|by apply Hk].
      by apply (Hdis k'); [unfold js_map_keys; cbn; set_solver|].
Qed.

Section FilterFacts.
Context {A : Type} (P : A -> Prop) `{!forall x, Decision (P x)}.

Lemma filter_all (l : list A) : Forall P l -> filter P l = l.
Proof. induction 1; [done|]. rewrite filter_cons_True by done. by f_equal. Qed.

Lemma filter_none (l : list A) : Forall (fun x => ~ P x) l -> filter P l = [].
Proof. induction 1; [done|]. by rewrite filter_cons_False. Qed.

Lemma filter_idem (l : list A) : filter P (filter P l) = filter P l.
Proof. induction l as [|x l IH]; [done|]. rewrite filter_cons. case_decide; [|done]. by rewrite filter_cons_True, IH. Qed.
End FilterFacts.

Lemma map_fst_filter {A} (f : string -> bool) (l : list (string * A)) :
  map fst (filter (fun p => f p.1) l) = filter (fun n => f n) (map fst l).
Proof.
  induction l as [|[k a] l IH]; [done|]. rewrite filter_cons. cbn [map fst]. rewrite filter_cons.
  by case_decide; cbn; rewrite IH.
Qed.

Lemma Sorted_map_fst {A} (l : list (string * A)) :
  Sorted key_le l -> Sorted (fun x y => (index_key x <= index_key y)%Z) (map fst l).
Proof.
  induction 1 as [|p l Hs IH Hhd]; cbn; constructor; [done|].
  destruct Hhd; constructor. done.
Qed.

Lemma not_index_iff k : array_index k = None <-> not_index k.
Proof.
  unfold not_index, is_index. destruct (array_index k); [|by rewrite bool_decide_eq_false_2 by by intros []].
  rewrite bool_decide_eq_true_2 by by eexists. cbn. naive_solver.
Qed.

(** C37: The order of the names after a reload: a storage created on the key
    [save()] wrote lists the cache's names without [__proto__], first the
    array indices in ascending numeric order, then every other name in
    the order the names were first set, whatever order the indices were
    set in ([Object.entries] of the parsed object, [OrdinaryOwnPropertyKeys]). *)
Theorem reload_names s store :
  js_map_wf s.(cache) ->
  let names := getAllNames (new (Some s.(storageKey)) (save s (Some store))) in
  let kept := filter (fun n => negb (String.eqb n "__proto__")) (getAllNames s) in
  exists idx, names = (idx ++ filter (fun n => not_index n) kept)%list /\
    idx ≡ₚ filter (fun n => is_index n) kept /\ Sorted (fun x y => (index_key x <= index_key y)%Z) idx.
Proof.
  intros Hwf. cbv zeta. unfold getAllNames at 1, new, save, load; cbn -[object_order js_map_keys js_map_values].
  rewrite js_map_get_set_eq, js_map_keys_values.
  assert (js_map_keys (fold_left obj_assign s.(cache) []) =
          filter (fun n => negb (String.eqb n "__proto__")) (getAllNames s)) as Hobj.
  { rewrite (fold_obj_assign_keys _ []); [done|done|]. intros k _ Hk. inversion Hk. }
  set (kept := filter (fun n => negb (String.eqb n "__proto__")) (getAllNames s)) in *.
  set (obj := fold_left obj_assign s.(cache) []) in *.
  destruct (sort_indices_spec obj) as (Hall0 & _ & Hp0).
  set (L := object_order obj). destruct (sort_indices_spec L) as (_ & HsL & HpL).
  assert (forall l : list (string * JsonValue),
            filter (fun p => array_index p.1 = None) l = filter (fun p => not_index p.1) l) as Hnot
    by (intros l; apply list_filter_iff; intros p; apply not_index_iff).
  assert (map fst L = map fst (sort_indices obj) ++ filter (fun n => not_index n) kept)%list as HL.
  { unfold L, object_order. rewrite map_app, Hnot, map_fst_filter.
    by rewrite <- Hobj. }
  exists (map fst (sort_indices L)). unfold object_order at 1. unfold js_map_keys. rewrite map_app.
  split_and!.
  - f_equal. rewrite Hnot, map_fst_filter, HL, filter_app.
    rewrite filter_none, filter_idem; [done|]. apply Forall_map. eapply Forall_impl; [exact Hall0|].
    intros [k a] Hk. cbn in *. unfold not_index. rewrite Hk. by intros [].
  - rewrite HpL, map_fst_filter, HL, filter_app, (filter_all (fun n => is_index n)).
    + rewrite filter_none, app_nil_r.
      2: { apply Forall_forall. intros n Hn. apply list_elem_of_filter in Hn as [Hn _].
           unfold not_index in Hn. destruct (is_index n); cbn in *; [contradiction|by intros []]. }
      rewrite Hp0, map_fst_filter. change (map fst obj) with (js_map_keys obj). by rewrite Hobj.
    + apply Forall_map. eapply Forall_impl; [exact Hall0|]. intros [k a] Hk. cbn in *. by rewrite Hk.
  - by apply Sorted_map_fst.
Qed.

(** ** Without [localStorage] the storage is the in-memory one *)

Import InMemoryFacts.

(** The local storage's cache holds the in-memory storage's values. *)
Definition refines (ls : LocalStorageVariableStorage) (m : InMemory.InMemoryVariableStorage) : Prop :=
  ls.(cache) = js_map_values JsVar m.(InMemory.variables).

Definition local_apply_op (op : StorageOp) (st : LocalStorageVariableStorage * LocalStore) :
    LocalStorageVariableStorage * LocalStore :=
  let '(ls, env) := st in
  match op with
  | OpSet n v => set n v ls env
  | OpDelete n => let '(_, ls', env') := delete n ls env in (ls', env')
  | OpClear => clear ls env
  end.

Definition local_run_ops (ops : list StorageOp) (st : LocalStorageVariableStorage * LocalStore) :
    LocalStorageVariableStorage * LocalStore :=
  fold_left (fun st op => local_apply_op op st) ops st.

Lemma save_none s : save s None = None.
Proof. reflexivity. Qed.

Lemma local_apply_op_refines op ls m :
  refines ls m -> local_apply_op op (ls, None) = ((local_apply_op op (ls, None)).1, None) /\
                  refines (local_apply_op op (ls, None)).1 (apply_op op m).
Proof.
  unfold refines. intros H. destruct op as [n v|n|]; cbn -[js_map_values].
  - split; [done|]. by rewrite H, js_map_values_set.
  - split; [by destruct (js_map_has n (cache ls))|]. by rewrite H, js_map_values_remove.
  - done.
Qed.

(** C20: Refinement: with [localStorage] undefined, any sequence of
    [set]/[delete]/[clear] on a local storage whose cache holds an
    in-memory storage's values leaves the browser store undefined and the
    two storages answering every [get] and [getAllNames] alike. *)
Theorem local_refines_inmemory ops ls m :
  refines ls m ->
  let '(ls', env') := local_run_ops ops (ls, None) in
  env' = None /\ refines ls' (run_ops ops m) /\
  (forall n, get n ls' = option_map JsVar (InMemory.get n (run_ops ops m))) /\
  getAllNames ls' = InMemory.getAllNames (run_ops ops m).
Proof.
  unfold local_run_ops, run_ops. revert ls m. induction ops as [|op ops IH]; intros ls m H; cbn [fold_left].
  - unfold get, getAllNames, InMemory.get, InMemory.getAllNames. unfold refines in H. rewrite H.
    split_and!; [done|done| |]; [intros n; apply js_map_get_values|apply js_map_keys_values].
  - destruct (local_apply_op_refines op ls m H) as [-> H']. by apply IH.
Qed.

(** ** A session of the local storage *)

(** One step of a session: a storage operation, or a page reload, which
    constructs a new storage on the same key over the same [localStorage]. *)
Inductive SessionOp : Type :=
| SessionStorage (op : StorageOp)
| SessionReload.

Definition session_step (op : SessionOp) (st : LocalStorageVariableStorage * LocalStore) :
    LocalStorageVariableStorage * LocalStore :=
  match op with
  | SessionStorage o => local_apply_op o st
  | SessionReload => let '(ls, env) := st in (new (Some ls.(storageKey)) env, env)
  end.

Definition run_session (ops : list SessionOp) (st : LocalStorageVariableStorage * LocalStore) :
    LocalStorageVariableStorage * LocalStore :=
  fold_left (fun st op => session_step op st) ops st.

(** What [JSON.stringify] makes of a cache: each value's JSON, and no
    [__proto__] (see [obj_assign]). *)
Definition json_image (c : js_map string JsValue) : js_map string JsonValue :=
  js_map_values json_of_value (js_map_remove "__proto__" c).

(** The browser store agrees with the cache: the object under the key
    answers every name as the cache's JSON image does, and when no object
    is stored the cache is empty. *)
Definition synced (ls : LocalStorageVariableStorage) (env : LocalStore) : Prop :=
  match env with
  | None => False
  | Some store =>
      match js_map_get ls.(storageKey) store with
      | Some (ItemObject props) => js_map_wf props /\ js_map_equiv props (json_image ls.(cache))
      | _ => js_map_equiv ls.(cache) []
      end
  end.

(** The session as its client sees it: a map of values in which a reload
    sends every value through JSON and loses [__proto__]. *)
Definition reload_image (c : js_map string JsValue) : js_map string JsValue :=
  js_map_values (fun v => value_of_json (json_of_value v)) (js_map_remove "__proto__" c).

Definition session_map_step (op : SessionOp) (c : js_map string JsValue) : js_map string JsValue :=
  match op with
  | SessionStorage (OpSet n v) => js_map_set n (JsVar v) c
  | SessionStorage (OpDelete n) => js_map_remove n c
  | SessionStorage OpClear => []
  | SessionReload => reload_image c
  end.

Definition session_map (ops : list SessionOp) (c : js_map string JsValue) : js_map string JsValue :=
  fold_left (fun c op => session_map_step op c) ops c.

Lemma json_of_value_of_json j : json_of_value (value_of_json j) = j.
Proof. by destruct j. Qed.

#[export] Instance json_image_proper : Proper (js_map_equiv ==> js_map_equiv) json_image.
Proof. intros c c' H. apply js_map_values_proper, js_map_remove_proper, H. Qed.

#[export] Instance reload_image_proper : Proper (js_map_equiv ==> js_map_equiv) reload_image.
Proof. intros c c' H. apply js_map_values_proper, js_map_remove_proper, H. Qed.

Lemma synced_Some ls env : synced ls env -> is_Some env.
Proof. destruct env; [by eexists|done]. Qed.

(** [save()] puts the cache's JSON image under the key. *)
Lemma save_synced ls env : js_map_wf ls.(cache) -> is_Some env -> synced ls (save ls env).
Proof.
  intros Hwf [store ->]. cbn. rewrite js_map_get_set_eq.
  pose proof (fold_obj_assign_wf ls.(cache) [] (NoDup_nil_2)) as Hobj.
  split; [by eapply js_map_wf_perm; [symmetry; apply object_order_perm|]|].
  intros n. rewrite <- (js_map_get_perm n _ _ Hobj (symmetry (object_order_perm _))).
  unfold json_image. rewrite js_map_get_values, js_map_get_remove, fold_obj_assign_get by done.
  destruct (String.eqb_spec n "__proto__"); case_decide; subst; try congruence; cbn; [done|].
  by destruct (js_map_get n (cache ls)).
Qed.

(** Whether the store agrees depends only on what the cache answers. *)
Lemma synced_equiv ls ls' env :
  ls'.(storageKey) = ls.(storageKey) -> js_map_equiv ls.(cache) ls'.(cache) -> synced ls env -> synced ls' env.
Proof.
  intros Hk Hc. destruct env as [store|]; [|done]. cbn. rewrite Hk.
  destruct (js_map_get _ store) as [[| |props]|]; [intros H k; by rewrite <- (Hc k)..| |intros H k; by rewrite <- (Hc k)].
  intros [Hw Hp]. split; [done|]. etransitivity; [exact Hp|]. by apply json_image_proper.
Qed.

(** A reload reads the stored object back: the new cache is the JSON
    image of the old one read through [JSON.parse], and agrees with the
    store. *)
Lemma reload_synced ls env :
  synced ls env ->
  let ls' := new (Some ls.(storageKey)) env in
  js_map_wf ls'.(cache) /\ synced ls' env /\ js_map_equiv ls'.(cache) (reload_image ls.(cache)).
Proof.
  destruct env as [store|]; [|done]. unfold new, load; cbn -[js_map_values].
  destruct (js_map_get (storageKey ls) store) as [[| |props]|] eqn:E; intros Hs; cbn -[js_map_values]; rewrite ?E;
    try (split_and!; [apply NoDup_nil_2|done|]; intros n; unfold reload_image;
         rewrite js_map_get_values, js_map_get_remove, (Hs n); by case_decide).
  destruct Hs as [Hw Hp].
  assert (forall n, js_map_get n (object_order props) = js_map_get n props) as Ho
    by (intros n; symmetry; apply js_map_get_perm; [done|by rewrite object_order_perm]).
  split_and!.
  - unfold js_map_wf. rewrite js_map_keys_values. eapply js_map_wf_perm; [|exact Hw].
    by rewrite object_order_perm.
  - done.
  - intros n. unfold json_image. rewrite js_map_get_values, js_map_get_remove. case_decide.
    + subst. rewrite (Hp "__proto__"). unfold json_image. by rewrite js_map_get_values, js_map_get_remove, decide_True.
    + rewrite js_map_get_values, Ho.
    by destruct (js_map_get n props); cbn; rewrite ?json_of_value_of_json.
  - intros n. unfold reload_image. rewrite !js_map_get_values, Ho, Hp. unfold json_image.
    rewrite js_map_get_values, !js_map_get_remove. case_decide; [done|].
    by destruct (js_map_get n (cache ls)).
Qed.

(** C13: Refinement of a browser session: from a storage whose cache agrees
    with [localStorage], any sequence of [set], [delete], [clear] and page
    reloads keeps the store in agreement with the cache, and [get] answers
    every name as a plain map would in which each reload passes every value
    through JSON ([Infinity] comes back as [null]) and loses a variable
    named [__proto__]. *)
Theorem session_refines_map ops ls env :
  js_map_wf ls.(cache) -> synced ls env ->
  let '(ls', env') := run_session ops (ls, env) in
  synced ls' env' /\ forall n, get n ls' = js_map_get n (session_map ops ls.(cache)).
Proof.
  intros Hwf Hs. unfold run_session, session_map, get.
  enough (forall c, js_map_equiv ls.(cache) c ->
            let '(ls', env') := fold_left (fun st op => session_step op st) ops (ls, env) in
            synced ls' env' /\ js_map_equiv ls'.(cache) (fold_left (fun c op => session_map_step op c) ops c))
    as H by (specialize (H ls.(cache) ltac:(done)); destruct (fold_left _ ops _); naive_solver).
  revert ls env Hwf Hs. induction ops as [|op ops IH]; intros ls env Hwf Hs c Hc; [done|].
  destruct op as [[n v|n|]|]; cbn [fold_left session_step local_apply_op session_map_step].
  - unfold LocalStorage.set. apply IH; cbn.
    + by apply js_map_set_wf.
    + by apply save_synced, (synced_Some _ _ Hs); apply js_map_set_wf.
    + by apply js_map_set_proper.
  - unfold delete, js_map_delete. destruct (js_map_has n (cache ls)) eqn:Eh; apply IH; cbn.
    + by apply js_map_remove_wf.
    + by apply save_synced, (synced_Some _ _ Hs); apply js_map_remove_wf.
    + by apply js_map_remove_proper.
    + by apply js_map_remove_wf.
    + by apply (synced_equiv ls); [|symmetry; apply js_map_remove_absent|].
    + by apply js_map_remove_proper.
  - unfold clear. apply IH; [apply NoDup_nil_2|by apply save_synced, (synced_Some _ _ Hs); apply NoDup_nil_2|done].
  - destruct (reload_synced ls env Hs) as (Hw' & Hs' & He). apply IH; [done|done|]. etransitivity; [exact He|by apply reload_image_proper].
Qed.

(** ** Witnesses *)

Lemma reload_get_witness :
  get "gold" (new (Some "save1") (save (mkLocalStorageVariableStorage "save1" [("gold", JsVar (VBool true))]) (Some []))) =
    option_map (fun v => value_of_json (json_of_value v)) (Some (JsVar (VBool true))).
Proof.
  apply (reload_get (mkLocalStorageVariableStorage "save1" [("gold", JsVar (VBool true))]) [] "gold");
    [vm_compute; apply NoDup_singleton|discriminate].
Defined.

Lemma local_refines_inmemory_witness :
  let '(ls', env') := local_run_ops [OpSet "gold" (VBool true); OpDelete "hp"; OpClear]
                        (new None None, None) in
  env' = None /\ refines ls' (run_ops [OpSet "gold" (VBool true); OpDelete "hp"; OpClear] (InMemory.new None)) /\
  (forall n, get n ls' = option_map JsVar (InMemory.get n (run_ops [OpSet "gold" (VBool true); OpDelete "hp"; OpClear] (InMemory.new None)))) /\
  getAllNames ls' = InMemory.getAllNames (run_ops [OpSet "gold" (VBool true); OpDelete "hp"; OpClear] (InMemory.new None)).
Proof. apply local_refines_inmemory. reflexivity. Defined.
Lemma reload_names_witness :
  let s := mkLocalStorageVariableStorage "save1"
             [("10", JsVar (VBool true)); ("x", JsVar (VBool false)); ("9", JsVar (VNumber JsInfinity));
              ("__proto__", JsVar (VString "p"))] in
  let names := getAllNames (new (Some s.(storageKey)) (save s (Some []))) in
  let kept := filter (fun n => negb (String.eqb n "__proto__")) (getAllNames s) in
  exists idx, names = (idx ++ filter (fun n => not_index n) kept)%list /\
    idx ≡ₚ filter (fun n => is_index n) kept /\ Sorted (fun x y => (index_key x <= index_key y)%Z) idx.
Proof. intros s. apply (reload_names s []). apply (bool_decide_unpack _). vm_compute. reflexivity. Defined.

Lemma session_refines_map_witness :
  let ops := [SessionStorage (OpSet "gold" (VNumber JsInfinity)); SessionStorage (OpSet "__proto__" (VBool true));
              SessionReload; SessionStorage (OpDelete "hp")] in
  let '(ls', env') := run_session ops (new None (Some []), Some []) in
  synced ls' env' /\ forall n, get n ls' = js_map_get n (session_map ops (new None (Some [])).(cache)).
Proof. apply session_refines_map; [apply NoDup_nil_2|intros k; reflexivity]. Defined.
End LocalStorageFacts.
