(* ===== verification/DialogueTreeRuntime.v ===== *)
(** * The reference runtime: [DialogueTreeRuntime]

    Models lines 1-221 of [src/src/dialogue-tree-runtime.ts].  The class's
    private fields are the record [TreeRuntime]; each method is a function of
    the same name, written as the sequence of field assignments the method
    performs (with [|>]).  A node's [type] tag is the constructor of
    [DialogueNode]; a parsed program may carry a tag that is neither ['NPC']
    nor ['PLAYER'], which is [OtherNode].  The tree's [nodes] object is a
    [gmap] from node keys to nodes (the prototype properties of a JavaScript
    object are not modelled); [startedNodes] is a [gset] since the code only
    tests and adds membership; the variables are an insertion-ordered
    [js_map] since [getVariableNames] returns them in insertion order.

    [loadProgram] is modelled after the JSON decoding: it takes the decoded
    tree.  The decoder performs no validation (the cast [as DialogueTree]). *)

From S2P Require Import Prelude JsCollections Types.
#[local] Set Warnings "-clear-no-such-hyp".

Module DialogueTreeRuntime.

(** ** The program: a dialogue tree *)

(** [interface NpcNode] (the [metadata] field is never read). *)
Record NpcNode : Type := mkNpcNode {
  npc_id : string;
  npc_speaker : option string;
  npc_content : string;
  npc_lineId : option string;
  npc_substitutions : option (list string);
  npc_nextNodeId : option string;
}.

(** [interface PlayerChoice] *)
Record PlayerChoice : Type := mkPlayerChoice {
  choice_id : string;
  choice_text : string;
  choice_nextNodeId : option string;
  choice_lineId : option string;
  choice_enabled : option bool;
}.

(** [interface PlayerNode] *)
Record PlayerNode : Type := mkPlayerNode {
  player_id : string;
  player_choices : list PlayerChoice;
}.

(** [type DialogueNode = NpcNode | PlayerNode], discriminated by [type]. *)
Inductive DialogueNode : Type :=
| NpcNodeOf (n : NpcNode)
| PlayerNodeOf (p : PlayerNode)
| OtherNode (id : string) (type : string).

Definition node_id (node : DialogueNode) : string :=
  match node with
  | NpcNodeOf n => npc_id n
  | PlayerNodeOf p => player_id p
  | OtherNode id _ => id
  end.

(** [interface DialogueTree] *)
Record DialogueTree : Type := mkDialogueTree {
  tree_id : string;
  tree_title : option string;
  startNodeId : string;
  nodes : gmap string DialogueNode;
}.

(** [interface OptionsCache] *)
Record OptionsCache : Type := mkOptionsCache {
  cache_choices : list PlayerChoice;
  cache_nodeId : string;
}.

(** ** The runtime's state: the private fields of the class *)
Record TreeRuntime : Type := mkTreeRuntime {
  tree : DialogueTree;
  currentNodeId : option string;
  isComplete : bool;
  waitingForOption : bool;
  pendingEvents : list RuntimeEvent;
  pendingNextNodeId : option string;
  startedNodes : gset string;
  variables : js_map string VariableValue;
  optionCache : option OptionsCache;
}.

(** Field assignments [this.f = x]. *)
Definition set_tree x rt := mkTreeRuntime x rt.(currentNodeId) rt.(isComplete)
  rt.(waitingForOption) rt.(pendingEvents) rt.(pendingNextNodeId) rt.(startedNodes) rt.(variables) rt.(optionCache).
Definition set_currentNodeId x rt := mkTreeRuntime rt.(tree) x rt.(isComplete)
  rt.(waitingForOption) rt.(pendingEvents) rt.(pendingNextNodeId) rt.(startedNodes) rt.(variables) rt.(optionCache).
Definition set_isComplete x rt := mkTreeRuntime rt.(tree) rt.(currentNodeId) x
  rt.(waitingForOption) rt.(pendingEvents) rt.(pendingNextNodeId) rt.(startedNodes) rt.(variables) rt.(optionCache).
Definition set_waitingForOption x rt := mkTreeRuntime rt.(tree) rt.(currentNodeId) rt.(isComplete)
  x rt.(pendingEvents) rt.(pendingNextNodeId) rt.(startedNodes) rt.(variables) rt.(optionCache).
Definition set_pendingEvents x rt := mkTreeRuntime rt.(tree) rt.(currentNodeId) rt.(isComplete)
  rt.(waitingForOption) x rt.(pendingNextNodeId) rt.(startedNodes) rt.(variables) rt.(optionCache).
Definition set_pendingNextNodeId x rt := mkTreeRuntime rt.(tree) rt.(currentNodeId) rt.(isComplete)
  rt.(waitingForOption) rt.(pendingEvents) x rt.(startedNodes) rt.(variables) rt.(optionCache).
Definition set_startedNodes x rt := mkTreeRuntime rt.(tree) rt.(currentNodeId) rt.(isComplete)
  rt.(waitingForOption) rt.(pendingEvents) rt.(pendingNextNodeId) x rt.(variables) rt.(optionCache).
Definition set_variables x rt := mkTreeRuntime rt.(tree) rt.(currentNodeId) rt.(isComplete)
  rt.(waitingForOption) rt.(pendingEvents) rt.(pendingNextNodeId) rt.(startedNodes) x rt.(optionCache).
Definition set_optionCache x rt := mkTreeRuntime rt.(tree) rt.(currentNodeId) rt.(isComplete)
  rt.(waitingForOption) rt.(pendingEvents) rt.(pendingNextNodeId) rt.(startedNodes) rt.(variables) x.

(** [this.pendingEvents.push(e)] *)
Definition push (e : RuntimeEvent) (rt : TreeRuntime) : TreeRuntime :=
  set_pendingEvents (rt.(pendingEvents) ++ [e]) rt.

(** ** Methods *)

(** [constructor(tree)] *)
Definition new (t : DialogueTree) : TreeRuntime :=
  mkTreeRuntime t (Some t.(startNodeId)) false false [] None ∅ [] None.

(** [reset()]: note that it does not clear [variables]. *)
Definition reset (rt : TreeRuntime) : TreeRuntime :=
  rt |> set_currentNodeId (Some rt.(tree).(startNodeId))
     |> set_waitingForOption false
     |> set_isComplete false
     |> set_pendingEvents []
     |> set_pendingNextNodeId None
     |> set_startedNodes ∅
     |> set_optionCache None.

(** [loadProgram(programBytes)], after [JSON.parse] returned [parsed]. *)
Definition loadProgram (parsed : DialogueTree) (rt : TreeRuntime) : TreeRuntime :=
  let rt := rt |> set_tree parsed |> reset in
  rt |> set_currentNodeId (Some rt.(tree).(startNodeId)).

(** [setNode(nodeName)]: neither [isComplete] nor [startedNodes] is reset. *)
Definition setNode (nodeName : string) (rt : TreeRuntime) : TreeRuntime :=
  rt |> set_currentNodeId (Some nodeName)
     |> set_waitingForOption false
     |> set_pendingEvents []
     |> set_pendingNextNodeId None
     |> set_optionCache None.

(** The [OptionInfo] of the [idx]-th choice ([node.choices.map(...)]). *)
Definition option_of_choice (idx : nat) (choice : PlayerChoice) : OptionInfo :=
  mkOptionInfo (Z.of_nat idx) (js_or_str choice.(choice_lineId) choice.(choice_id))
    (default true choice.(choice_enabled)) choice.(choice_nextNodeId).

(** The body of [populateEventsForCurrentNode] once [node] is found. *)
Definition populate_node (node : DialogueNode) (rt : TreeRuntime) : TreeRuntime :=
  if bool_decide (node_id node ∈ rt.(startedNodes)) then
    match node with
    | NpcNodeOf n =>
        let lineId := js_or_str n.(npc_lineId) n.(npc_id) in
        let substitutions := default [] n.(npc_substitutions) in
        rt |> set_pendingNextNodeId n.(npc_nextNodeId)
           |> push (PrepareForLinesEvent [lineId])
           |> push (LineEvent lineId substitutions)
           |> push (NodeCompleteEvent n.(npc_id))
    | PlayerNodeOf p =>
        let options := imap option_of_choice p.(player_choices) in
        rt |> push (PrepareForLinesEvent (map option_lineId options))
           |> push (OptionsEvent options)
           |> set_optionCache (Some (mkOptionsCache p.(player_choices) p.(player_id)))
    | OtherNode _ _ =>
        (* Unknown node type ends the dialogue *)
        rt |> push DialogueCompleteEvent |> set_isComplete true
    end
  else
    rt |> set_startedNodes ({[node_id node]} ∪ rt.(startedNodes))
       |> push (NodeStartEvent (node_id node)).

(** [private populateEventsForCurrentNode()] *)
Definition populateEventsForCurrentNode (rt : TreeRuntime) : TreeRuntime :=
  if rt.(isComplete) then rt else
  match rt.(currentNodeId) with
  | None => rt |> push DialogueCompleteEvent
  | Some id =>
      if String.eqb id "" then rt |> push DialogueCompleteEvent else
      match rt.(tree).(nodes) !! id with
      | None => rt |> push DialogueCompleteEvent |> set_isComplete true
      | Some node => populate_node node rt
      end
  end.

(** The three [if (nextEvent.type === ...)] statements of [continue()]. *)
Definition after_shift (e : RuntimeEvent) (rt : TreeRuntime) : TreeRuntime :=
  match e with
  | OptionsEvent _ => rt |> set_waitingForOption true
  | NodeCompleteEvent _ =>
      rt |> set_currentNodeId rt.(pendingNextNodeId) |> set_pendingNextNodeId None
  | DialogueCompleteEvent => rt |> set_isComplete true
  | _ => rt
  end.

(** [continue()]: the next event, or [null]. *)
Definition continue (rt : TreeRuntime) : TreeRuntime * option RuntimeEvent :=
  if rt.(isComplete) || rt.(waitingForOption) then (rt, None) else
  let rt := match rt.(pendingEvents) with
            | [] => populateEventsForCurrentNode rt
            | _ => rt
            end in
  match rt.(pendingEvents) with
  | [] => (rt, None)
  | e :: rest => (rt |> set_pendingEvents rest |> after_shift e, Some e)
  end.

(** [setSelectedOption(optionId)] *)
Definition setSelectedOption (optionId : Z) (rt : TreeRuntime)
    : result TreeRuntime DialogueError :=
  match rt.(optionCache) with
  | None => Err ErrNotCurrentlyWaitingForOption
  | Some cache =>
      if negb rt.(waitingForOption) then Err ErrNotCurrentlyWaitingForOption else
      match js_index cache.(cache_choices) optionId with
      | None => Err (ErrInvalidOptionId optionId)
      | Some choice =>
          Ok (rt |> set_waitingForOption false
                 |> set_pendingNextNodeId choice.(choice_nextNodeId)
                 |> push (NodeCompleteEvent cache.(cache_nodeId))
                 |> set_optionCache None)
      end
  end.

(** [getVariable], [setVariable], [getVariableNames] *)
Definition getVariable (name : string) (rt : TreeRuntime) : option VariableValue :=
  js_map_get name rt.(variables).
Definition setVariable (name : string) (value : VariableValue) (rt : TreeRuntime) : TreeRuntime :=
  rt |> set_variables (js_map_set name value rt.(variables)).
Definition getVariableNames (rt : TreeRuntime) : list string :=
  js_map_keys rt.(variables).

(** [isWaitingForOption], [isDialogueComplete] *)
Definition isWaitingForOption (rt : TreeRuntime) : bool := rt.(waitingForOption).
Definition isDialogueComplete (rt : TreeRuntime) : bool := rt.(isComplete).

#[export] Instance TreeRuntime_DialogueRuntime : DialogueRuntime TreeRuntime := {
  rt_setNode := setNode;
  rt_continue := continue;
  rt_setSelectedOption := setSelectedOption;
  rt_getVariable := getVariable;
  rt_setVariable := setVariable;
  rt_getVariableNames := getVariableNames;
  rt_isWaitingForOption := isWaitingForOption;
  rt_isDialogueComplete := isDialogueComplete;
  rt_reset := reset;
}.

End DialogueTreeRuntime.

Module DialogueTreeRuntimeFacts.
Import DialogueTreeRuntime.

(** ** Driving the runtime *)

(** [k] successive calls of [continue()], with the values they return. *)
Fixpoint continue_n (k : nat) (rt : TreeRuntime) : TreeRuntime * list (option RuntimeEvent) :=
  match k with
  | O => (rt, [])
  | S k' => let '(rt1, e) := continue rt in
            let '(rt2, es) := continue_n k' rt1 in (rt2, e :: es)
  end.

(** What an NPC node emits once reached, and a PLAYER node before it waits. *)
Definition npc_events (started : bool) (n : NpcNode) : list RuntimeEvent :=
  let l := js_or_str n.(npc_lineId) n.(npc_id) in
  (if started then [] else [NodeStartEvent n.(npc_id)]) ++
  [PrepareForLinesEvent [l]; LineEvent l (default [] n.(npc_substitutions));
   NodeCompleteEvent n.(npc_id)].

Definition player_events (started : bool) (p : PlayerNode) : list RuntimeEvent :=
  let opts := imap option_of_choice p.(player_choices) in
  (if started then [] else [NodeStartEvent p.(player_id)]) ++
  [PrepareForLinesEvent (map option_lineId opts); OptionsEvent opts].

(** Reduce the operations on a concrete-shaped state, rewriting with the
    hypotheses on its fields and deciding membership in [startedNodes]. *)
Ltac rt_simp :=
  repeat first
    [ progress unfold populate_node, populateEventsForCurrentNode, after_shift in *
    | progress (cbn [continue continue_n populateEventsForCurrentNode populate_node
                     after_shift push setSelectedOption setNode reset loadProgram
                     set_tree set_currentNodeId set_isComplete set_waitingForOption
                     set_pendingEvents set_pendingNextNodeId set_startedNodes
                     set_variables set_optionCache node_id app orb negb
                     tree currentNodeId isComplete waitingForOption pendingEvents
                     pendingNextNodeId startedNodes variables optionCache] in *)
    | match goal with
      | H : ?x = _ |- context [?x] => progress rewrite H
      | |- context [bool_decide ?P] =>
          first [ rewrite (bool_decide_eq_true_2 P) by set_solver
                | rewrite (bool_decide_eq_false_2 P) by set_solver ]
      | |- context [String.eqb ?a ""] =>
          lazymatch goal with
          | H : a <> ""%string |- _ => rewrite (proj2 (String.eqb_neq a "") H)
          end
      end ].

(** A waiting runtime returns [null] and does not change. *)
Lemma continue_waiting rt : rt.(waitingForOption) = true -> continue rt = (rt, None).
Proof. intros Hw. unfold continue. by rewrite Hw, orb_true_r. Qed.

(** C1: Reaching an NPC node with no pending events, [continue()] emits the
    node's start (first visit of the run only), the preparation of its line,
    the line and the node's completion, and moves to [nextNodeId]. *)
Lemma npc_node_protocol rt id n :
  rt.(isComplete) = false -> rt.(waitingForOption) = false -> rt.(pendingEvents) = [] ->
  rt.(currentNodeId) = Some id -> id <> ""%string ->
  rt.(tree).(nodes) !! id = Some (NpcNodeOf n) ->
  let started := bool_decide (n.(npc_id) ∈ rt.(startedNodes)) in
  exists rt',
    continue_n (length (npc_events started n)) rt = (rt', map Some (npc_events started n)) /\
    rt'.(currentNodeId) = n.(npc_nextNodeId) /\ rt'.(pendingEvents) = [] /\
    rt'.(isComplete) = false /\ rt'.(waitingForOption) = false /\
    rt'.(startedNodes) = {[n.(npc_id)]} ∪ rt.(startedNodes) /\
    rt'.(tree) = rt.(tree) /\ rt'.(optionCache) = rt.(optionCache).
Proof.
  intros Hc Hw Hp Hcur Hid Hnode started.
  destruct rt as [t cur c w p pn sn vars oc]; cbn in *; subst.
  unfold started; clear started.
  destruct (decide (npc_id n ∈ sn)) as [Hin|Hin].
  - rewrite bool_decide_eq_true_2 by done. unfold npc_events. cbn [length app].
    rt_simp. cbn [map]. eexists; split; [reflexivity|].
    split_and!; try reflexivity. unfold set_pendingEvents, set_currentNodeId, push; cbn [startedNodes]. set_solver.
  - rewrite bool_decide_eq_false_2 by done. unfold npc_events. cbn [length app].
    rt_simp. cbn [map]. eexists; split; [reflexivity|]. split_and!; reflexivity.
Qed.

(** C2: Reaching a PLAYER node, [continue()] emits the node's start (first visit
    only), the preparation of the option lines and the options, then waits:
    further calls return [null] and change nothing. *)
Lemma player_node_protocol rt id p :
  rt.(isComplete) = false -> rt.(waitingForOption) = false -> rt.(pendingEvents) = [] ->
  rt.(currentNodeId) = Some id -> id <> ""%string ->
  rt.(tree).(nodes) !! id = Some (PlayerNodeOf p) ->
  let started := bool_decide (p.(player_id) ∈ rt.(startedNodes)) in
  exists rt',
    continue_n (length (player_events started p)) rt = (rt', map Some (player_events started p)) /\
    rt'.(waitingForOption) = true /\ rt'.(pendingEvents) = [] /\ rt'.(isComplete) = false /\
    rt'.(optionCache) = Some (mkOptionsCache p.(player_choices) p.(player_id)) /\
    rt'.(currentNodeId) = Some id /\ continue rt' = (rt', None).
Proof.
  intros Hc Hw Hp Hcur Hid Hnode started.
  destruct rt as [t cur c w pe pn sn vars oc]; cbn in *; subst.
  unfold started; clear started.
  destruct (decide (player_id p ∈ sn)) as [Hin|Hin].
  - rewrite bool_decide_eq_true_2 by done. unfold player_events. cbn [length app].
    rt_simp. cbn [map]. eexists; split; [reflexivity|].
    split_and!; [reflexivity..|apply continue_waiting; reflexivity].
  - rewrite bool_decide_eq_false_2 by done. unfold player_events. cbn [length app].
    rt_simp. cbn [map]. eexists; split; [reflexivity|].
    split_and!; [reflexivity..|apply continue_waiting; reflexivity].
Qed.

(** C4: [setSelectedOption(i)] throws 'Not currently waiting for an option'
    exactly when no option set is cached or the runtime is not waiting, and
    [Invalid option id i] exactly when it is waiting and [i] indexes no
    choice; a throw leaves the runtime as it was. *)
Lemma setSelectedOption_errors rt i e :
  setSelectedOption i rt = Err e <->
  ((rt.(optionCache) = None \/ rt.(waitingForOption) = false) /\ e = ErrNotCurrentlyWaitingForOption) \/
  (exists c, rt.(optionCache) = Some c /\ rt.(waitingForOption) = true /\
     ((i < 0)%Z \/ (length c.(cache_choices) <= Z.to_nat i)%nat) /\ e = ErrInvalidOptionId i).
Proof.
  unfold setSelectedOption.
  destruct (optionCache rt) as [c|]; [|naive_solver].
  destruct (waitingForOption rt); cbn; [|naive_solver].
  destruct (js_index (cache_choices c) i) eqn:Hi.
  - split; [done|]. intros [[[]]|(?&[= <-]&_&Hr&_)]; [done..|].
    apply js_index_None in Hr. congruence.
  - apply js_index_None in Hi. naive_solver.
Qed.

(** C3: Selecting a valid option while waiting queues the choice node's
    completion; the next [continue()] returns it and moves to the selected
    choice's [nextNodeId], and to no other choice's. *)
Lemma select_option_advances rt c i choice :
  rt.(optionCache) = Some c -> rt.(waitingForOption) = true ->
  rt.(pendingEvents) = [] -> rt.(isComplete) = false ->
  js_index c.(cache_choices) i = Some choice ->
  exists rt1 rt2,
    setSelectedOption i rt = Ok rt1 /\
    continue rt1 = (rt2, Some (NodeCompleteEvent c.(cache_nodeId))) /\
    rt2.(currentNodeId) = choice.(choice_nextNodeId) /\ rt2.(pendingNextNodeId) = None /\
    rt2.(pendingEvents) = [] /\ rt2.(waitingForOption) = false /\
    rt2.(optionCache) = None /\ rt2.(isComplete) = false.
Proof.
  intros Hoc Hw Hp Hc Hi.
  destruct rt as [t cur cp w pe pn sn vars oc]; cbn in *; subst.
  unfold setSelectedOption; cbn. rewrite Hi.
  do 2 eexists; split; [reflexivity|]. rt_simp. repeat split.
Qed.

(** ** Well-formedness of the runtime's state *)

(** Between two calls, the queue holds nothing, the rest of an NPC node's
    block, or the options of a PLAYER node (whose choices are cached). *)
Definition pending_ok (rt : TreeRuntime) : Prop :=
  match rt.(pendingEvents) with
  | [] => True
  | [LineEvent _ _; NodeCompleteEvent _] => True
  | [NodeCompleteEvent _] => True
  | [OptionsEvent _] => is_Some rt.(optionCache)
  | _ => False
  end.

Definition wf (rt : TreeRuntime) : Prop :=
  pending_ok rt /\
  (rt.(waitingForOption) = true ->
     rt.(pendingEvents) = [] /\ is_Some rt.(optionCache) /\ rt.(isComplete) = false) /\
  (rt.(isComplete) = true -> rt.(pendingEvents) = [] /\ rt.(waitingForOption) = false).

(** Every public operation, as one step of a client. *)
Inductive TreeOp : Type :=
| OpContinue
| OpSetNode (nodeName : string)
| OpSelect (optionId : Z)
| OpSetVariable (name : string) (value : VariableValue)
| OpReset
| OpLoadProgram (parsed : DialogueTree).

(** The state after an operation and the event it returned; a call that
    throws leaves the state unchanged. *)
Definition apply_op (op : TreeOp) (rt : TreeRuntime) : TreeRuntime * option RuntimeEvent :=
  match op with
  | OpContinue => continue rt
  | OpSetNode n => (setNode n rt, None)
  | OpSelect i => match setSelectedOption i rt with Ok rt' => (rt', None) | Err _ => (rt, None) end
  | OpSetVariable n v => (setVariable n v rt, None)
  | OpReset => (reset rt, None)
  | OpLoadProgram t => (loadProgram t rt, None)
  end.

(** A run of operations: the final state and the events returned. *)
Fixpoint run_ops (ops : list TreeOp) (rt : TreeRuntime) : TreeRuntime * list RuntimeEvent :=
  match ops with
  | [] => (rt, [])
  | op :: ops' =>
      let '(rt1, e) := apply_op op rt in
      let '(rt2, es) := run_ops ops' rt1 in
      (rt2, option_list e ++ es)
  end.

Lemma wf_new t : wf (new t).
Proof. repeat split; cbn; done. Qed.

Lemma wf_continue rt : wf rt -> wf (continue rt).1.
Proof.
  destruct rt as [t cur c w pe pn sn vars oc].
  unfold wf, pending_ok, continue; cbn.
  destruct c, w; cbn; try done.
  intros [Hp _]. destruct pe as [|e pe].
  - unfold populateEventsForCurrentNode; cbn.
    destruct cur as [id|]; [|repeat split; done].
    destruct (String.eqb id ""); [repeat split; done|].
    destruct (nodes t !! id) as [node|]; [|repeat split; done].
    unfold populate_node; cbn.
    case_bool_decide; [destruct node|]; cbn; repeat split; done.
  - repeat (destruct e; try done; destruct pe as [|e pe]; try done);
      cbn; repeat split; done.
Qed.

Lemma wf_setSelectedOption rt i rt' : wf rt -> setSelectedOption i rt = Ok rt' -> wf rt'.
Proof.
  unfold setSelectedOption. intros (Hp & Hw & Hc) Hsel.
  destruct (optionCache rt) as [oc|]; [|done].
  destruct (waitingForOption rt) eqn:Ew; [|done]. cbn in Hsel.
  destruct (js_index _ i); [|done]. injection Hsel as <-.
  destruct (Hw eq_refl) as (Hpe & _ & Hcf).
  unfold wf, pending_ok; cbn. rewrite Hpe, Hcf. repeat split; done.
Qed.

Lemma wf_apply_op op rt : wf rt -> wf (apply_op op rt).1.
Proof.
  intros Hwf. destruct op; cbn.
  - by apply wf_continue.
  - unfold wf, pending_ok; cbn. destruct Hwf as (_&_&Hc). split; [done|].
    split; [done|]. intros Hc'. by destruct (Hc Hc').
  - destruct (setSelectedOption _ _) eqn:E; [by eapply wf_setSelectedOption|done].
  - destruct Hwf as (Hp&Hw&Hc). unfold wf, pending_ok; cbn. repeat split; auto; naive_solver.
  - repeat split; cbn; done.
  - repeat split; cbn; done.
Qed.

Lemma run_ops_wf ops rt : wf rt -> wf (run_ops ops rt).1.
Proof.
  revert rt. induction ops as [|op ops IH]; intros rt Hwf; cbn; [done|].
  pose proof (wf_apply_op op rt Hwf) as H1.
  destruct (apply_op op rt) as [rt1 e]. specialize (IH rt1 H1).
  destruct (run_ops ops rt1). exact IH.
Qed.

(** C11: The invariant holds after any sequence of operations from a
    well-formed state, in particular from a freshly constructed runtime. *)
Theorem wf_run_ops ops rt : wf rt -> wf (run_ops ops rt).1.
Proof. apply run_ops_wf. Qed.

(** ** Progress and completion *)

(** C15: No event is lost: a well-formed runtime that is neither complete nor
    waiting for a choice always returns an event from [continue()]. *)
Theorem continue_progress rt :
  wf rt -> rt.(isComplete) = false -> rt.(waitingForOption) = false ->
  exists rt' e, continue rt = (rt', Some e).
Proof.
  destruct rt as [t cur c w pe pn sn vars oc]; cbn. intros _ -> ->.
  unfold continue; cbn. destruct pe as [|e pe]; [|by eexists _, _].
  unfold populateEventsForCurrentNode; cbn.
  destruct cur as [id|]; [|by eexists _, _].
  destruct (String.eqb id ""); [by eexists _, _|].
  destruct (nodes t !! id) as [node|]; [|by eexists _, _].
  unfold populate_node; cbn.
  case_bool_decide; [destruct node|]; by eexists _, _.
Qed.

(** Operations other than [reset] and [loadProgram]. *)
Definition keeps_run (op : TreeOp) : Prop :=
  match op with OpReset | OpLoadProgram _ => False | _ => True end.

Lemma apply_op_complete op rt :
  wf rt -> rt.(isComplete) = true -> keeps_run op ->
  (apply_op op rt).2 = None /\ (apply_op op rt).1.(isComplete) = true.
Proof.
  intros (_&_&Hc) Hcomp Hop. destruct (Hc Hcomp) as [_ Hw].
  destruct op; cbn in *; try done.
  - unfold continue. by rewrite Hcomp.
  - unfold setSelectedOption. rewrite Hw. by destruct (optionCache rt).
Qed.

Lemma run_ops_from_complete ops rt :
  wf rt -> rt.(isComplete) = true -> Forall keeps_run ops ->
  (run_ops ops rt).2 = [] /\ (run_ops ops rt).1.(isComplete) = true.
Proof.
  revert rt. induction ops as [|op ops IH]; intros rt Hwf Hc Hops; cbn; [done|].
  inversion Hops as [|? ? Hop Hops']; subst.
  pose proof (wf_apply_op op rt Hwf) as Hwf1.
  destruct (apply_op_complete op rt Hwf Hc Hop) as [He Hc1].
  destruct (apply_op op rt) as [rt1 e]; cbn in *; subst.
  destruct (IH rt1 Hwf1 Hc1 Hops') as [IH1 IH2].
  destruct (run_ops ops rt1); cbn in *. by subst.
Qed.

(** C17: Completion is absorbing: once the runtime is complete, no operation but
    [reset] and [loadProgram] returns an event or leaves the complete state
    (in particular [setNode] does not restart it). *)
Theorem complete_absorbing ops rt :
  wf rt -> rt.(isComplete) = true -> Forall keeps_run ops ->
  (run_ops ops rt).2 = [] /\ (run_ops ops rt).1.(isComplete) = true.
Proof. apply run_ops_from_complete. Qed.

Lemma continue_dialogue_complete rt rt' :
  continue rt = (rt', Some DialogueCompleteEvent) -> rt'.(isComplete) = true.
Proof.
  unfold continue. destruct (_ || _); [done|].
  destruct (pendingEvents _) as [|e ?] eqn:E; [|destruct e]; cbn; try (intros; simplify_eq; done);
    (destruct (pendingEvents (populateEventsForCurrentNode rt)) as [|e' ?]; [done|]);
    destruct e'; intros; simplify_eq; done.
Qed.

Lemma apply_op_dialogue_complete op rt rt' :
  apply_op op rt = (rt', Some DialogueCompleteEvent) -> rt'.(isComplete) = true.
Proof.
  destruct op; cbn; try (intros; simplify_eq; done).
  - apply continue_dialogue_complete.
  - destruct (setSelectedOption _ _); intros; simplify_eq.
Qed.

(** C16: [DialogueComplete] is returned at most once per run, and it is the last
    event of the run: between two [reset]/[loadProgram], nothing follows it. *)
Theorem dialogue_complete_last ops rt es1 es2 :
  wf rt -> Forall keeps_run ops ->
  (run_ops ops rt).2 = es1 ++ DialogueCompleteEvent :: es2 ->
  es2 = [] /\ DialogueCompleteEvent ∉ es1.
Proof.
  revert rt es1. induction ops as [|op ops IH]; intros rt es1 Hwf Hops; cbn.
  { intros H. by destruct es1. }
  inversion Hops as [|? ? Hop Hops']; subst.
  pose proof (wf_apply_op op rt Hwf) as Hwf1.
  destruct (apply_op op rt) as [rt1 e] eqn:Eop; cbn in Hwf1.
  destruct (run_ops ops rt1) as [rt2 es] eqn:Erun; cbn.
  destruct e as [e|]; cbn; [|intros H; apply (IH rt1 es1 Hwf1 Hops'); by rewrite Erun].
  destruct (decide (e = DialogueCompleteEvent)) as [->|Hne].
  - apply apply_op_dialogue_complete in Eop.
    destruct (run_ops_from_complete ops rt1 Hwf1 Eop Hops') as [Hnil _].
    rewrite Erun in Hnil; cbn in Hnil; subst es.
    intros H. destruct es1 as [|x es1]; cbn in H.
    + injection H as <-. split; [done|set_solver].
    + injection H as _ H'. destruct es1; discriminate.
  - intros H. destruct es1 as [|x es1]; cbn in H; injection H as Hx H; [congruence|]. subst x.
    destruct (IH rt1 es1 Hwf1 Hops') as [-> Hnin]; [by rewrite Erun|].
    split; [done|]. rewrite elem_of_cons. intros [?|?]; [congruence|done].
Qed.

(** ** A bound on consecutive non-pausing events *)

(** How many calls of [continue()], at most, until it returns an event that
    stops the runner's loop, when starting at node [cur] with an empty queue. *)
Definition node_rank (rt : TreeRuntime) (cur : option string) : nat :=
  match cur with
  | None => 1
  | Some id =>
      if String.eqb id "" then 1 else
      match rt.(tree).(nodes) !! id with
      | None => 1
      | Some node =>
          (if bool_decide (node_id node ∈ rt.(startedNodes)) then 0 else 1) +
          match node with OtherNode _ _ => 1 | _ => 2 end
      end
  end.

Definition rank (rt : TreeRuntime) : nat :=
  match rt.(pendingEvents) with
  | [] => node_rank rt rt.(currentNodeId)
  | [NodeCompleteEvent _] => 1 + node_rank rt rt.(pendingNextNodeId)
  | _ => 1
  end.

Lemma node_rank_le rt cur : node_rank rt cur <= 3.
Proof.
  unfold node_rank. destruct cur; [|lia]. destruct (String.eqb _ _); [lia|].
  destruct (_ !! _) as [[]|]; [..|lia]; case_bool_decide; lia.
Qed.

Lemma rank_le rt : rank rt <= 4.
Proof.
  unfold rank. pose proof (node_rank_le rt (currentNodeId rt)).
  pose proof (node_rank_le rt (pendingNextNodeId rt)).
  repeat case_match; lia.
Qed.

(** Each event that does not stop the loop strictly decreases the rank: so
    at most [rank rt <= 4] calls of [continue()] return such events in a
    row. *)
Lemma continue_rank_decreases rt rt' e :
  wf rt -> continue rt = (rt', Some e) -> stops_loop e = false -> rank rt' < rank rt.
Proof.
  destruct rt as [t cur c w pe pn sn vars oc].
  unfold wf, pending_ok, continue; cbn.
  destruct c, w; cbn; try (intros; cbn in *; simplify_eq; cbn in *; done).
  intros [Hp _]. destruct pe as [|e0 pe].
  - unfold populateEventsForCurrentNode; cbn.
    destruct cur as [id|]; [|intros; cbn in *; simplify_eq; cbn in *; done].
    destruct (String.eqb id "") eqn:Eid; [intros; cbn in *; simplify_eq; cbn in *; done|].
    destruct (nodes t !! id) as [node|] eqn:En; [|intros; cbn in *; simplify_eq; cbn in *; done].
    unfold populate_node, rank, node_rank; cbn.
    case_bool_decide as Hs; [destruct node|]; cbn; intros; cbn in *; simplify_eq; cbn in *; try done;
      rewrite Eid, En; cbn; [lia|lia|].
    rewrite bool_decide_eq_true_2 by set_solver. rewrite bool_decide_eq_false_2 by done.
    destruct node; lia.
  - repeat (destruct e0; try done; destruct pe as [|e0 pe]; try done);
      intros; cbn in *; simplify_eq; cbn in *; try done.
    unfold rank, node_rank; cbn. lia.
Qed.

(** ** Node-start notifications *)

Lemma populate_startedNodes rt :
  rt.(startedNodes) ⊆ (populateEventsForCurrentNode rt).(startedNodes).
Proof. unfold populateEventsForCurrentNode, populate_node. repeat case_match; cbn; set_solver. Qed.

Lemma after_shift_startedNodes e rt : (after_shift e rt).(startedNodes) = rt.(startedNodes).
Proof. by destruct e. Qed.

Lemma apply_op_startedNodes op rt :
  keeps_run op -> rt.(startedNodes) ⊆ (apply_op op rt).1.(startedNodes).
Proof.
  intros Hop. destruct op; cbn in *; try done.
  - unfold continue. destruct (_ || _); [done|].
    pose proof (populate_startedNodes rt).
    destruct (pendingEvents rt) eqn:Ep;
      [destruct (pendingEvents (populateEventsForCurrentNode rt))|]; cbn;
      rewrite ?Ep; cbn; rewrite ?after_shift_startedNodes; cbn; set_solver.
  - destruct (setSelectedOption _ _) as [rt'|] eqn:E; [|done].
    unfold setSelectedOption in E. destruct (optionCache rt); [|done].
    destruct (waitingForOption rt); cbn in E; [|done].
    destruct (js_index _ _); [|done]. by injection E as <-.
Qed.

Lemma apply_op_node_start op rt rt' x :
  wf rt -> apply_op op rt = (rt', Some (NodeStartEvent x)) ->
  (x ∉ startedNodes rt) /\ x ∈ startedNodes rt'.
Proof.
  intros [Hp _].
  destruct op; cbn; try (intros; simplify_eq; done);
    [|destruct (setSelectedOption _ _); intros; simplify_eq; done].
  unfold continue. destruct (_ || _); [intros; simplify_eq; done|].
  unfold pending_ok in Hp. destruct (pendingEvents rt) as [|e pe] eqn:Ep; cbn.
  - unfold populateEventsForCurrentNode. destruct (isComplete rt); [cbn; rewrite ?Ep; cbn; done|].
    destruct (currentNodeId rt) as [id|]; [|cbn; rewrite ?Ep; cbn; intros; simplify_eq; done].
    destruct (String.eqb id ""); [cbn; rewrite ?Ep; cbn; intros; simplify_eq; done|].
    destruct (_ !! id) as [node|]; [|cbn; rewrite ?Ep; cbn; intros; simplify_eq; done].
    unfold populate_node. case_bool_decide; [destruct node|]; cbn; cbn; rewrite ?Ep; cbn; cbn;
      intros; simplify_eq; try done. set_solver.
  - rewrite Ep. intros. destruct e; simplify_eq; done.
Qed.

(** C18: A node-start notification is emitted at most once per node between two
    [reset]/[loadProgram]: never for a node already started, and never twice
    in one run, even when the run enters the node again. *)
Theorem node_start_once ops rt x :
  wf rt -> Forall keeps_run ops ->
  (x ∈ startedNodes rt -> NodeStartEvent x ∉ (run_ops ops rt).2) /\
  (forall es1 es2, (run_ops ops rt).2 = es1 ++ NodeStartEvent x :: es2 ->
     NodeStartEvent x ∉ es1 ++ es2).
Proof.
  revert rt. induction ops as [|op ops IH]; intros rt Hwf Hops; cbn.
  { split; [set_solver|]. intros es1 es2 H. by destruct es1. }
  inversion Hops as [|? ? Hop Hops']; subst.
  pose proof (wf_apply_op op rt Hwf) as Hwf1.
  pose proof (apply_op_startedNodes op rt Hop) as Hsub.
  pose proof (apply_op_node_start op rt) as Hstart.
  destruct (apply_op op rt) as [rt1 e] eqn:Eop; cbn in *.
  destruct (IH rt1 Hwf1 Hops') as [IH1 IH2].
  destruct (run_ops ops rt1) as [rt2 es] eqn:Erun; cbn in *.
  destruct e as [e|]; cbn.
  - destruct (decide (e = NodeStartEvent x)) as [->|Hne].
    + destruct (Hstart rt1 x Hwf eq_refl) as [Hnot Hin1].
      split; [done|]. intros es1 es2 H.
      destruct es1 as [|y es1]; cbn in H.
      * injection H as <-. cbn. by apply IH1.
      * injection H as <- H. exfalso. apply (IH1 Hin1). rewrite H. set_solver.
    + split.
      * intros Hin. rewrite elem_of_cons. intros [?|?]; [done|]. by apply IH1; [set_solver|].
      * intros es1 es2 H. destruct es1 as [|y es1]; cbn in H.
        { injection H as Hy _. congruence. }
        injection H as <- H. cbn. rewrite elem_of_cons. intros [?|?]; [done|]. by apply (IH2 es1 es2).
  - split; [intros; apply IH1; set_solver|exact IH2].
Qed.

(** The tree runtime satisfies the laws the runner relies on. *)
#[export] Instance TreeRuntime_laws : DialogueRuntimeLaws TreeRuntime.
Proof.
  split; intros; cbn; unfold getVariable, setVariable; cbn;
    [apply js_map_get_set_eq|by apply js_map_get_set_ne|done|done].
Qed.

(** ** Concrete runs: the fixtures of [dialogue-tree-runtime.test.ts] *)

Definition npc1 := mkNpcNode "npc_1" (Some "Guide") "Welcome" None None (Some "npc_2").
Definition npc2 := mkNpcNode "npc_2" None "Farewell" None None None.
Definition demo_tree : DialogueTree :=
  mkDialogueTree "demo" (Some "Demo") "npc_1"
    (<["npc_1" := NpcNodeOf npc1]> (<["npc_2" := NpcNodeOf npc2]> ∅)).

Definition buyChoice := mkPlayerChoice "buy" "Buy" (Some "npc_buy") None None.
Definition chatChoice := mkPlayerChoice "chat" "Chat" (Some "npc_chat") None None.
(** A third choice, disabled, to show that [enabled] is not checked. *)
Definition closedChoice := mkPlayerChoice "closed" "Closed" (Some "npc_buy") None (Some false).
Definition shop_player := mkPlayerNode "player" [buyChoice; chatChoice; closedChoice].
Definition shop_tree : DialogueTree :=
  mkDialogueTree "shop" (Some "Shop") "player"
    (<["player" := PlayerNodeOf shop_player]>
     (<["npc_buy" := NpcNodeOf (mkNpcNode "npc_buy" None "Here are the wares." None None None)]>
      (<["npc_chat" := NpcNodeOf (mkNpcNode "npc_chat" None "Gossip time." None None None)]> ∅))).

(** A loop [a -> b -> a]: the second visit of [a] has no [node_start]. *)
Definition loop_a := mkNpcNode "a" None "A" None None (Some "b").
Definition loop_tree : DialogueTree :=
  mkDialogueTree "loop" None "a"
    (<["a" := NpcNodeOf loop_a]>
     (<["b" := NpcNodeOf (mkNpcNode "b" None "B" None None (Some "a"))]> ∅)).

(** The shop runtime once its options are out. *)
Definition shop_waiting : TreeRuntime := (continue_n 3 (new shop_tree)).1.

Lemma npc_node_protocol_witness :
  let started := bool_decide (npc1.(npc_id) ∈ (new demo_tree).(startedNodes)) in
  exists rt',
    continue_n (length (npc_events started npc1)) (new demo_tree) = (rt', map Some (npc_events started npc1)) /\
    rt'.(currentNodeId) = npc1.(npc_nextNodeId) /\ rt'.(pendingEvents) = [] /\
    rt'.(isComplete) = false /\ rt'.(waitingForOption) = false /\
    rt'.(startedNodes) = {[npc1.(npc_id)]} ∪ (new demo_tree).(startedNodes) /\
    rt'.(tree) = (new demo_tree).(tree) /\ rt'.(optionCache) = (new demo_tree).(optionCache).
Proof. apply (npc_node_protocol (new demo_tree) "npc_1"); reflexivity || discriminate. Defined.

Lemma player_node_protocol_witness :
  let started := bool_decide (shop_player.(player_id) ∈ (new shop_tree).(startedNodes)) in
  exists rt',
    continue_n (length (player_events started shop_player)) (new shop_tree) =
      (rt', map Some (player_events started shop_player)) /\
    rt'.(waitingForOption) = true /\ rt'.(pendingEvents) = [] /\ rt'.(isComplete) = false /\
    rt'.(optionCache) = Some (mkOptionsCache shop_player.(player_choices) shop_player.(player_id)) /\
    rt'.(currentNodeId) = Some "player"%string /\ continue rt' = (rt', None).
Proof. apply (player_node_protocol (new shop_tree) "player"); reflexivity || discriminate. Defined.

(** Selecting the disabled third option succeeds. *)
Lemma select_option_advances_witness :
  exists rt1 rt2,
    setSelectedOption 2 shop_waiting = Ok rt1 /\
    continue rt1 = (rt2, Some (NodeCompleteEvent "player")) /\
    rt2.(currentNodeId) = closedChoice.(choice_nextNodeId) /\ rt2.(pendingNextNodeId) = None /\
    rt2.(pendingEvents) = [] /\ rt2.(waitingForOption) = false /\
    rt2.(optionCache) = None /\ rt2.(isComplete) = false.
Proof.
  apply (select_option_advances shop_waiting (mkOptionsCache shop_player.(player_choices) "player"));
    reflexivity.
Defined.

Lemma wf_run_ops_witness :
  wf (run_ops [OpContinue; OpContinue; OpContinue; OpSelect 1; OpSetNode "npc_buy"; OpContinue]
        (new shop_tree)).1.
Proof. apply wf_run_ops. apply wf_new. Defined.

Lemma continue_progress_witness : exists rt' e, continue (new demo_tree) = (rt', Some e).
Proof. apply continue_progress; [apply wf_new|reflexivity|reflexivity]. Defined.

(** The demo run after its nine events: complete. *)
Definition demo_done : TreeRuntime := (run_ops (repeat OpContinue 9) (new demo_tree)).1.

Lemma complete_absorbing_witness :
  (run_ops [OpSetNode "npc_1"; OpContinue; OpSelect 0] demo_done).2 = [] /\
  (run_ops [OpSetNode "npc_1"; OpContinue; OpSelect 0] demo_done).1.(isComplete) = true.
Proof.
  apply complete_absorbing; [apply run_ops_wf, wf_new|reflexivity|repeat constructor].
Defined.

Lemma dialogue_complete_last_witness :
  @nil RuntimeEvent = [] /\
  DialogueCompleteEvent ∉ take 8 (run_ops (repeat OpContinue 10) (new demo_tree)).2.
Proof.
  apply (dialogue_complete_last (repeat OpContinue 10) (new demo_tree));
    [apply wf_new|repeat constructor|vm_compute; reflexivity].
Defined.

(** In the loop, [a] is entered twice but started once. *)
Example loop_revisit_events :
  (run_ops (repeat OpContinue 12) (new loop_tree)).2 =
  [NodeStartEvent "a"; PrepareForLinesEvent ["a"]; LineEvent "a" []; NodeCompleteEvent "a";
   NodeStartEvent "b"; PrepareForLinesEvent ["b"]; LineEvent "b" []; NodeCompleteEvent "b";
   PrepareForLinesEvent ["a"]; LineEvent "a" []; NodeCompleteEvent "a";
   PrepareForLinesEvent ["b"]].
Proof. vm_compute. reflexivity. Qed.

Lemma node_start_once_witness :
  NodeStartEvent "a" ∉ [] ++ drop 1 (run_ops (repeat OpContinue 12) (new loop_tree)).2.
Proof.
  apply (proj2 (node_start_once (repeat OpContinue 12) (new loop_tree) "a" (wf_new _)
                  ltac:(repeat constructor))).
  vm_compute. reflexivity.
Defined.

End DialogueTreeRuntimeFacts.
