(* ===== verification/TreeRuntimeSpec.v ===== *)
(** * The reference runtime refines the spec's graph-walker machine

    The spec (§4.1, "Reference graph-walker state machine") describes the
    runtime as a machine over the states NotStarted, NodeEntering, NodeBody,
    AwaitingChoice, Advancing, NodeExiting and Finished, each step emitting
    one event.  Module [GraphWalkerSpec] writes that machine down from the
    spec's words, as a labelled step relation [spec_step] on [SpecState]
    (the program, the run's visited marker and the phase), with [load] and
    [reset] returning to the start node and [selectOption] as its own
    transition.  Module [TreeRuntimeRefinement] maps every state of
    [DialogueTreeRuntime] to a spec state ([abs], in the manner of an
    abstraction function) and proves that each call of [continue()],
    [setSelectedOption], [reset], [loadProgram] and [setVariable] is a step
    of the spec machine with the same event, so that every run of the
    runtime is a run of the spec ([tree_refines_spec]).  Before the
    abstraction, the same Module shows that the options a PLAYER node
    offers carry the indices [0..n-1] the spec asks for, and that the
    selection accepts exactly those ([option_ids_in_range]).

    Two corners of the code lie outside the spec, and the theorem assumes
    they do not occur ([graph_ok]): a node keyed by the empty string (the
    code's [!this.currentNodeId] treats it as no position) and an empty
    [lineId] (the code's [||] replaces it by the node's id, where the spec
    defaults only an absent one).  [setNode] is left out: it keeps a
    finished run finished (see [complete_absorbing]), where the spec's
    [setActiveNode] jumps to the node. *)

From S2P Require Import Prelude JsCollections Types DialogueTreeRuntime.

Module GraphWalkerSpec.
Import DialogueTreeRuntime.

(** The phases of the spec's machine. *)
Inductive SpecPhase : Type :=
| SEntering (pos : option string)                 (** NotStarted / NodeEntering *)
| SBody (key : string)                            (** NodeBody of a visited node *)
| SLine (lineId : string) (subs : list string) (name : string) (next : option string)
                                                  (** text announced, not yet shown *)
| SExiting (name : string) (next : option string)  (** NodeExiting, then advance to [next] *)
| SOffering (name : string) (choices : list PlayerChoice) (opts : list OptionInfo)
                                                  (** choice lines announced, option set pending *)
| SAwaiting (name : string) (choices : list PlayerChoice)  (** AwaitingChoice *)
| SFinished.

Record SpecState : Type := mkSpecState {
  graph : DialogueTree;
  visited : gset string;
  phase : SpecPhase;
}.

(** Entering a position: a visited node goes straight to its body, an
    unvisited or unresolved position is still to be entered. *)
Definition entry (t : DialogueTree) (vis : gset string) (pos : option string) : SpecPhase :=
  match pos with
  | Some key =>
      match t.(nodes) !! key with
      | Some n => if bool_decide (node_id n ∈ vis) then SBody key else SEntering pos
      | None => SEntering pos
      end
  | None => SEntering None
  end.

Definition resolves (t : DialogueTree) (pos : option string) : bool :=
  match pos with Some key => bool_decide (is_Some (t.(nodes) !! key)) | None => false end.

(** An NPC node's line: [lineId] defaulting to the node id. *)
Definition spec_line (n : NpcNode) : string := default n.(npc_id) n.(npc_lineId).

(** The option set of a choice node: index, line (defaulting to the choice
    id), enabled (defaulting to true) and destination of each choice. *)
Definition spec_options (cs : list PlayerChoice) : list OptionInfo :=
  imap (fun i c => mkOptionInfo (Z.of_nat i) (default c.(choice_id) c.(choice_lineId))
                     (default true c.(choice_enabled)) c.(choice_nextNodeId)) cs.

(** The machine's steps, each with the event it emits. *)
Inductive spec_step : SpecState -> RuntimeEvent -> SpecState -> Prop :=
| step_enter t vis key n :
    t.(nodes) !! key = Some n -> node_id n ∉ vis ->
    spec_step (mkSpecState t vis (SEntering (Some key))) (NodeStartEvent (node_id n))
              (mkSpecState t ({[node_id n]} ∪ vis) (SBody key))
| step_unresolved t vis pos :
    resolves t pos = false ->
    spec_step (mkSpecState t vis (SEntering pos)) DialogueCompleteEvent (mkSpecState t vis SFinished)
| step_npc_lines t vis key n :
    t.(nodes) !! key = Some (NpcNodeOf n) ->
    spec_step (mkSpecState t vis (SBody key)) (PrepareForLinesEvent [spec_line n])
              (mkSpecState t vis (SLine (spec_line n) (default [] n.(npc_substitutions))
                                        n.(npc_id) n.(npc_nextNodeId)))
| step_text t vis l subs name next :
    spec_step (mkSpecState t vis (SLine l subs name next)) (LineEvent l subs)
              (mkSpecState t vis (SExiting name next))
| step_exit t vis name next :
    spec_step (mkSpecState t vis (SExiting name next)) (NodeCompleteEvent name)
              (mkSpecState t vis (entry t vis next))
| step_choice_lines t vis key p :
    t.(nodes) !! key = Some (PlayerNodeOf p) ->
    spec_step (mkSpecState t vis (SBody key))
              (PrepareForLinesEvent (map option_lineId (spec_options p.(player_choices))))
              (mkSpecState t vis (SOffering p.(player_id) p.(player_choices) (spec_options p.(player_choices))))
| step_offer t vis name cs opts :
    spec_step (mkSpecState t vis (SOffering name cs opts)) (OptionsEvent opts)
              (mkSpecState t vis (SAwaiting name cs))
| step_other t vis key id ty :
    t.(nodes) !! key = Some (OtherNode id ty) ->
    spec_step (mkSpecState t vis (SBody key)) DialogueCompleteEvent (mkSpecState t vis SFinished).

(** [selectOption(i)] on a valid index: the choice node exits towards the
    choice's destination. *)
Inductive spec_select : SpecState -> Z -> SpecState -> Prop :=
| select_valid t vis name cs i c :
    (0 <= i)%Z -> cs !! Z.to_nat i = Some c ->
    spec_select (mkSpecState t vis (SAwaiting name cs)) i
                (mkSpecState t vis (SExiting name c.(choice_nextNodeId))).

(** [load(program)] and [reset()]: back to the start node, nothing visited. *)
Definition spec_start (t : DialogueTree) : SpecState :=
  mkSpecState t ∅ (SEntering (Some t.(startNodeId))).

Inductive SpecLabel : Type :=
| LEvent (e : RuntimeEvent)
| LSelect (i : Z)
| LReset
| LLoad (t : DialogueTree).

Inductive spec_lstep : SpecState -> SpecLabel -> SpecState -> Prop :=
| lstep_event s e s' : spec_step s e s' -> spec_lstep s (LEvent e) s'
| lstep_select s i s' : spec_select s i s' -> spec_lstep s (LSelect i) s'
| lstep_reset s : spec_lstep s LReset (spec_start s.(graph))
| lstep_load s t : spec_lstep s (LLoad t) (spec_start t).

(** Runs of the machine: the labels of a sequence of steps. *)
Inductive spec_exec : SpecState -> list SpecLabel -> SpecState -> Prop :=
| exec_nil s : spec_exec s [] s
| exec_cons s l s1 ls s2 : spec_lstep s l s1 -> spec_exec s1 ls s2 -> spec_exec s (l :: ls) s2.

#[export] Hint Constructors spec_step spec_select spec_lstep spec_exec : dialogue.

End GraphWalkerSpec.

Module TreeRuntimeRefinement.
Import DialogueTreeRuntime DialogueTreeRuntimeFacts GraphWalkerSpec.

(** ** Facts about [continue()] shared with the tests *)

Lemma continue_tree rt : (continue rt).1.(tree) = rt.(tree).
Proof.
  unfold continue, populateEventsForCurrentNode, populate_node, after_shift.
  repeat case_match; simplify_eq; done.
Qed.

(** [continue()] returns [null] only on a complete or waiting runtime, which
    it leaves unchanged: otherwise the queue, refilled if empty, is never
    empty. *)
Lemma continue_None rt rt' :
  continue rt = (rt', None) -> rt' = rt /\ (rt.(isComplete) = true \/ rt.(waitingForOption) = true).
Proof.
  unfold continue. destruct (isComplete rt) eqn:Ec, (waitingForOption rt) eqn:Ew; cbn;
    try (intros [= ->]; auto; fail).
  unfold populateEventsForCurrentNode, populate_node. rewrite Ec.
  destruct (pendingEvents rt) as [|e pe] eqn:Ep; [|cbn; rewrite Ep; intros [=]].
  repeat case_match; cbn in *; rewrite ?Ep in *; cbn in *; try intros [=]; congruence.
Qed.


(** The ids [node.choices.map((choice, idx) => ({ id: idx, ... }))] gives. *)
Lemma imap_option_ids (f : nat -> PlayerChoice -> OptionInfo) n cs :
  (forall i c, option_id (f i c) = Z.of_nat (n + i)) ->
  map option_id (imap f cs) = map Z.of_nat (seq n (length cs)).
Proof.
  revert n f. induction cs as [|c cs IH]; intros n f Hf; [done|]. cbn.
  rewrite Hf, Nat.add_0_r. f_equal. apply IH. intros i c'. cbn. rewrite Hf. f_equal. lia.
Qed.

Lemma js_index_is_Some {A} (l : list A) i :
  is_Some (js_index l i) <-> (0 <= i < Z.of_nat (length l))%Z.
Proof.
  rewrite <- not_eq_None_Some, js_index_None. lia.
Qed.


(** ** The indices of an option set *)

(** C12: Option indices: once a started PLAYER node is reached, [continue()]
    returns the preparation of the option lines and then the options, whose
    ids are [0, 1, ..., n-1] for [n] choices; in the state it leaves,
    [setSelectedOption(i)] succeeds exactly for [0 <= i < n]. *)
Theorem option_ids_in_range rt id p :
  rt.(isComplete) = false -> rt.(waitingForOption) = false -> rt.(pendingEvents) = [] ->
  rt.(currentNodeId) = Some id -> id <> ""%string ->
  rt.(tree).(nodes) !! id = Some (PlayerNodeOf p) -> p.(player_id) ∈ rt.(startedNodes) ->
  exists rt1 rt2 opts,
    continue rt = (rt1, Some (PrepareForLinesEvent (map option_lineId opts))) /\
    continue rt1 = (rt2, Some (OptionsEvent opts)) /\
    map option_id opts = map Z.of_nat (seq 0 (length p.(player_choices))) /\
    forall i, (exists rt3, setSelectedOption i rt2 = Ok rt3) <->
              (0 <= i < Z.of_nat (length p.(player_choices)))%Z.
Proof.
  intros Hc Hw Hp Hcur Hid Hnode Hs.
  destruct rt as [t cur c w pe pn sn vars oc]; cbn in *; subst.
  rt_simp. do 3 eexists. split; [reflexivity|]. rt_simp. split; [reflexivity|]. split.
  - apply imap_option_ids. intros i ch. cbn. done.
  - intros i. rewrite <- js_index_is_Some. unfold setSelectedOption; cbn.
    destruct (js_index (player_choices p) i); split; intros [? ?]; by eauto.
Qed.

Lemma option_ids_in_range_witness :
  let rt := (continue (new shop_tree)).1 in
  exists rt1 rt2 opts,
    continue rt = (rt1, Some (PrepareForLinesEvent (map option_lineId opts))) /\
    continue rt1 = (rt2, Some (OptionsEvent opts)) /\
    map option_id opts = map Z.of_nat (seq 0 (length [buyChoice; chatChoice; closedChoice])) /\
    forall i, (exists rt3, setSelectedOption i rt2 = Ok rt3) <->
              (0 <= i < Z.of_nat (length [buyChoice; chatChoice; closedChoice]))%Z.
Proof.
  apply (option_ids_in_range _ "player" shop_player);
    [vm_compute; reflexivity..|discriminate|vm_compute; reflexivity
    |apply (bool_decide_unpack _); vm_compute; reflexivity].
Defined.

(** ** The abstraction *)

(** The spec state a runtime is in. *)
Definition abs_phase (rt : TreeRuntime) : SpecPhase :=
  if rt.(isComplete) then SFinished else
  if rt.(waitingForOption) then
    match rt.(optionCache) with
    | Some c => SAwaiting c.(cache_nodeId) c.(cache_choices)
    | None => SFinished
    end
  else
  match rt.(pendingEvents) with
  | [] => entry rt.(tree) rt.(startedNodes) rt.(currentNodeId)
  | [LineEvent l subs; NodeCompleteEvent name] => SLine l subs name rt.(pendingNextNodeId)
  | [NodeCompleteEvent name] => SExiting name rt.(pendingNextNodeId)
  | [OptionsEvent opts] =>
      match rt.(optionCache) with
      | Some c => SOffering c.(cache_nodeId) c.(cache_choices) opts
      | None => SFinished
      end
  | _ => SFinished
  end.

Definition abs (rt : TreeRuntime) : SpecState :=
  mkSpecState rt.(tree) rt.(startedNodes) (abs_phase rt).

(** The programs the spec speaks of: no node keyed by the empty string, no
    empty [lineId]. *)
Definition line_ok (l : option string) : bool :=
  match l with Some x => negb (String.eqb x "") | None => true end.

Definition node_ok (n : DialogueNode) : bool :=
  match n with
  | NpcNodeOf n => line_ok n.(npc_lineId)
  | PlayerNodeOf p => forallb (fun c => line_ok c.(choice_lineId)) p.(player_choices)
  | OtherNode _ _ => true
  end.

Definition graph_ok (t : DialogueTree) : Prop :=
  t.(nodes) !! ""%string = None /\ map_Forall (fun _ n => node_ok n = true) t.(nodes).

#[export] Instance graph_ok_dec t : Decision (graph_ok t).
Proof. unfold graph_ok. apply _. Defined.

Lemma js_or_str_line_ok l d : line_ok l = true -> js_or_str l d = default d l.
Proof. destruct l as [x|]; cbn; [|done]. by destruct (String.eqb x "") eqn:E. Qed.

Lemma options_spec cs :
  forallb (fun c => line_ok c.(choice_lineId)) cs = true ->
  imap option_of_choice cs = spec_options cs.
Proof.
  intros Hcs. apply imap_ext. intros i c Hi. unfold option_of_choice.
  rewrite js_or_str_line_ok; [done|].
  apply forallb_forall with (x := c) in Hcs; [done|]. apply list_elem_of_In. by eapply list_elem_of_lookup_2.
Qed.

Lemma entry_empty t pos : entry t ∅ pos = SEntering pos.
Proof.
  unfold entry. destruct pos as [k|]; [|done]. destruct (_ !! k); [|done].
  by rewrite bool_decide_eq_false_2 by set_solver.
Qed.

Lemma resolves_None t pos :
  match pos with Some k => t.(nodes) !! k = None | None => True end -> resolves t pos = false.
Proof. destruct pos; cbn; [|done]. intros ->. by rewrite bool_decide_eq_false_2 by (intros [? ?]; done). Qed.

(** One call of [continue()] that returns an event is one step of the spec
    machine emitting that event. *)
Lemma continue_refines rt rt' e :
  wf rt -> graph_ok rt.(tree) -> continue rt = (rt', Some e) -> spec_step (abs rt) e (abs rt').
Proof.
  destruct rt as [t cur c w pe pn sn vars oc]. unfold wf, pending_ok, continue, abs, abs_phase; cbn.
  destruct c, w; cbn; try (intros _ _ [=]; fail).
  intros [Hp _] [Hempty Hnodes]. destruct pe as [|e0 pe].
  - unfold populateEventsForCurrentNode; cbn.
    destruct cur as [id|]; [|intros [= <- <-]; cbn; by apply step_unresolved].
    destruct (String.eqb id "") eqn:Eid.
    { apply String.eqb_eq in Eid as ->. intros [= <- <-]. cbn. unfold entry. rewrite Hempty.
      by apply step_unresolved, resolves_None. }
    destruct (nodes t !! id) as [node|] eqn:En;
      [|intros [= <- <-]; cbn; unfold entry; rewrite En; by apply step_unresolved, resolves_None].
    pose proof (map_Forall_lookup_1 _ _ _ _ Hnodes En) as Hok.
    unfold populate_node. unfold entry at 1. rewrite En.
    case_bool_decide as Hs.
    + destruct node as [n|p|x y]; cbn; intros [= <- <-]; cbn;
        rewrite bool_decide_eq_true_2 by exact Hs.
      * cbn in Hok. rewrite js_or_str_line_ok by done. by apply step_npc_lines.
      * cbn in Hok. rewrite options_spec by done. by apply step_choice_lines.
      * by apply step_other with x y.
    + cbn. intros [= <- <-]. cbn. rewrite En, (bool_decide_eq_false_2 (node_id node ∈ sn)) by done.
      rewrite bool_decide_eq_true_2 by set_solver.
      by apply step_enter.
  - repeat (destruct e0; try done; destruct pe as [|e0 pe]; try done);
      intros [= <- <-]; cbn; try constructor.
    destruct oc; [constructor|done].
Qed.

(** [setSelectedOption(i)] that returns is the spec's [selectOption(i)]. *)
Lemma select_refines rt rt' i : wf rt -> setSelectedOption i rt = Ok rt' -> spec_select (abs rt) i (abs rt').
Proof.
  destruct rt as [t cur c w pe pn sn vars oc]. unfold setSelectedOption; cbn.
  intros (_ & Hw & _) Hsel. destruct oc as [cache|]; [|done]. destruct w; [|done]. cbn in Hsel.
  destruct (js_index _ i) as [ch|] eqn:Ei; [|done]. injection Hsel as <-.
  cbn in Hw. destruct (Hw eq_refl) as (-> & _ & ->). apply js_index_Some in Ei as [Hi Hl].
  unfold abs, abs_phase; cbn. by constructor.
Qed.

Lemma abs_awaiting rt name cs :
  abs_phase rt = SAwaiting name cs ->
  rt.(isComplete) = false /\ rt.(waitingForOption) = true /\ rt.(optionCache) = Some (mkOptionsCache cs name).
Proof.
  unfold abs_phase, entry. destruct (isComplete rt); [done|].
  destruct (waitingForOption rt); [destruct (optionCache rt) as [[]|]; by intros [= -> ->]|].
  repeat case_match; done.
Qed.

(** [setSelectedOption(i)] throws exactly when the spec has no
    [selectOption(i)] step. *)
Lemma select_error_spec rt i :
  wf rt -> (exists err, setSelectedOption i rt = Err err) <-> ~ exists s', spec_select (abs rt) i s'.
Proof.
  intros Hwf. split.
  - intros [err Herr] [s' Hs]. unfold abs in Hs.
    remember (abs_phase rt) as ph eqn:Eph. inversion Hs; subst.
    match goal with H : _ = abs_phase rt |- _ => symmetry in H; apply abs_awaiting in H as (_ & Hw & Hoc) end.
    unfold setSelectedOption in Herr. rewrite Hoc, Hw in Herr. cbn in Herr.
    match goal with Hi : (0 <= i)%Z, Hl : _ !! Z.to_nat i = Some _ |- _ =>
      rewrite (proj2 (js_index_Some _ _ _) (conj Hi Hl)) in Herr end.
    done.
  - intros Hno. destruct (setSelectedOption i rt) as [rt'|err] eqn:E; [|by eauto].
    exfalso. apply Hno. eexists. by eapply select_refines.
Qed.

Lemma spec_exec_app s l1 s1 l2 s2 :
  spec_exec s l1 s1 -> spec_exec s1 l2 s2 -> spec_exec s (l1 ++ l2) s2.
Proof. induction 1; cbn; eauto with dialogue. Qed.

(** The spec labels of one operation: the event returned, a successful
    selection, a reset or a load. *)
Definition op_labels (op : TreeOp) (rt : TreeRuntime) : list SpecLabel :=
  match op with
  | OpContinue => match (continue rt).2 with Some e => [LEvent e] | None => [] end
  | OpSelect i => match setSelectedOption i rt with Ok _ => [LSelect i] | Err _ => [] end
  | OpReset => [LReset]
  | OpLoadProgram t => [LLoad t]
  | OpSetNode _ | OpSetVariable _ _ => []
  end.

Fixpoint run_labels (ops : list TreeOp) (rt : TreeRuntime) : list SpecLabel :=
  match ops with
  | [] => []
  | op :: ops' => op_labels op rt ++ run_labels ops' (apply_op op rt).1
  end.

(** The operations the spec describes, on programs it speaks of. *)
Definition op_ok (op : TreeOp) : bool :=
  match op with
  | OpSetNode _ => false
  | OpLoadProgram t => bool_decide (graph_ok t)
  | _ => true
  end.

Lemma apply_op_graph op rt :
  graph_ok rt.(tree) -> op_ok op = true -> graph_ok (apply_op op rt).1.(tree).
Proof.
  intros Hg Hop. destruct op; cbn in *; try done.
  - pose proof (continue_tree rt) as Ht. destruct (continue rt). cbn in *. by rewrite Ht.
  - by destruct (setSelectedOption _ _) eqn:E; [revert E; unfold setSelectedOption; repeat case_match; intros; simplify_eq|].
  - by apply bool_decide_eq_true in Hop.
Qed.

(** C23: Refinement of the spec's graph-walker machine (spec 4.1): from a
    well-formed runtime over a program the spec speaks of, every sequence of
    [continue()], [setSelectedOption], [reset], [loadProgram] and
    [setVariable] calls (on such programs) is a run of the spec machine
    whose labels are the events returned, the successful selections, the
    resets and the loads, from [abs] of the first state to [abs] of the
    last; and in the last state [setSelectedOption(i)] throws exactly when
    the spec has no [selectOption(i)] step. *)
Theorem tree_refines_spec ops rt :
  wf rt -> graph_ok rt.(tree) -> forallb op_ok ops = true ->
  spec_exec (abs rt) (run_labels ops rt) (abs (run_ops ops rt).1) /\
  forall i, (exists err, setSelectedOption i (run_ops ops rt).1 = Err err) <->
            ~ exists s', spec_select (abs (run_ops ops rt).1) i s'.
Proof.
  intros Hwf Hg Hops. split; [|intros i; by apply select_error_spec, run_ops_wf].
  revert rt Hwf Hg. induction ops as [|op ops IH]; intros rt Hwf Hg; cbn [run_ops run_labels]; [constructor|].
  cbn [forallb] in Hops. apply andb_true_iff in Hops as [Hop Hops].
  pose proof (wf_apply_op op rt Hwf) as Hwf1. pose proof (apply_op_graph op rt Hg Hop) as Hg1.
  assert (spec_exec (abs rt) (op_labels op rt) (abs (apply_op op rt).1)) as Hstep.
  { destruct op as [|?|?|? ?| |t]; cbn in Hop |- *; try done.
    - destruct (continue rt) as [rt1 [e|]] eqn:E; cbn.
      + eapply exec_cons; [constructor; by apply continue_refines|constructor].
      + apply continue_None in E as [-> _]. constructor.
    - destruct (setSelectedOption _ _) eqn:E; [|constructor].
      eapply exec_cons; [constructor; by eapply select_refines|constructor].
    - constructor.
    - eapply exec_cons; [|constructor].
      replace (abs (reset rt)) with (spec_start rt.(tree)); [constructor|].
      unfold abs, abs_phase, spec_start. cbn -[entry]. by rewrite entry_empty.
    - eapply exec_cons; [|constructor].
      replace (abs (loadProgram t rt)) with (spec_start t); [constructor|].
      unfold abs, abs_phase, spec_start. cbn -[entry]. by rewrite entry_empty. }
  destruct (apply_op op rt) as [rt1 e1] eqn:Eop. cbn in *.
  destruct (run_ops ops rt1) as [rt2 es] eqn:Er. cbn.
  eapply spec_exec_app; [exact Hstep|]. specialize (IH Hops rt1 Hwf1 Hg1). by rewrite Er in IH.
Qed.

(** ** Witness: the shop, a reset and a load *)

Definition walk_ops : list TreeOp :=
  [OpContinue; OpContinue; OpContinue; OpSelect 5; OpSelect 1; OpContinue; OpContinue;
   OpSetVariable "gold" (VBool true); OpReset; OpLoadProgram demo_tree; OpContinue].

Lemma tree_refines_spec_witness :
  spec_exec (abs (new shop_tree)) (run_labels walk_ops (new shop_tree))
            (abs (run_ops walk_ops (new shop_tree)).1) /\
  forall i, (exists err, setSelectedOption i (run_ops walk_ops (new shop_tree)).1 = Err err) <->
            ~ exists s', spec_select (abs (run_ops walk_ops (new shop_tree)).1) i s'.
Proof.
  apply tree_refines_spec;
    [apply wf_new|apply (bool_decide_unpack _); vm_compute; reflexivity|vm_compute; reflexivity].
Defined.
End TreeRuntimeRefinement.
