(* ===== verification/TreeRuntimeTests.v ===== *)
(** * The runtime's own tests, and how long their driver loop runs

    Models the driver of the first three test cases of
    [src/src/dialogue-tree-runtime.test.ts]: the helper [collectEvents]
    (lines 12-22), which calls [continue()] until the runtime reports
    completion or returns [null].  [collectEvents] is a [while] loop: it is
    written with fuel, and [None] means the fuel ran out.

    The theorems show that [collectEvents] terminates on every runtime whose
    tree has no cycle of NPC links, with the fuel given by an explicit
    measure, and ends with the runtime complete or waiting for a choice;
    that it does not terminate on a cycle; and, for every runtime and
    program, what the test "program loading" checks on one: a load restarts
    the run at the new program's start node.  The tests "NPC flow" and
    "player choices" are instances of [npc_node_protocol],
    [player_node_protocol] and [select_option_advances]. *)

From S2P Require Import Prelude JsCollections Types DialogueTreeRuntime TreeRuntimeSpec.

Module TreeRuntimeTests.
Import DialogueTreeRuntime DialogueTreeRuntimeFacts TreeRuntimeRefinement.

(** [function collectEvents(runtime)]: [continue()] until the runtime is
    complete or returns [null]; the runtime is mutated, so its final state
    is returned with the events.  [None]: out of fuel. *)
Fixpoint collectEvents (fuel : nat) (rt : TreeRuntime) : option (TreeRuntime * list RuntimeEvent) :=
  match fuel with
  | O => None
  | S fuel' =>
      if isDialogueComplete rt then Some (rt, []) else
      match continue rt with
      | (rt', None) => Some (rt', [])
      | (rt', Some e) => option_map (fun '(rt'', es) => (rt'', e :: es)) (collectEvents fuel' rt')
      end
  end.

(** ** Shared facts about [continue()] *)

Lemma continue_n_fst k rt : (continue_n (S k) rt).1 = (continue_n k (continue rt).1).1.
Proof. cbn. destruct (continue rt) as [rt1 e1]. cbn. by destruct (continue_n k rt1). Qed.

Lemma continue_n_S_fst k rt : (continue (continue_n k rt).1).1 = (continue_n (S k) rt).1.
Proof.
  revert rt. induction k as [|k IH]; intros rt; [by rewrite continue_n_fst|].
  by rewrite (continue_n_fst k rt), IH, (continue_n_fst (S k) rt).
Qed.

(** ** How far [collectEvents] runs *)

Section Acyclic.
(** A height on node keys. *)
Variable h : string -> nat.

(** The tree's NPC links go down in height: no cycle of NPC nodes.  Choice
    links are not constrained, since a choice waits for the host. *)
Definition npc_link_down (id : string) (node : DialogueNode) : Prop :=
  match node with
  | NpcNodeOf n => match n.(npc_nextNodeId) with Some id' => h id' < h id | None => True end
  | _ => True
  end.

#[export] Instance npc_link_down_dec id node : Decision (npc_link_down id node).
Proof. unfold npc_link_down. repeat case_match; apply _. Defined.

Definition npc_acyclic (t : DialogueTree) : Prop := map_Forall npc_link_down t.(nodes).

Definition height (x : option string) : nat :=
  match x with Some id => S (h id) | None => 0 end.

(** An upper bound on the events [continue()] returns before the runtime
    completes or waits: five per level of height, plus what is left of the
    current node's block. *)
Definition measure (rt : TreeRuntime) : nat :=
  if rt.(isComplete) || rt.(waitingForOption) then 0 else
  match rt.(pendingEvents) with
  | [] => 5 * height rt.(currentNodeId) + node_rank rt rt.(currentNodeId)
  | [LineEvent _ _; NodeCompleteEvent _] => 5 * height rt.(pendingNextNodeId) + node_rank rt rt.(pendingNextNodeId) + 2
  | [NodeCompleteEvent _] => 5 * height rt.(pendingNextNodeId) + node_rank rt rt.(pendingNextNodeId) + 1
  | _ => 1
  end.

Lemma height_next t id n :
  npc_acyclic t -> t.(nodes) !! id = Some (NpcNodeOf n) -> height n.(npc_nextNodeId) <= h id.
Proof.
  intros Ha Hn. pose proof (map_Forall_lookup_1 _ _ _ _ Ha Hn) as Hd. cbn in Hd.
  destruct (npc_nextNodeId n); cbn; lia.
Qed.

Lemma continue_measure rt rt' e :
  wf rt -> npc_acyclic rt.(tree) -> continue rt = (rt', Some e) -> measure rt' < measure rt.
Proof.
  destruct rt as [t cur c w pe pn sn vars oc].
  unfold wf, pending_ok, continue; cbn.
  destruct c, w; cbn; try (intros _ _ [=]; fail).
  intros [Hp _] Ha. destruct pe as [|e0 pe].
  - unfold populateEventsForCurrentNode; cbn.
    destruct cur as [id|]; [|intros [= <- <-]; cbn; lia].
    destruct (String.eqb id "") eqn:Eid; [intros [= <- <-]; cbn; lia|].
    destruct (nodes t !! id) as [node|] eqn:En; [|intros [= <- <-]; cbn; lia].
    unfold populate_node, measure; cbn -[node_rank].
    case_bool_decide as Hs; [destruct node as [n|p|x y]|]; cbn -[node_rank]; intros [= <- <-]; cbn -[node_rank];
      try (match goal with |- context [node_rank ?r (npc_nextNodeId ?n)] =>
             pose proof (node_rank_le r (npc_nextNodeId n)); generalize dependent (node_rank r (npc_nextNodeId n)) end);
      unfold node_rank; cbn; rewrite ?Eid, ?En; try rewrite bool_decide_eq_true_2 by set_solver;
      try rewrite bool_decide_eq_false_2 by done; try lia.
    + intros. pose proof (height_next _ _ _ Ha En). lia.
  - repeat (destruct e0; try done; destruct pe as [|e0 pe]; try done);
      intros [= <- <-]; unfold measure, node_rank; cbn; lia.
Qed. 
(** C14: Termination of the test driver: on a well-formed runtime whose tree
    has no cycle of NPC links, [collectEvents] returns within
    [measure rt + 1] iterations, with at most [measure rt] events, and leaves
    the runtime complete or waiting for a choice. *)
Theorem collectEvents_terminates rt fuel :
  wf rt -> npc_acyclic rt.(tree) -> measure rt < fuel ->
  exists rt' es, collectEvents fuel rt = Some (rt', es) /\ length es <= measure rt /\
    (isDialogueComplete rt' = true \/ isWaitingForOption rt' = true).
Proof.
  revert rt. induction fuel as [|fuel IH]; intros rt Hwf Ha Hm; [lia|]. cbn.
  unfold isDialogueComplete at 1. destruct (isComplete rt) eqn:Ec; [exists rt, []; cbn; auto with lia|].
  destruct (continue rt) as [rt1 [e|]] eqn:E.
  - pose proof (continue_measure rt rt1 e Hwf Ha E) as Hlt.
    pose proof (wf_continue rt Hwf) as Hwf1. pose proof (continue_tree rt) as Ht.
    rewrite E in Hwf1, Ht. cbn in Hwf1, Ht. rewrite <- Ht in Ha.
    destruct (IH rt1 Hwf1 Ha ltac:(lia)) as (rt' & es & -> & Hl & Hend).
    exists rt', (e :: es). cbn. auto with lia.
  - apply continue_None in E as [-> [Hc|Hw]]; exists rt, []; cbn; auto with lia.
Qed.

End Acyclic.

(** ** The test "program loading", for every runtime and program *)

(** C21: Loading a program restarts the run, whatever state the runtime is
    in (complete, waiting for a choice, or with events of the old program
    pending): the runtime keeps only its variables, and the next
    [continue()] starts the new program's start node, or ends the dialogue
    when the program has no node under its [startNodeId] (or that id is
    empty).  The test file checks one instance of this. *)
Theorem loadProgram_starts_new_program t rt :
  let rt1 := loadProgram t rt in
  rt1.(tree) = t /\ rt1.(variables) = rt.(variables) /\
  (continue rt1).2 =
    if String.eqb t.(startNodeId) "" then Some DialogueCompleteEvent else
    match t.(nodes) !! t.(startNodeId) with
    | Some node => Some (NodeStartEvent (node_id node))
    | None => Some DialogueCompleteEvent
    end.
Proof.
  cbn. split_and!; [done|done|]. unfold continue, populateEventsForCurrentNode; cbn.
  destruct (String.eqb _ ""); [done|]. destruct (nodes t !! _) as [node|]; [|done].
  unfold populate_node. rewrite bool_decide_eq_false_2; [done|]. cbn. set_solver.
Qed.

(** ** A cycle of NPC nodes never ends *)

Lemma collectEvents_diverges (P : TreeRuntime -> Prop) :
  (forall rt, P rt -> isDialogueComplete rt = false /\ is_Some (continue rt).2 /\ P (continue rt).1) ->
  forall n rt, P rt -> collectEvents n rt = None.
Proof.
  intros HP n. induction n as [|n IH]; intros rt Hrt; [done|]. cbn.
  destruct (HP rt Hrt) as (-> & [e He] & H1).
  destruct (continue rt) as [rt' e'] eqn:E. cbn in *. subst. by rewrite IH.
Qed.

(** On the loop [a -> b -> a], [collectEvents] runs out of any fuel: the
    states after 8 and after 14 calls are equal, and no call in between
    completes the dialogue or returns [null]. *)
Lemma loop_tree_diverges fuel : collectEvents fuel (new loop_tree) = None.
Proof.
  apply (collectEvents_diverges (fun rt => exists i, i < 14 /\ rt = (continue_n i (new loop_tree)).1));
    [|exists 0; split; [lia|reflexivity]].
  intros rt (i & Hi & ->). rewrite continue_n_S_fst.
  destruct i as [|[|[|[|[|[|[|[|[|[|[|[|[|[|i]]]]]]]]]]]]]]; [..|lia];
    (split_and!; [vm_compute; reflexivity|vm_compute; by eexists|]);
    first [ eexists; split; [|reflexivity]; lia | exists 8; split; [lia|vm_compute; reflexivity] ].
Qed.

(** ** Witnesses *)

Definition demo_h (id : string) : nat :=
  if String.eqb id "npc_1" then 2 else if String.eqb id "npc_2" then 1 else 0.

Lemma collectEvents_terminates_witness :
  exists rt' es, collectEvents 20 (new demo_tree) = Some (rt', es) /\
    length es <= measure demo_h (new demo_tree) /\
    (isDialogueComplete rt' = true \/ isWaitingForOption rt' = true).
Proof.
  apply (collectEvents_terminates demo_h (new demo_tree) 20);
    [apply wf_new|apply (bool_decide_unpack _); vm_compute; reflexivity|vm_compute; lia].
Defined.

End TreeRuntimeTests.
