(* ===== verification/CommandDispatcher.v ===== *)
(** * The command dispatcher

    Models [src/src/command-dispatcher.ts].  A handler receives the argument
    list and a [CommandContext] (get/set a variable, stop, continue) and may
    be asynchronous; we model a handler as a function from its arguments to a
    program [CmdProg] over the context's operations, a small free monad whose
    constructors are the context's methods and the [await] of a timer.  The
    runner interprets that program against its own state ([Runner.v]); the
    [dispatch] of the dispatcher returns whether the command was handled and
    the program the chosen handler runs.  The handler table is a JavaScript
    [Map] keyed by the lower-cased command name. *)

From S2P Require Import Prelude JsCollections Types JsString.
From Stdlib Require Import Ascii QArith Qcanon.
#[local] Set Warnings "-clear-no-such-hyp".

Local Open Scope string_scope.

Module CommandDispatcher.

(** ** Handlers and their effects on the context *)

(** What a handler does with its [CommandContext], in order. *)
Inductive CmdProg : Type :=
| CmdReturn
| CmdGetVariable (name : string) (k : option VariableValue -> CmdProg)
| CmdSetVariable (name : string) (value : VariableValue) (k : CmdProg)
| CmdStop (k : CmdProg)
| CmdContinue (k : CmdProg)
| CmdWaitSeconds (seconds : JsNumber) (k : CmdProg).

(** [type CommandHandler = (args, context) => void | Promise<void>] *)
Definition CommandHandler : Type := list string -> CmdProg.

(** [class CommandDispatcher]: its two private fields. *)
Record CommandDispatcher : Type := mkCommandDispatcher {
  handlers : js_map string CommandHandler;
  defaultHandler : option CommandHandler;
}.

Definition new : CommandDispatcher := mkCommandDispatcher [] None.

(** [on(command, handler)] *)
Definition on (command : string) (handler : CommandHandler) (d : CommandDispatcher) : CommandDispatcher :=
  mkCommandDispatcher (js_map_set (js_toLowerCase command) handler d.(handlers)) d.(defaultHandler).

(** [off(command)] *)
Definition off (command : string) (d : CommandDispatcher) : CommandDispatcher :=
  mkCommandDispatcher (js_map_delete (js_toLowerCase command) d.(handlers)).2 d.(defaultHandler).

(** [setDefault(handler)] *)
Definition setDefault (handler : CommandHandler) (d : CommandDispatcher) : CommandDispatcher :=
  mkCommandDispatcher d.(handlers) (Some handler).

(** ** [tokenize] *)

Definition dquote : ascii := "034"%char.
Definition squote : ascii := "039"%char.

(** The loop's variables [tokens], [current], [inQuotes], [quoteChar];
    the empty [quoteChar] is [None]. *)
Record TokState : Type := mkTokState {
  tok_tokens : list string;
  tok_current : string;
  tok_inQuotes : bool;
  tok_quoteChar : option ascii;
}.

(** One iteration of the [for] loop on character [c]. *)
Definition tokenize_step (c : ascii) (st : TokState) : TokState :=
  if (Ascii.eqb c dquote || Ascii.eqb c squote) && negb st.(tok_inQuotes) then
    mkTokState st.(tok_tokens) st.(tok_current) true (Some c)
  else if bool_decide (st.(tok_quoteChar) = Some c) && st.(tok_inQuotes) then
    mkTokState st.(tok_tokens) st.(tok_current) false None
  else if Ascii.eqb c " "%char && negb st.(tok_inQuotes) then
    if String.eqb st.(tok_current) "" then st
    else mkTokState (st.(tok_tokens) ++ [st.(tok_current)]) "" st.(tok_inQuotes) st.(tok_quoteChar)
  else
    mkTokState st.(tok_tokens) (st.(tok_current) ++ String c "") st.(tok_inQuotes) st.(tok_quoteChar).

Fixpoint tokenize_loop (s : string) (st : TokState) : TokState :=
  match s with
  | EmptyString => st
  | String c s' => tokenize_loop s' (tokenize_step c st)
  end.

(** [private tokenize(text)] *)
Definition tokenize (text : string) : list string :=
  let st := tokenize_loop text (mkTokState [] "" false None) in
  if String.eqb st.(tok_current) "" then st.(tok_tokens) else st.(tok_tokens) ++ [st.(tok_current)].

(** [private parseCommand(text)]: the command word and its arguments. *)
Definition parseCommand (text : string) : option (string * list string) :=
  let trimmed := js_trim text in
  if String.eqb trimmed "" then None else
  match tokenize trimmed with
  | [] => None
  | command :: args => Some (command, args)
  end.

(** [async dispatch(commandText, context)]: whether a handler ran, and what
    it does with the context. *)
Definition dispatch (commandText : string) (d : CommandDispatcher) : bool * CmdProg :=
  match parseCommand commandText with
  | None => (false, CmdReturn)
  | Some (command, args) =>
      match js_map_get (js_toLowerCase command) d.(handlers) with
      | Some handler => (true, handler args)
      | None =>
          match d.(defaultHandler) with
          | Some handler => (true, handler (command :: args))
          | None => (false, CmdReturn)
          end
      end
  end.

(** [hasHandler(command)] and [getRegisteredCommands()] *)
Definition hasHandler (command : string) (d : CommandDispatcher) : bool :=
  js_map_has (js_toLowerCase command) d.(handlers) || bool_decide (is_Some d.(defaultHandler)).

Definition getRegisteredCommands (d : CommandDispatcher) : list string := js_map_keys d.(handlers).

(** ** Built-in commands: [createDefaultDispatcher] *)

(** [function parseValue(valueStr)] *)
Definition parseValue (valueStr : string) : VariableValue :=
  if (js_startsWith valueStr (String dquote "") && js_endsWith valueStr (String dquote "")) ||
     (js_startsWith valueStr (String squote "") && js_endsWith valueStr (String squote ""))
  then VString (js_slice_1_m1 valueStr)
  else if String.eqb valueStr "true" then VBool true
  else if String.eqb valueStr "false" then VBool false
  else match js_parseFloat valueStr with
       | Some num => VNumber num
       | None => VString valueStr
       end.

(** [args[0].replace(/^\$/, '')] *)
Definition strip_dollar (s : string) : string :=
  match s with
  | String "$"%char s' => s'
  | _ => s
  end.

(** [wait]: sleep [parseFloat(args[0] || '1')] seconds unless it is [NaN],
    then [context.continue()]. *)
Definition wait_handler : CommandHandler := fun args =>
  match js_parseFloat (js_or_str (head args) "1") with
  | Some seconds => CmdWaitSeconds seconds (CmdContinue CmdReturn)
  | None => CmdContinue CmdReturn
  end.

(** [stop]: [context.stop()]. *)
Definition stop_handler : CommandHandler := fun _ => CmdStop CmdReturn.

(** [set $name value...]: with at least two arguments, write the variable. *)
Definition set_handler : CommandHandler := fun args =>
  match args with
  | name :: (_ :: _) as rest =>
      CmdSetVariable (strip_dollar name) (parseValue (js_join " " rest)) (CmdContinue CmdReturn)
  | _ => CmdContinue CmdReturn
  end.

Definition createDefaultDispatcher : CommandDispatcher :=
  new |> on "wait" wait_handler |> on "stop" stop_handler |> on "set" set_handler.

End CommandDispatcher.

Module CommandDispatcherFacts.
Import CommandDispatcher.

(** [String.concat ""] of a token list. *)
Definition concat_tokens (ts : list string) : string := String.concat "" ts.

Lemma concat_tokens_snoc ts t : concat_tokens (ts ++ [t]) = concat_tokens ts ++ t.
Proof.
  unfold concat_tokens. induction ts as [|a ts IH]; [done|].
  destruct ts as [|b ts]; [done|].
  change (a ++ "" ++ String.concat "" ((b :: ts) ++ [t]) = (a ++ "" ++ String.concat "" (b :: ts)) ++ t).
  by rewrite IH, !string_app_nil_l, string_app_assoc.
Qed.

(** ** The tokenizer *)

Lemma tokenize_loop_app (a b : string) st :
  tokenize_loop (a ++ b) st = tokenize_loop b (tokenize_loop a st).
Proof. revert st. induction a as [|c a IH]; intros st; simpl; [done|apply IH]. Qed.

(** The characters a token may contain when written without quotes. *)
Fixpoint plain_chars (s : string) : bool :=
  match s with
  | EmptyString => true
  | String c s' =>
      negb (js_is_whitespace c) && negb (Ascii.eqb c dquote) && negb (Ascii.eqb c squote) &&
      plain_chars s'
  end.

Definition plain_word (w : string) : Prop := w <> "" /\ plain_chars w = true.

Lemma tokenize_loop_plain w toks cur :
  plain_chars w = true ->
  tokenize_loop w (mkTokState toks cur false None) = mkTokState toks (cur ++ w) false None.
Proof.
  revert cur. induction w as [|c w IH]; intros cur; simpl.
  - by rewrite string_app_nil_r.
  - rewrite !andb_true_iff, !negb_true_iff. intros [[[Hws Hd] Hs] Hw].
    unfold tokenize_step; cbn. rewrite Hd, Hs; cbn.
    assert (Ascii.eqb c " " = false) as ->.
    { destruct (Ascii.eqb_spec c " "); [subst; discriminate|done]. }
    rewrite andb_false_r; cbn. rewrite IH by done. by rewrite string_app_assoc.
Qed.

Lemma tokenize_step_space toks cur :
  cur <> "" ->
  tokenize_step " " (mkTokState toks cur false None) = mkTokState (toks ++ [cur]) "" false None.
Proof. intros Hc. unfold tokenize_step; cbn. by apply String.eqb_neq in Hc as ->. Qed.

Lemma tokenize_loop_join w ws toks :
  Forall plain_word (w :: ws) ->
  tokenize_loop (js_join " " (w :: ws)) (mkTokState toks "" false None) =
  mkTokState (toks ++ removelast (w :: ws)) (List.last (w :: ws) "") false None.
Proof.
  revert w toks. induction ws as [|w2 ws IH]; intros w toks Hall;
    inversion Hall as [|? ? [Hne Hw] Hrest]; subst.
  - cbn [js_join]. rewrite tokenize_loop_plain by done. by rewrite app_nil_r.
  - change (js_join " " (w :: w2 :: ws)) with (w ++ String " " (js_join " " (w2 :: ws))).
    rewrite tokenize_loop_app, tokenize_loop_plain, string_app_nil_l by done.
    cbn [tokenize_loop]. rewrite tokenize_step_space, IH by done.
    by rewrite <- app_assoc.
Qed.

Lemma removelast_last_app {A} (l : list A) d : l <> [] -> (removelast l ++ [List.last l d])%list = l.
Proof. intros Hl. symmetry. by apply app_removelast_last. Qed.

(** Round trip: joining plain words with single spaces and tokenizing
    gives the words back. *)
Lemma tokenize_join ws : Forall plain_word ws -> tokenize (js_join " " ws) = ws.
Proof.
  destruct ws as [|w ws]; [done|]. intros Hall.
  unfold tokenize. rewrite tokenize_loop_join by done. cbn [tok_current tok_tokens].
  assert (List.last (w :: ws) "" <> "") as Hlast.
  { rewrite (@List.app_removelast_last _ (w :: ws) "") in Hall by done.
    apply Forall_app in Hall as [_ Hl]. by inversion Hl as [|? ? [Hne _]]. }
  apply String.eqb_neq in Hlast. rewrite Hlast.
  by apply removelast_last_app.
Qed.

(** Every token [tokenize] pushes is non-empty: a token is pushed only when
    [current] is. *)
Definition tokens_nonempty (ts : list string) : Prop := Forall (fun t => t <> "") ts.

Lemma tokenize_step_nonempty c st :
  tokens_nonempty st.(tok_tokens) -> tokens_nonempty (tokenize_step c st).(tok_tokens).
Proof.
  unfold tokenize_step, tokens_nonempty. intros H.
  repeat case_match; cbn; try done.
  apply Forall_app; split; [done|]. constructor; [|done]. by apply String.eqb_neq.
Qed.

Lemma tokenize_loop_nonempty s st :
  tokens_nonempty st.(tok_tokens) -> tokens_nonempty (tokenize_loop s st).(tok_tokens).
Proof.
  revert st. induction s as [|c s IH]; intros st H; [done|].
  apply IH, tokenize_step_nonempty, H.
Qed.

(** C27: Invariant of the tokenizer: no token is the empty string, whatever the
    input (an empty pair of quotes yields no token). *)
Theorem tokenize_tokens_nonempty text : tokens_nonempty (tokenize text).
Proof.
  unfold tokenize. pose proof (tokenize_loop_nonempty text (mkTokState [] "" false None) (List.Forall_nil _)) as H.
  case_match; [done|]. apply Forall_app; split; [done|]. constructor; [|done]. by apply String.eqb_neq.
Qed.

(** ** [parseCommand] on plain words *)

Lemma plain_word_cons c w :
  plain_word (String c w) -> js_is_whitespace c = false /\ (w = "" \/ plain_word w).
Proof.
  intros [_ Hw]. cbn in Hw. rewrite !andb_true_iff, !negb_true_iff in Hw.
  destruct Hw as [[[Hc _] _] Hw]. split; [done|].
  destruct w; [by left|]. right. by split.
Qed.

Lemma trim_end_plain w : plain_word w -> trim_end w = w.
Proof.
  induction w as [|c w IH]; intros Hp; [by destruct Hp|].
  apply plain_word_cons in Hp as [Hc [->|Hw]]; [by apply trim_end_single|].
  rewrite trim_end_cons, IH; [done..|]. rewrite IH by done. apply Hw.
Qed.

Lemma js_join_plain_ne w ws : plain_word w -> js_join " " (w :: ws) <> "".
Proof. intros [Hw _]. destruct w as [|c w]; [done|]. by destruct (js_join_head " " c w ws) as [r ->]. Qed.

Lemma trim_end_join w ws : Forall plain_word (w :: ws) -> trim_end (js_join " " (w :: ws)) = js_join " " (w :: ws).
Proof.
  revert w. induction ws as [|w2 ws IH]; intros w Hall; inversion Hall as [|? ? Hw Hrest]; subst.
  - by apply trim_end_plain.
  - rewrite js_join_cons_cons.
    assert (" " ++ js_join " " (w2 :: ws) = String " " (js_join " " (w2 :: ws))) as -> by reflexivity.
    assert (js_join " " (w2 :: ws) <> "") by (apply js_join_plain_ne; by inversion Hrest).
    assert (trim_end (String " " (js_join " " (w2 :: ws))) = String " " (js_join " " (w2 :: ws))) as HJ
      by (rewrite trim_end_cons; rewrite (IH w2 Hrest); done).
    rewrite trim_end_app, HJ; [done|]. by rewrite HJ.
Qed.

Lemma js_trim_join w ws : Forall plain_word (w :: ws) -> js_trim (js_join " " (w :: ws)) = js_join " " (w :: ws).
Proof.
  intros Hall. unfold js_trim. inversion Hall as [|? ? Hw _]; subst.
  destruct w as [|c w]; [by destruct Hw|].
  apply plain_word_cons in Hw as [Hc _].
  destruct (js_join_head " " c w ws) as [r Hr].
  rewrite Hr, trim_start_cons, <- Hr by done. by apply trim_end_join.
Qed.

(** A command line written as plain words separated by single spaces
    parses to its first word and the remaining words. *)
Lemma parseCommand_join command args :
  Forall plain_word (command :: args) ->
  parseCommand (js_join " " (command :: args)) = Some (command, args).
Proof.
  intros Hall. unfold parseCommand. rewrite js_trim_join, tokenize_join by done.
  assert ((js_join " " (command :: args) =? "") = false) as -> by (apply String.eqb_neq, js_join_plain_ne; by inversion Hall).
  done.
Qed.

(** ** [dispatch] *)

(** C24: Handlers are looked up case-insensitively: once [on c h] is registered,
    a command whose name lower-cases as [c] does runs [h] on its arguments. *)
Theorem dispatch_on text command args c h d :
  parseCommand text = Some (command, args) ->
  js_toLowerCase command = js_toLowerCase c ->
  dispatch text (on c h d) = (true, h args).
Proof. intros Hp Hc. unfold dispatch. rewrite Hp; cbn. by rewrite Hc, js_map_get_set_eq. Qed.

(** C25: After [off c], a command named [c] (in any case) falls through to the
    default handler, which receives the command word first, or is reported
    unhandled when there is none. *)
Theorem dispatch_off text command args c d :
  parseCommand text = Some (command, args) ->
  js_toLowerCase command = js_toLowerCase c ->
  dispatch text (off c d) =
    match d.(defaultHandler) with
    | Some h => (true, h (command :: args))
    | None => (false, CmdReturn)
    end.
Proof. intros Hp Hc. unfold dispatch, off. rewrite Hp; cbn [handlers defaultHandler]. rewrite Hc, js_map_get_delete. by case_decide. Qed.

(** C26: [hasHandler] agrees with [dispatch]: a parsed command is reported
    handled exactly when [hasHandler] holds of its name. *)
Theorem hasHandler_dispatch text command args d :
  parseCommand text = Some (command, args) ->
  (dispatch text d).1 = hasHandler command d.
Proof.
  intros Hp. unfold dispatch, hasHandler, js_map_has. rewrite Hp.
  destruct (js_map_get _ _); [done|]. cbn. by destruct (defaultHandler d).
Qed.

(** ** The built-in [set] command *)

Lemma createDefaultDispatcher_set :
  js_map_get "set" createDefaultDispatcher.(handlers) = Some set_handler.
Proof. reflexivity. Qed.

(** End to end, [set $name value...] in the default dispatcher writes the
    variable named without its [$] to the parsed value of the remaining words
    joined by spaces, then continues; the verb is case-insensitive. *)
Lemma dispatch_set verb name v vs :
  Forall plain_word (verb :: name :: v :: vs) ->
  js_toLowerCase verb = "set" ->
  dispatch (js_join " " (verb :: name :: v :: vs)) createDefaultDispatcher =
    (true, CmdSetVariable (strip_dollar name) (parseValue (js_join " " (v :: vs))) (CmdContinue CmdReturn)).
Proof.
  intros Hall Hv. unfold dispatch. rewrite parseCommand_join by done.
  rewrite Hv, createDefaultDispatcher_set. done.
Qed.

(** The default dispatcher runs [context.stop()] for the command [stop]. *)
Lemma dispatch_default_stop : dispatch "stop" createDefaultDispatcher = (true, CmdStop CmdReturn).
Proof. vm_compute. reflexivity. Qed.

(** ** What the dispatcher does with quotes, tabs and numeric prefixes *)

(** Inside quotes every character but the closing quote is kept. *)
Lemma tokenize_loop_quoted q c toks cur :
  has_char q c = false ->
  tokenize_loop c (mkTokState toks cur true (Some q)) = mkTokState toks (cur ++ c) true (Some q).
Proof.
  revert cur. induction c as [|x c IH]; intros cur Hq; cbn [tokenize_loop has_char] in *.
  - by rewrite string_app_nil_r.
  - apply orb_false_iff in Hq as [Hqx Hq]. unfold tokenize_step; cbn [tok_inQuotes tok_quoteChar negb].
    rewrite !andb_false_r, andb_true_r, bool_decide_eq_false_2
      by (intros [= ->]; by rewrite Ascii.eqb_refl in Hqx).
    cbn [tok_tokens tok_current]. rewrite IH by done. by rewrite string_app_assoc.
Qed.

Lemma trim_end_quoted q c :
  js_is_whitespace q = false -> trim_end (String q (c ++ String q "")) = String q (c ++ String q "").
Proof.
  intros Hq. assert (trim_end (String q "") = String q "") as H1 by (by apply trim_end_single).
  assert (trim_end (c ++ String q "") = c ++ String q "") as H2 by (rewrite trim_end_app; rewrite H1; done).
  rewrite trim_end_cons, H2; [done|]. rewrite H2. by destruct c.
Qed.

(** A command line of plain words followed by one quoted value parses to
    the words and the value without its quotes. *)
Lemma parseCommand_quoted w ws q c :
  Forall plain_word (w :: ws) -> (q = dquote \/ q = squote) -> c <> "" -> has_char q c = false ->
  parseCommand (js_join " " (w :: ws) ++ String " " (String q (c ++ String q ""))) = Some (w, (ws ++ [c])%list).
Proof.
  intros Hall Hq Hc Hqc.
  assert (js_is_whitespace q = false /\ (Ascii.eqb q dquote || Ascii.eqb q squote) = true)
    as [Hws Hisq] by (destruct Hq as [-> | ->]; split; reflexivity).
  set (quoted := String q (c ++ String q "")).
  inversion Hall as [|? ? Hw Hrest]; subst.
  destruct w as [|x w]; [by destruct Hw|]. pose proof Hw as Hpx. apply plain_word_cons in Hpx as [Hx _].
  destruct (js_join_head " " x w ws) as [r Hr].
  unfold parseCommand.
  assert (js_trim (js_join " " (String x w :: ws) ++ String " " quoted) =
          js_join " " (String x w :: ws) ++ String " " quoted) as ->.
  { unfold js_trim. rewrite Hr, string_app_cons, trim_start_cons, <- string_app_cons, <- Hr by done.
    assert (trim_end quoted = quoted) as Hqt by (by apply trim_end_quoted).
    rewrite trim_end_app; rewrite trim_end_cons, Hqt; try done; by rewrite Hqt. }
  rewrite Hr, string_app_cons. cbn [String.eqb]. rewrite <- string_app_cons, <- Hr.
  unfold tokenize. rewrite tokenize_loop_app, tokenize_loop_join by done. cbn [tokenize_loop].
  assert (List.last (String x w :: ws) "" <> "") as Hlast.
  { rewrite (@List.app_removelast_last _ (String x w :: ws) "") in Hall by done.
    apply Forall_app in Hall as [_ Hl]. by inversion Hl as [|? ? [Hne _]]. }
  rewrite tokenize_step_space by done.
  assert (forall toks, tokenize_step q (mkTokState toks "" false None) = mkTokState toks "" true (Some q))
    as Hopen by (intros toks; unfold tokenize_step; cbn; by rewrite Hisq).
  assert (forall toks cur, tokenize_step q (mkTokState toks cur true (Some q)) = mkTokState toks cur false None)
    as Hclose by (intros toks cur; unfold tokenize_step; cbn; rewrite andb_false_r, bool_decide_eq_true_2; done).
  unfold quoted. cbn [tokenize_loop]. rewrite Hopen, tokenize_loop_app, tokenize_loop_quoted by done.
  cbn [tokenize_loop]. rewrite Hclose. cbn [tok_current tok_tokens]. rewrite string_app_nil_l.
  apply String.eqb_neq in Hc as ->. by rewrite app_nil_l, removelast_last_app.
Qed.

(** C32: The tokenizer strips the quotes around a value before [parseValue]
    sees it: for every verb spelling [set] and plain variable name, and
    every non-empty value [c] enclosed in double or single quotes that does
    not contain that quote (spaces and the other quote allowed), the
    default dispatcher sets the variable to [parseValue c], exactly as for
    the bare word.  So [set $gold "150"] stores the number 150, and the
    quoted-string branch of [parseValue] is reached only when [c] is itself
    quoted with the other quote character. *)
Theorem set_quoted_value_unquoted verb name q c :
  Forall plain_word [verb; name] -> js_toLowerCase verb = "set" ->
  (q = dquote \/ q = squote) -> c <> "" -> has_char q c = false ->
  dispatch (js_join " " [verb; name] ++ String " " (String q (c ++ String q ""))) createDefaultDispatcher =
    (true, CmdSetVariable (strip_dollar name) (parseValue c) (CmdContinue CmdReturn)).
Proof.
  intros Hall Hv Hq Hc Hqc. unfold dispatch. rewrite parseCommand_quoted by done.
  cbn [app]. by rewrite Hv, createDefaultDispatcher_set.
Qed.

(** Only the space character separates arguments: a tab inside a command
    line stays inside the token, so [wait<TAB>2] names an unknown command. *)
Example tab_not_separator :
  let text := "wait" ++ String "009" "2" in
  parseCommand text = Some (text, []) /\ dispatch text createDefaultDispatcher = (false, CmdReturn).
Proof. vm_compute. split; reflexivity. Qed.

(** [parseValue] reads the longest numeric prefix, so a bare word that
    starts with digits becomes a number: [set $rank 3rd] stores 3. *)
Example parseValue_numeric_prefix : parseValue "3rd" = VNumber (JsFinite (Q2Qc 3)).
Proof. vm_compute. reflexivity. Qed.

(** ** Witnesses *)

Lemma set_quoted_value_unquoted_witness :
  dispatch (js_join " " ["set"; "$gold"] ++ String " " (String dquote ("150" ++ String dquote "")))
    createDefaultDispatcher =
    (true, CmdSetVariable "gold" (parseValue "150") (CmdContinue CmdReturn)).
Proof.
  apply (set_quoted_value_unquoted "set" "$gold" dquote "150");
    [repeat constructor; discriminate|reflexivity|by left|discriminate|reflexivity].
Defined.

Ltac plain_words := repeat constructor; try discriminate.

Lemma dispatch_on_witness :
  dispatch "CAMERA shake" (on "camera" stop_handler new) = (true, stop_handler ["shake"]).
Proof. apply (dispatch_on _ "CAMERA" ["shake"]); vm_compute; reflexivity. Defined.

Lemma dispatch_off_witness :
  dispatch "Stop now" (off "STOP" (setDefault wait_handler createDefaultDispatcher)) =
    (true, wait_handler ["Stop"; "now"]).
Proof. apply (dispatch_off _ "Stop" ["now"]); vm_compute; reflexivity. Defined.

Lemma hasHandler_dispatch_witness :
  (dispatch "camera shake" createDefaultDispatcher).1 = hasHandler "camera" createDefaultDispatcher.
Proof. apply (hasHandler_dispatch _ "camera" ["shake"]). vm_compute. reflexivity. Defined.

End CommandDispatcherFacts.
