(* ===== verification/Runner.v ===== *)
(** * The dialogue runner

    Models [src/unnamed/part_000] ([runner.ts]): [class DialogueRunner]
    orchestrates a [DialogueRuntime], a [LineProvider], a
    [CommandDispatcher] and a [VariableStorage].  The runner is written once
    for any runtime, line provider and storage, in a [Section] whose
    [Context] are the three classes; its fields are the record
    [DialogueRunner].

    Every method is a function on the runner.  [async] methods run to
    completion (the host awaits them; nothing runs concurrently, spec §5).
    The [while] loop of [runUntilPause] takes a fuel bound: [OutOfFuel] is
    returned when the loop has not paused within that many iterations; the
    termination theorems give the fuel that suffices.  A method that throws
    returns [Thrown e]; every [throw] of the runner happens before any
    mutation, so the runner is unchanged then.

    Event handlers are observers: a [RunnerEventHandler] is known by its
    identity ([HandlerId]), the [Set]s of handlers are kept in insertion
    order, and [emit] records each call [handler(event)] in [delivered].
    A handler that calls back into the runner, or throws, is not modelled.
    A command handler is the [CmdProg] of [CommandDispatcher.v], run against
    the command context the runner builds in [handleCommand]. *)

From S2P Require Import Prelude JsCollections Types JsString LineProvider VariableStorage CommandDispatcher.
#[local] Set Warnings "-clear-no-such-hyp".

Local Open Scope string_scope.

Module Runner.
Import LineProvider CommandDispatcher.

(** [interface RunnerState] *)
Record RunnerState : Type := mkRunnerState {
  currentNode : option string;
  isRunning : bool;
  isWaitingForOption : bool;
  isComplete : bool;
  lastEvent : option RuntimeEvent;
}.

(** The [state] of a new or reset runner. *)
Definition initial_state : RunnerState := mkRunnerState None false false false None.

(** [type RunnerEventType] *)
Inductive RunnerEventType : Type :=
| R_line | R_options | R_command | R_nodeStart | R_nodeComplete | R_dialogueComplete | R_error.

#[export] Instance RunnerEventType_eq_dec : EqDecision RunnerEventType.
Proof. solve_decision. Defined.

(** An element of [RunnerOptionsEvent.options]. *)
Record RunnerOption : Type := mkRunnerOption {
  ro_id : Z;
  ro_lineId : string;
  ro_text : string;
  ro_enabled : bool;
  ro_destinationNode : option string;
}.

(** [type RunnerEvent]; [RunnerErrorEvent] carries the error's message. *)
Inductive RunnerEvent : Type :=
| RLineEvent (lineId text : string) (substitutions : list string) (metadata : option Metadata)
| ROptionsEvent (options : list RunnerOption)
| RCommandEvent (command : string) (handled : bool)
| RNodeStartEvent (nodeName : string)
| RNodeCompleteEvent (nodeName : string)
| RDialogueCompleteEvent
| RErrorEvent (message : string).

Definition runner_event_type (e : RunnerEvent) : RunnerEventType :=
  match e with
  | RLineEvent _ _ _ _ => R_line
  | ROptionsEvent _ => R_options
  | RCommandEvent _ _ => R_command
  | RNodeStartEvent _ => R_nodeStart
  | RNodeCompleteEvent _ => R_nodeComplete
  | RDialogueCompleteEvent => R_dialogueComplete
  | RErrorEvent _ => R_error
  end.

(** A [RunnerEventHandler], by identity. *)
Definition HandlerId : Type := nat.

(** How a call ends: a [throw], or the loop out of fuel. *)
Inductive RunError : Type :=
| Thrown (e : DialogueError)
| OutOfFuel.

(** [`[Missing: ${lineId}]`] *)
Definition missing_text (lineId : string) : string := "[Missing: " ++ lineId ++ "]".

(** [localizedLine?.text || `[Missing: ${lineId}]`] *)
Definition line_text (ll : option LocalizedLine) (lineId : string) : string :=
  js_or_str (option_map ll_text ll) (missing_text lineId).

(** [event.type === 'options'] *)
Definition is_options (e : RuntimeEvent) : bool :=
  match e with OptionsEvent _ => true | _ => false end.

(** The seven event types [onAny] subscribes to, in its order. *)
Definition all_event_types : list RunnerEventType :=
  [R_line; R_options; R_command; R_nodeStart; R_nodeComplete; R_dialogueComplete; R_error].

Section DialogueRunner.
Context {R : Type} `{DialogueRuntime R} {P : Type} `{LineProviderClass P}
        {St : Type} `{VariableStorage St}.

(** The private fields of [class DialogueRunner], and the handler calls made
    so far. *)
Record DialogueRunner : Type := mkDialogueRunner {
  runtime : R;
  lineProvider : P;
  commandDispatcher : CommandDispatcher;
  variableStorage : St;
  eventHandlers : js_map RunnerEventType (list HandlerId);
  state : RunnerState;
  stopped : bool;
  delivered : list (HandlerId * RunnerEvent);
}.

Definition with_runtime (x : R) (r : DialogueRunner) : DialogueRunner :=
  mkDialogueRunner x r.(lineProvider) r.(commandDispatcher) r.(variableStorage) r.(eventHandlers)
    r.(state) r.(stopped) r.(delivered).
Definition with_lineProvider (x : P) (r : DialogueRunner) : DialogueRunner :=
  mkDialogueRunner r.(runtime) x r.(commandDispatcher) r.(variableStorage) r.(eventHandlers)
    r.(state) r.(stopped) r.(delivered).
Definition with_variableStorage (x : St) (r : DialogueRunner) : DialogueRunner :=
  mkDialogueRunner r.(runtime) r.(lineProvider) r.(commandDispatcher) x r.(eventHandlers)
    r.(state) r.(stopped) r.(delivered).
Definition with_eventHandlers x (r : DialogueRunner) : DialogueRunner :=
  mkDialogueRunner r.(runtime) r.(lineProvider) r.(commandDispatcher) r.(variableStorage) x
    r.(state) r.(stopped) r.(delivered).
Definition with_state (x : RunnerState) (r : DialogueRunner) : DialogueRunner :=
  mkDialogueRunner r.(runtime) r.(lineProvider) r.(commandDispatcher) r.(variableStorage)
    r.(eventHandlers) x r.(stopped) r.(delivered).
Definition with_stopped (x : bool) (r : DialogueRunner) : DialogueRunner :=
  mkDialogueRunner r.(runtime) r.(lineProvider) r.(commandDispatcher) r.(variableStorage)
    r.(eventHandlers) r.(state) x r.(delivered).
Definition with_delivered x (r : DialogueRunner) : DialogueRunner :=
  mkDialogueRunner r.(runtime) r.(lineProvider) r.(commandDispatcher) r.(variableStorage)
    r.(eventHandlers) r.(state) r.(stopped) x.

(** Updates of single fields of [this.state]. *)
Definition state_currentNode x (s : RunnerState) :=
  mkRunnerState x s.(isRunning) s.(isWaitingForOption) s.(isComplete) s.(lastEvent).
Definition state_isRunning x (s : RunnerState) :=
  mkRunnerState s.(currentNode) x s.(isWaitingForOption) s.(isComplete) s.(lastEvent).
Definition state_isWaitingForOption x (s : RunnerState) :=
  mkRunnerState s.(currentNode) s.(isRunning) x s.(isComplete) s.(lastEvent).
Definition state_isComplete x (s : RunnerState) :=
  mkRunnerState s.(currentNode) s.(isRunning) s.(isWaitingForOption) x s.(lastEvent).
Definition state_lastEvent x (s : RunnerState) :=
  mkRunnerState s.(currentNode) s.(isRunning) s.(isWaitingForOption) s.(isComplete) x.

Definition update_state (f : RunnerState -> RunnerState) (r : DialogueRunner) : DialogueRunner :=
  with_state (f r.(state)) r.

(** [constructor(options)]: [commandDispatcher || createDefaultDispatcher()];
    the defaults of the other two collaborators are in [new_default]. *)
Definition new (runtime : R) (lineProvider : P) (commandDispatcher : option CommandDispatcher)
    (variableStorage : St) : DialogueRunner :=
  mkDialogueRunner runtime lineProvider (default createDefaultDispatcher commandDispatcher)
    variableStorage [] initial_state false [].

(** ** Variables, [stop], [reset], subscriptions *)

(** [getVariable(name)]: [variableStorage.get(name) ?? runtime.getVariable(name)] *)
Definition getVariable (name : string) (r : DialogueRunner) : option VariableValue :=
  match vs_get name r.(variableStorage) with
  | Some v => Some v
  | None => rt_getVariable name r.(runtime)
  end.

(** [setVariable(name, value)]: the storage first, then the runtime. *)
Definition setVariable (name : string) (value : VariableValue) (r : DialogueRunner) : DialogueRunner :=
  let r := with_variableStorage (vs_set name value r.(variableStorage)) r in
  with_runtime (rt_setVariable name value r.(runtime)) r.

(** [stop()] *)
Definition stop (r : DialogueRunner) : DialogueRunner :=
  r |> with_stopped true |> update_state (state_isRunning false) |> update_state (state_isComplete true).

(** [getState()] *)
Definition getState (r : DialogueRunner) : RunnerState := r.(state).

(** [reset()] *)
Definition reset (r : DialogueRunner) : DialogueRunner :=
  r |> with_stopped false |> with_runtime (rt_reset r.(runtime)) |> with_state initial_state.

(** [on(eventType, handler)]: the set is created on first use. *)
Definition on (eventType : RunnerEventType) (handler : HandlerId) (r : DialogueRunner) : DialogueRunner :=
  let m := r.(eventHandlers) in
  let m := if js_map_has eventType m then m else js_map_set eventType [] m in
  let hs := default [] (js_map_get eventType m) in
  with_eventHandlers (js_map_set eventType (js_set_add handler hs) m) r.

(** The function [on] returns: [this.eventHandlers.get(eventType)?.delete(handler)]. *)
Definition unsubscribe (eventType : RunnerEventType) (handler : HandlerId) (r : DialogueRunner) : DialogueRunner :=
  match js_map_get eventType r.(eventHandlers) with
  | None => r
  | Some hs => with_eventHandlers (js_map_set eventType (js_set_delete handler hs) r.(eventHandlers)) r
  end.

(** [onAny(handler)] and the function it returns. *)
Definition onAny (handler : HandlerId) (r : DialogueRunner) : DialogueRunner :=
  fold_left (fun r t => on t handler r) all_event_types r.

Definition unsubscribeAny (handler : HandlerId) (r : DialogueRunner) : DialogueRunner :=
  fold_left (fun r t => unsubscribe t handler r) all_event_types r.

(** [private emit(event)]: each handler of the event's type, in order. *)
Definition emit (event : RunnerEvent) (r : DialogueRunner) : DialogueRunner :=
  match js_map_get (runner_event_type event) r.(eventHandlers) with
  | None => r
  | Some hs => with_delivered (r.(delivered) ++ map (fun h => (h, event)) hs) r
  end.

(** ** Event handling *)

(** [private handleLine(event)] *)
Definition handleLine (lineId : string) (substitutions : list string) (r : DialogueRunner) :
    DialogueRunner * bool :=
  let localizedLine := lp_getLine lineId substitutions r.(lineProvider) in
  (emit (RLineEvent lineId (line_text localizedLine lineId) substitutions
                    (localizedLine ≫= ll_metadata)) r, true).

(** One element of the [event.options.map(...)] of [handleOptions]. *)
Definition runner_option (lp : P) (opt : OptionInfo) : RunnerOption :=
  let localizedLine := lp_getLine opt.(option_lineId) [] lp in
  mkRunnerOption opt.(option_id) opt.(option_lineId) (line_text localizedLine opt.(option_lineId))
                 opt.(option_enabled) opt.(option_destinationNode).

(** [private handleOptions(event)] *)
Definition handleOptions (options : list OptionInfo) (r : DialogueRunner) : DialogueRunner * bool :=
  let r := update_state (state_isWaitingForOption true) r in
  (emit (ROptionsEvent (map (runner_option r.(lineProvider)) options)) r, true).

(** A command handler's program, run against the [CommandContext] of
    [handleCommand]: [continue] is a no-op and the timer only delays. *)
Fixpoint run_cmd (prog : CmdProg) (r : DialogueRunner) : DialogueRunner :=
  match prog with
  | CmdReturn => r
  | CmdGetVariable name k => run_cmd (k (getVariable name r)) r
  | CmdSetVariable name value k => run_cmd k (setVariable name value r)
  | CmdStop k => run_cmd k (stop r)
  | CmdContinue k => run_cmd k r
  | CmdWaitSeconds _ k => run_cmd k r
  end.

(** [private handleCommand(event)] *)
Definition handleCommand (text : string) (r : DialogueRunner) : DialogueRunner * bool :=
  let '(handled, prog) := dispatch text r.(commandDispatcher) in
  let r := run_cmd prog r in
  (emit (RCommandEvent text handled) r, false).

(** [private handleRuntimeEvent(event)]: the runner after the event, and
    whether the loop pauses. *)
Definition handleRuntimeEvent (event : RuntimeEvent) (r : DialogueRunner) : DialogueRunner * bool :=
  match event with
  | LineEvent lineId substitutions => handleLine lineId substitutions r
  | OptionsEvent options => handleOptions options r
  | CommandEvent text => handleCommand text r
  | NodeStartEvent nodeName =>
      (r |> emit (RNodeStartEvent nodeName) |> update_state (state_currentNode (Some nodeName)), false)
  | NodeCompleteEvent nodeName => (emit (RNodeCompleteEvent nodeName) r, false)
  | DialogueCompleteEvent => (r, true)
  | PrepareForLinesEvent lineIds => (with_lineProvider (lp_prepareLines lineIds r.(lineProvider)) r, false)
  end.

(** The [while] loop of [runUntilPause], for at most [fuel] iterations. *)
Fixpoint run_loop (fuel : nat) (r : DialogueRunner) : result DialogueRunner RunError :=
  if negb r.(stopped) && negb (rt_isDialogueComplete r.(runtime)) then
    match fuel with
    | O => Err OutOfFuel
    | S fuel' =>
        let '(rt', event) := rt_continue r.(runtime) in
        let r := with_runtime rt' r in
        match event with
        | None => Ok r
        | Some e =>
            let r := update_state (state_lastEvent (Some e)) r in
            let '(r, shouldPause) := handleRuntimeEvent e r in
            if shouldPause then Ok r else run_loop fuel' r
        end
    end
  else Ok r.

(** What follows the loop in [runUntilPause]. *)
Definition after_loop (r : DialogueRunner) : DialogueRunner :=
  if rt_isDialogueComplete r.(runtime) then
    r |> update_state (state_isComplete true) |> update_state (state_isRunning false)
      |> emit RDialogueCompleteEvent
  else r.

(** [private runUntilPause()] *)
Definition runUntilPause (fuel : nat) (r : DialogueRunner) : result DialogueRunner RunError :=
  let* r := run_loop fuel r in Ok (after_loop r).

(** [private syncVariablesToRuntime()] *)
Definition syncVariablesToRuntime (r : DialogueRunner) : DialogueRunner :=
  with_runtime (fold_left (fun rt '(name, value) => rt_setVariable name value rt)
                          (vs_getAll r.(variableStorage)) r.(runtime)) r.

(** ** The public control methods *)

(** [start(nodeName)] *)
Definition start (nodeName : string) (fuel : nat) (r : DialogueRunner) : result DialogueRunner RunError :=
  let r := r |> with_stopped false |> with_state (mkRunnerState (Some nodeName) true false false None) in
  let r := syncVariablesToRuntime r in
  let r := with_runtime (rt_setNode nodeName r.(runtime)) r in
  runUntilPause fuel r.

(** [continue()] *)
Definition continue (fuel : nat) (r : DialogueRunner) : result DialogueRunner RunError :=
  if r.(state).(isWaitingForOption) then Err (Thrown ErrCannotContinueWhileWaiting)
  else if r.(state).(isComplete) then Err (Thrown ErrDialogueAlreadyComplete)
  else runUntilPause fuel r.

(** [selectOption(optionId)]: a [throw] of the runtime's
    [setSelectedOption] propagates. *)
Definition selectOption (optionId : Z) (fuel : nat) (r : DialogueRunner) : result DialogueRunner RunError :=
  if negb r.(state).(isWaitingForOption) then Err (Thrown ErrNotWaitingForOptionSelection) else
  match rt_setSelectedOption optionId r.(runtime) with
  | Err e => Err (Thrown e)
  | Ok rt' => runUntilPause fuel (r |> with_runtime rt' |> update_state (state_isWaitingForOption false))
  end.

End DialogueRunner.

Arguments DialogueRunner : clear implicits.

(** What the runner's [isWaitingForOption] flag relies on: the runtime
    waits exactly after returning an option set, returns nothing while
    waiting, and stops waiting on a selection, [setNode] and [reset]. *)
Class DialogueRuntimeControl (R : Type) `{DialogueRuntime R} : Prop := {
  rt_continue_some_waiting x x' e :
    rt_continue x = (x', Some e) -> rt_isWaitingForOption x' = is_options e;
  rt_continue_none_waiting x x' :
    rt_continue x = (x', None) -> rt_isWaitingForOption x' = rt_isWaitingForOption x;
  rt_continue_while_waiting x : rt_isWaitingForOption x = true -> (rt_continue x).2 = None;
  rt_select_waiting i x x' : rt_setSelectedOption i x = Ok x' -> rt_isWaitingForOption x' = false;
  rt_setNode_waiting n x : rt_isWaitingForOption (rt_setNode n x) = false;
  rt_reset_waiting x : rt_isWaitingForOption (rt_reset x) = false;
}.

(** The public methods, as one step of a host; [fuel] bounds each loop. *)
Inductive RunnerOp : Type :=
| ROpStart (nodeName : string)
| ROpContinue
| ROpSelectOption (optionId : Z)
| ROpStop
| ROpReset
| ROpSetVariable (name : string) (value : VariableValue)
| ROpOn (eventType : RunnerEventType) (handler : HandlerId)
| ROpUnsubscribe (eventType : RunnerEventType) (handler : HandlerId).

Section Ops.
Context {R : Type} `{DialogueRuntime R} {P : Type} `{LineProviderClass P}
        {St : Type} `{VariableStorage St}.

(** A call that throws leaves the runner as it was. *)
Definition apply_runner_op (fuel : nat) (op : RunnerOp) (r : DialogueRunner R P St) : DialogueRunner R P St :=
  let keep res := match res with Ok r' => r' | Err _ => r end in
  match op with
  | ROpStart n => keep (start n fuel r)
  | ROpContinue => keep (continue fuel r)
  | ROpSelectOption i => keep (selectOption i fuel r)
  | ROpStop => stop r
  | ROpReset => reset r
  | ROpSetVariable n v => setVariable n v r
  | ROpOn t h => on t h r
  | ROpUnsubscribe t h => unsubscribe t h r
  end.

Definition run_runner_ops (fuel : nat) (ops : list RunnerOp) (r : DialogueRunner R P St) : DialogueRunner R P St :=
  fold_left (fun r op => apply_runner_op fuel op r) ops r.
End Ops.

(** [new DialogueRunner(options)] with the default line provider
    ([new MapLineProvider({})]) and storage ([new InMemoryVariableStorage()])
    for the options left out. *)
Definition new_default {R : Type} `{DialogueRuntime R} (runtime : R)
    (lineProvider : option MapLineProvider) (commandDispatcher : option CommandDispatcher)
    (variableStorage : option InMemory.InMemoryVariableStorage) :
    DialogueRunner R MapLineProvider InMemory.InMemoryVariableStorage :=
  new runtime
    (default (MapLineProvider_new (LinesRecord []) (mkLineProviderOptions None None)) lineProvider)
    commandDispatcher (default (InMemory.new None) variableStorage).

End Runner.

Module RunnerFacts.
Import LineProvider CommandDispatcher CommandDispatcherFacts Runner.

Section Generic.
Context {R : Type} `{DialogueRuntime R} `{!DialogueRuntimeLaws R} {P : Type} `{LineProviderClass P}
        {St : Type} `{VariableStorage St} `{!VariableStorageLaws St}.

Implicit Types r : DialogueRunner R P St.

(** ** Variables *)

(** C5: Write-through: after [setVariable(name, v)] both the runner (that
    is, the storage) and the runtime's working set return [v] for [name],
    and every other name reads as before in both. *)
Theorem setVariable_write_through r name v :
  getVariable name (setVariable name v r) = Some v /\
  rt_getVariable name (setVariable name v r).(runtime) = Some v /\
  (forall name', name' <> name ->
     getVariable name' (setVariable name v r) = getVariable name' r /\
     rt_getVariable name' (setVariable name v r).(runtime) = rt_getVariable name' r.(runtime)).
Proof.
  unfold getVariable, setVariable; cbn. rewrite vs_get_set_eq, rt_get_set_eq.
  split_and!; [done|done|]. intros name' Hne.
  by rewrite vs_get_set_ne, rt_get_set_ne by congruence.
Qed.

(** ** [stop()] *)

(** C8: [stop()] is idempotent and changes nothing but the flags: it sets
    [stopped], clears [isRunning] and sets [isComplete], keeping the node,
    the last event and [isWaitingForOption], so a runner stopped while
    waiting for a choice reports both waiting and complete and its
    [continue()] throws 'Cannot continue while waiting'. *)
Theorem stop_spec r fuel :
  stop (stop r) = stop r /\
  (stop r).(stopped) = true /\
  getState (stop r) = mkRunnerState r.(state).(currentNode) false r.(state).(isWaitingForOption) true
                                     r.(state).(lastEvent) /\
  continue fuel (stop r) =
    if r.(state).(isWaitingForOption) then Err (Thrown ErrCannotContinueWhileWaiting)
    else Err (Thrown ErrDialogueAlreadyComplete).
Proof. destruct r as [? ? ? ? ? [? ? [] ? ?] ? ?]; split_and!; done. Qed.

(** ** Lines and options *)

Lemma line_text_spec ll lineId :
  line_text ll lineId =
    match ll with
    | Some l => if String.eqb l.(ll_text) "" then missing_text lineId else l.(ll_text)
    | None => missing_text lineId
    end.
Proof. destruct ll as [l|]; [|done]. unfold line_text, js_or_str; cbn. by destruct (ll_text l). Qed.

(** [handleLine] emits the provider's text, or the placeholder
    [[Missing: id]] when the provider has no line or its text is empty, and
    pauses the loop. *)
Theorem handleLine_spec r lineId subs :
  handleLine lineId subs r =
    (emit (RLineEvent lineId
             (match lp_getLine lineId subs r.(lineProvider) with
              | Some l => if String.eqb l.(ll_text) "" then missing_text lineId else l.(ll_text)
              | None => missing_text lineId
              end) subs
             (lp_getLine lineId subs r.(lineProvider) ≫= ll_metadata)) r, true).
Proof. unfold handleLine. by rewrite line_text_spec. Qed.

(** ** Subscriptions *)

Lemma emit_delivered e r :
  (emit e r).(delivered) = (r.(delivered) ++ map (fun h => (h, e)) (default [] (js_map_get (runner_event_type e) r.(eventHandlers))))%list.
Proof. unfold emit. destruct (js_map_get _ _); cbn; [done|]. by rewrite app_nil_r. Qed.

Lemma on_handlers t h r t' :
  js_map_get t' (on t h r).(eventHandlers) =
    if decide (t = t') then Some (js_set_add h (default [] (js_map_get t r.(eventHandlers))))
    else js_map_get t' r.(eventHandlers).
Proof.
  unfold on, js_map_has; cbn. rewrite js_map_get_set.
  destruct (js_map_get t (eventHandlers r)) eqn:E; cbn.
  - rewrite E. by case_decide.
  - rewrite js_map_get_set_eq; cbn. case_decide; [done|]. by rewrite js_map_get_set_ne.
Qed.

Lemma unsubscribe_handlers t h r t' :
  js_map_get t' (unsubscribe t h r).(eventHandlers) =
    if decide (t = t') then option_map (js_set_delete h) (js_map_get t r.(eventHandlers))
    else js_map_get t' r.(eventHandlers).
Proof.
  unfold unsubscribe. destruct (js_map_get t (eventHandlers r)) eqn:E; cbn.
  - rewrite js_map_get_set. by case_decide; subst.
  - case_decide; subst; [by rewrite E|done].
Qed.

Lemma onAny_handlers h r t :
  h ∈ default [] (js_map_get t (onAny h r).(eventHandlers)).
Proof.
  unfold onAny. assert (t ∈ all_event_types) as Ht by (destruct t; cbn; set_solver).
  revert r Ht. generalize all_event_types as ts.
  induction ts as [|t0 ts IH]; intros r Ht; [set_solver|]. cbn [fold_left].
  destruct (decide (t ∈ ts)) as [Hin|Hnin]; [by apply IH|].
  assert (t = t0) as <- by set_solver.
  assert (forall r', h ∈ default [] (js_map_get t r'.(eventHandlers)) ->
            forall ts', h ∈ default [] (js_map_get t (fold_left (fun r t => on t h r) ts' r').(eventHandlers))) as Hkeep.
  { intros r' Hr' ts'. revert r' Hr'. induction ts' as [|t1 ts' IH']; intros r' Hr'; [done|].
    apply IH'. rewrite on_handlers. case_decide; [subst|done]. cbn. apply js_set_add_elem. by right. }
  apply Hkeep. rewrite on_handlers, decide_True by done. cbn. apply js_set_add_elem. by left.
Qed.

(** A handler subscribed with [onAny] is called with every event the
    runner emits afterwards, whatever its type. *)
Theorem onAny_receives h r e :
  In (h, e) (emit e (onAny h r)).(delivered).
Proof.
  rewrite emit_delivered. apply in_or_app. right. apply in_map_iff. exists h. split; [done|].
  apply list_elem_of_In, onAny_handlers.
Qed.

(** C31: A handler subscribed with [on('line', h)] and again with
    [onAny(h)] is one entry of the line handlers (a [Set]), so calling the
    unsubscribe function the first subscription returned also cancels the
    [onAny] subscription for lines, and only for lines: afterwards [h]
    receives no line event and every event of the six other types. *)
Theorem shared_subscription_unsubscribe h r :
  let r' := unsubscribe R_line h (onAny h (on R_line h r)) in
  (forall e, runner_event_type e = R_line ->
     ~ In (h, e) (drop (length r'.(delivered)) (emit e r').(delivered))) /\
  (forall e, runner_event_type e <> R_line -> In (h, e) (emit e r').(delivered)).
Proof.
  intros r'.
  assert (forall e, runner_event_type e = R_line ->
            ~ In (h, e) (drop (length r'.(delivered)) (emit e r').(delivered))) as Hline.
  { intros e He. rewrite emit_delivered, drop_app_length, He. subst r'.
    rewrite unsubscribe_handlers, decide_True by done. intros Hin.
    apply in_map_iff in Hin as (h' & [= ->] & Hin). apply list_elem_of_In in Hin.
    destruct (js_map_get R_line _) as [hs|]; cbn in Hin; [|inversion Hin].
    apply js_set_delete_elem in Hin as [Hne _]. by apply Hne. }
  split; [exact Hline|].
  intros e He. rewrite emit_delivered. apply in_or_app. right. apply in_map_iff. exists h. split; [done|].
  subst r'. rewrite unsubscribe_handlers. case_decide as Ht; [by destruct He|].
  apply list_elem_of_In, onAny_handlers.
Qed.

(** ** How handling an event touches the runtime and the flags *)

Lemma emit_runtime e r : (emit e r).(runtime) = r.(runtime).
Proof. unfold emit. by destruct (js_map_get _ _). Qed.

Lemma emit_state e r : (emit e r).(state) = r.(state).
Proof. unfold emit. by destruct (js_map_get _ _). Qed.

Lemma emit_stopped e r : (emit e r).(stopped) = r.(stopped).
Proof. unfold emit. by destruct (js_map_get _ _). Qed.

#[local] Hint Rewrite emit_runtime emit_state : dialogue_rw.

(** A command's program changes the runtime only through [setVariable]. *)
Lemma run_cmd_runtime (Q : R -> Prop) prog r :
  (forall n v x, Q x -> Q (rt_setVariable n v x)) -> Q r.(runtime) -> Q (run_cmd prog r).(runtime).
Proof.
  intros HQ. revert r. induction prog as [|name k IH|name value k IH|k IH|k IH|sec k IH];
    intros r Hr; cbn; try apply IH; try done; by apply HQ.
Qed.

Lemma run_cmd_waiting prog r :
  (run_cmd prog r).(state).(isWaitingForOption) = r.(state).(isWaitingForOption).
Proof.
  revert r. induction prog as [|name k IH|name value k IH|k IH|k IH|sec k IH]; intros r; cbn;
    rewrite ?IH; done.
Qed.

(** A property of the runner kept by [setVariable] and [stop] is kept by
    every command's program. *)
Lemma run_cmd_ind (Q : DialogueRunner R P St -> Prop) prog r :
  (forall n v r, Q r -> Q (setVariable n v r)) -> (forall r, Q r -> Q (stop r)) -> Q r ->
  Q (run_cmd prog r).
Proof. intros Hset Hstop. revert r. induction prog; intros r Hr; cbn; auto. Qed.

Lemma handleRuntimeEvent_runtime (Q : R -> Prop) e r :
  (forall n v x, Q x -> Q (rt_setVariable n v x)) -> Q r.(runtime) ->
  Q (handleRuntimeEvent e r).1.(runtime).
Proof.
  intros HQ Hr. destruct e; cbn; unfold handleLine, handleOptions, handleCommand;
    autorewrite with dialogue_rw; try done.
  destruct (dispatch _ _). cbn. rewrite emit_runtime. by apply run_cmd_runtime.
Qed.

(** The loop pauses after exactly the events [stops_loop] names. *)
Lemma handleRuntimeEvent_pause e r : (handleRuntimeEvent e r).2 = stops_loop e.
Proof. destruct e; try done. unfold handleRuntimeEvent, handleCommand. by destruct (dispatch _ _). Qed.

Lemma handleRuntimeEvent_waiting e r :
  (handleRuntimeEvent e r).1.(state).(isWaitingForOption) =
    if is_options e then true else r.(state).(isWaitingForOption).
Proof.
  destruct e; cbn; unfold handleLine, handleOptions, handleCommand; autorewrite with dialogue_rw; try done.
  destruct (dispatch _ _). cbn. by rewrite emit_state, run_cmd_waiting.
Qed.

(** ** When the runtime has nothing more to say *)

(** C33: When the runtime's [continue()] returns [null] without the runtime
    reporting completion, [runUntilPause] leaves its loop after that one
    step and ends there: whatever the fuel, the runner keeps its state, its
    flags and its deliveries and only takes the runtime the step left, so
    it is not marked complete, stays running and emits no
    [dialogueComplete]. *)
Theorem null_event_not_complete r fuel x' :
  r.(stopped) = false -> rt_isDialogueComplete r.(runtime) = false ->
  rt_continue r.(runtime) = (x', None) -> rt_isDialogueComplete x' = false ->
  runUntilPause (S fuel) r = Ok (with_runtime x' r).
Proof.
  intros Hs Hc Ec Hc'. unfold runUntilPause. cbn [run_loop]. rewrite Hs, Hc, Ec. cbn.
  unfold after_loop. cbn. by rewrite Hc'.
Qed.

(** ** Termination of [runUntilPause] *)

Section Termination.
Variable inv : R -> Prop.
Variable rank : R -> nat.
Hypothesis inv_continue : forall x, inv x -> inv (rt_continue x).1.
Hypothesis inv_setVariable : forall n v x, inv x -> inv (rt_setVariable n v x).
Hypothesis rank_setVariable : forall n v x, rank (rt_setVariable n v x) = rank x.
Hypothesis rank_continue :
  forall x x' e, inv x -> rt_continue x = (x', Some e) -> stops_loop e = false -> rank x' < rank x.

(** With more fuel than the runtime's rank, the loop pauses or ends. *)
Lemma run_loop_total fuel r :
  inv r.(runtime) -> rank r.(runtime) < fuel -> exists r', run_loop fuel r = Ok r'.
Proof.
  revert r. induction fuel as [|fuel IH]; intros r Hinv Hrank; [lia|]. cbn [run_loop].
  case_match; [|by eexists].
  destruct (rt_continue (runtime r)) as [x' [e|]] eqn:Ec; [|by eexists].
  pose proof (inv_continue _ Hinv) as Hx'. rewrite Ec in Hx'. cbn in Hx'.
  destruct (handleRuntimeEvent e _) as [r3 pause] eqn:Eh.
  pose proof (handleRuntimeEvent_pause e (update_state (state_lastEvent (Some e)) (with_runtime x' r))) as Hp.
  rewrite Eh in Hp. cbn in Hp. destruct pause; [by eexists|].
  assert (inv r3.(runtime) /\ rank r3.(runtime) = rank x') as [Hi Hr].
  { change r3 with (r3, false).1. rewrite <- Eh. split.
    - apply (handleRuntimeEvent_runtime inv); [apply inv_setVariable|done].
    - apply (handleRuntimeEvent_runtime (fun y => rank y = rank x')); [|done].
      intros n v x Hx. by rewrite rank_setVariable. }
  apply IH; [done|]. pose proof (rank_continue _ _ _ Hinv Ec (eq_sym Hp)). lia.
Qed.

Lemma run_loop_inv fuel r r' : inv r.(runtime) -> run_loop fuel r = Ok r' -> inv r'.(runtime).
Proof.
  revert r. induction fuel as [|fuel IH]; intros r Hinv Hl; cbn [run_loop] in Hl;
    (case_match; [|by simplify_eq]); [done|].
  pose proof (inv_continue _ Hinv) as Hx'.
  destruct (rt_continue (runtime r)) as [x' [e|]] eqn:Ec; cbn in Hx'; [|by simplify_eq].
  set (r2 := update_state (state_lastEvent (Some e)) (with_runtime x' r)) in *.
  assert (inv (handleRuntimeEvent e r2).1.(runtime)) as Hi
    by (apply (handleRuntimeEvent_runtime inv); [apply inv_setVariable|done]).
  destruct (handleRuntimeEvent e r2) as [r3 []]; [by simplify_eq|]. by apply (IH r3).
Qed.

Lemma runUntilPause_inv fuel r r' : inv r.(runtime) -> runUntilPause fuel r = Ok r' -> inv r'.(runtime).
Proof.
  unfold runUntilPause. intros Hi Hr. destruct (run_loop fuel r) as [r1|] eqn:E; [|done].
  cbn in Hr. simplify_eq. unfold after_loop. case_match; [rewrite emit_runtime|]; cbn; eapply run_loop_inv; eauto.
Qed.

Lemma runUntilPause_total fuel r :
  inv r.(runtime) -> rank r.(runtime) < fuel -> exists r', runUntilPause fuel r = Ok r'.
Proof.
  intros Hi Hr. destruct (run_loop_total fuel r Hi Hr) as [r' E].
  unfold runUntilPause. rewrite E. by eexists.
Qed.
End Termination.

(** ** The built-in [set] command, through the runner *)

(** C6: End to end, a command event [set $name value...] (plain words, verb
    in any case) handled by a runner with the default dispatcher writes the
    parsed value through to the storage and the runtime, reports the command
    handled and does not pause. *)
Theorem handleCommand_set r verb name v vs :
  r.(commandDispatcher) = createDefaultDispatcher ->
  Forall plain_word (verb :: name :: v :: vs) -> js_toLowerCase verb = "set" ->
  let text := js_join " " (verb :: name :: v :: vs) in
  let '(r', pause) := handleRuntimeEvent (CommandEvent text) r in
  (pause = false /\
   getVariable (strip_dollar name) r' = Some (parseValue (js_join " " (v :: vs))) /\
   rt_getVariable (strip_dollar name) r'.(runtime) = Some (parseValue (js_join " " (v :: vs))) /\
   r'.(delivered) = (r.(delivered) ++ map (fun h => (h, RCommandEvent text true))
                       (default [] (js_map_get R_command r.(eventHandlers))))%list).
Proof.
  intros Hd Hall Hv. cbn zeta. unfold handleRuntimeEvent, handleCommand.
  rewrite Hd, dispatch_set by done. cbn [run_cmd].
  rewrite emit_delivered. unfold getVariable, setVariable. rewrite emit_runtime; cbn.
  unfold emit; cbn. destruct (js_map_get R_command _); cbn;
    by rewrite ?app_nil_r, vs_get_set_eq, rt_get_set_eq.
Qed.

(** C28: Ordering of a stop (spec 4.2: the loop checks [stop()] before each
    step): when the runtime's next event is the command [stop] of the
    default dispatcher, [runUntilPause] takes that one step and no other.
    The runner keeps the runtime as that step left it, is stopped, complete
    and not running, records the command as its last event, and delivers
    only the command event ([dialogueComplete] is not emitted). *)
Theorem stop_command_halts r fuel x' :
  r.(commandDispatcher) = createDefaultDispatcher -> r.(stopped) = false ->
  rt_isDialogueComplete r.(runtime) = false ->
  rt_continue r.(runtime) = (x', Some (CommandEvent "stop")) -> rt_isDialogueComplete x' = false ->
  exists r', runUntilPause (S fuel) r = Ok r' /\ r'.(runtime) = x' /\ r'.(stopped) = true /\
    r'.(state).(isComplete) = true /\ r'.(state).(isRunning) = false /\
    r'.(state).(lastEvent) = Some (CommandEvent "stop") /\
    r'.(delivered) = (emit (RCommandEvent "stop" true) r).(delivered).
Proof.
  intros Hd Hs Hc Ec Hc'. unfold runUntilPause. cbn [run_loop]. rewrite Hs, Hc, Ec. cbn.
  unfold handleCommand. cbn. rewrite Hd, dispatch_default_stop. cbn.
  set (r3 := emit (RCommandEvent "stop" true)
                  (stop (update_state (state_lastEvent (Some (CommandEvent "stop"))) (with_runtime x' r)))).
  assert (stopped r3 = true) as H3s by (unfold r3; by rewrite emit_stopped).
  assert (runtime r3 = x') as H3r by (unfold r3; by rewrite emit_runtime).
  assert (run_loop fuel r3 = Ok r3) as ->.
  { destruct fuel; cbn [run_loop]; by rewrite H3s. }
  cbn. unfold after_loop. rewrite H3r, Hc'. eexists; split; [reflexivity|].
  unfold r3. rewrite emit_state, emit_stopped. cbn. split_and!; try done.
  unfold emit. cbn. by destruct (js_map_get _ _).
Qed.

(** ** The runner's waiting flag follows the runtime's *)

Section Waiting.
Context `{!DialogueRuntimeControl R}.

Definition waiting_synced r : Prop :=
  r.(state).(isWaitingForOption) = rt_isWaitingForOption r.(runtime).

(** One iteration of the loop: the runner was not waiting, and after the
    event is handled its flag is the runtime's again. *)
Lemma handle_step_synced r x' e :
  waiting_synced r -> rt_continue r.(runtime) = (x', Some e) ->
  r.(state).(isWaitingForOption) = false /\
  waiting_synced (handleRuntimeEvent e (update_state (state_lastEvent (Some e)) (with_runtime x' r))).1.
Proof.
  unfold waiting_synced. intros Hs Ec.
  pose proof (rt_continue_some_waiting _ _ _ Ec) as Hw'.
  assert (rt_isWaitingForOption (runtime r) = false) as Hw.
  { destruct (rt_isWaitingForOption (runtime r)) eqn:E; [|done].
    apply rt_continue_while_waiting in E. by rewrite Ec in E. }
  split; [by rewrite Hs|].
  set (r2 := update_state (state_lastEvent (Some e)) (with_runtime x' r)).
  assert (rt_isWaitingForOption (handleRuntimeEvent e r2).1.(runtime) = rt_isWaitingForOption x') as Hq.
  { apply (handleRuntimeEvent_runtime (fun y => rt_isWaitingForOption y = rt_isWaitingForOption x'));
      [intros ? ? ? Hy; by rewrite rt_set_waiting|done]. }
  rewrite handleRuntimeEvent_waiting, Hq, Hw'. cbn. rewrite Hs, Hw. by destruct (is_options e).
Qed.

Lemma run_loop_synced fuel r r' : waiting_synced r -> run_loop fuel r = Ok r' -> waiting_synced r'.
Proof.
  revert r. induction fuel as [|fuel IH]; intros r Hs Hl; cbn [run_loop] in Hl;
    (case_match; [|by simplify_eq]); [done|].
  destruct (rt_continue (runtime r)) as [x' [e|]] eqn:Ec; cycle 1.
  { simplify_eq. unfold waiting_synced in *. cbn. by rewrite (rt_continue_none_waiting _ _ Ec). }
  destruct (handle_step_synced r x' e Hs Ec) as [_ Hs3].
  destruct (handleRuntimeEvent e _) as [r3 []] eqn:Eh; [by simplify_eq|]. by apply (IH r3).
Qed.

Lemma runUntilPause_synced fuel r r' : waiting_synced r -> runUntilPause fuel r = Ok r' -> waiting_synced r'.
Proof.
  unfold runUntilPause. intros Hs Hr. destruct (run_loop fuel r) as [r1|] eqn:E; [|done].
  cbn in Hr. simplify_eq. apply run_loop_synced in E; [|done].
  unfold after_loop, waiting_synced in *. case_match; [|done]. by rewrite emit_state, emit_runtime.
Qed.

Lemma fold_setVariable_waiting (vars : list (string * VariableValue)) x :
  rt_isWaitingForOption (fold_left (fun rt '(name, value) => rt_setVariable name value rt) vars x) =
  rt_isWaitingForOption x.
Proof. revert x. induction vars as [|[n v] vars IH]; intros x; [done|]. cbn. by rewrite IH, rt_set_waiting. Qed.

(** C7: Invariant: the runner's [isWaitingForOption] equals the runtime's
    after any sequence of [start], [continue], [selectOption], [stop],
    [reset], [setVariable] and subscriptions, for a runtime that meets
    [DialogueRuntimeControl]. *)
Theorem runner_waiting_synced fuel ops r :
  waiting_synced r -> waiting_synced (run_runner_ops fuel ops r).
Proof.
  unfold run_runner_ops. revert r. induction ops as [|op ops IH]; intros r Hs; [done|].
  cbn [fold_left]. apply IH. destruct op; cbn.
  - destruct (start _ _ _) eqn:E; [|done]. eapply runUntilPause_synced; [|exact E].
    unfold waiting_synced. cbn. by rewrite rt_setNode_waiting.
  - destruct (continue fuel r) as [r'|] eqn:E; [|done]. unfold continue in E.
    destruct (isWaitingForOption (state r)), (isComplete (state r)); try done.
    by eapply runUntilPause_synced.
  - destruct (selectOption _ _ _) as [r'|] eqn:E; [|done]. unfold selectOption in E.
    destruct (negb _); [done|]. destruct (rt_setSelectedOption _ (runtime r)) eqn:Esel; [|done].
    eapply runUntilPause_synced; [|exact E].
    unfold waiting_synced. cbn. by rewrite (rt_select_waiting _ _ _ Esel).
  - done.
  - unfold waiting_synced. cbn. by rewrite rt_reset_waiting.
  - unfold waiting_synced in *. cbn. by rewrite rt_set_waiting.
  - done.
  - unfold unsubscribe. by case_match.
Qed.
End Waiting.

End Generic.
End RunnerFacts.
