(* ===== verification/RunnerTree.v ===== *)
(** * The runner over concrete runtimes

    Instantiates the generic runner of [Runner.v] with the reference
    [DialogueTreeRuntime], the [MapLineProvider] and the
    [InMemoryVariableStorage], and with the [ScriptedRuntime] test double of
    [src/src/dialogue-tree-runtime.test.ts] (lines 183-240).  It proves that
    the tree runtime meets the runner's expectations
    ([DialogueRuntimeControl]), that with a fuel of 5 no call of a
    tree-backed runner ever runs out of fuel, that it keeps the spec's
    execution-state invariant, and what [start()] does after a completed
    run. *)

From S2P Require Import Prelude JsCollections Types JsString LineProvider VariableStorage CommandDispatcher.
From S2P Require Import DialogueTreeRuntime Runner.
From Stdlib Require Import Ascii QArith Qcanon.
#[local] Set Warnings "-clear-no-such-hyp".

Local Open Scope nat_scope.
Local Open Scope string_scope.

(** ** The [ScriptedRuntime] of the test file *)

Module ScriptedRuntime.

Record ScriptedRuntime : Type := mkScriptedRuntime {
  events : list RuntimeEvent;
  index : nat;
  complete : bool;
  variables : js_map string VariableValue;
}.

(** [constructor(events)] *)
Definition new (events : list RuntimeEvent) : ScriptedRuntime := mkScriptedRuntime events 0 false [].

(** [setNode()] *)
Definition setNode (_ : string) (s : ScriptedRuntime) : ScriptedRuntime :=
  mkScriptedRuntime s.(events) 0 false s.(variables).

(** [continue()]: the next scripted event; [dialogue_complete] completes. *)
Definition continue (s : ScriptedRuntime) : ScriptedRuntime * option RuntimeEvent :=
  match nth_error s.(events) s.(index) with
  | None => (s, None)
  | Some event =>
      let complete' := match event with DialogueCompleteEvent => true | _ => s.(complete) end in
      (mkScriptedRuntime s.(events) (S s.(index)) complete' s.(variables), Some event)
  end.

(** [setSelectedOption()] always throws. *)
Definition setSelectedOption (_ : Z) (_ : ScriptedRuntime) : result ScriptedRuntime DialogueError :=
  Err ErrOptionsNotSupported.

Definition setVariable (name : string) (value : VariableValue) (s : ScriptedRuntime) : ScriptedRuntime :=
  mkScriptedRuntime s.(events) s.(index) s.(complete) (js_map_set name value s.(variables)).

(** [reset()]: also clears the variables. *)
Definition reset (s : ScriptedRuntime) : ScriptedRuntime := mkScriptedRuntime s.(events) 0 false [].

#[export] Instance ScriptedRuntime_DialogueRuntime : DialogueRuntime ScriptedRuntime := {
  rt_setNode := setNode;
  rt_continue := continue;
  rt_setSelectedOption := setSelectedOption;
  rt_getVariable n s := js_map_get n s.(variables);
  rt_setVariable := setVariable;
  rt_getVariableNames s := js_map_keys s.(variables);
  rt_isWaitingForOption _ := false;
  rt_isDialogueComplete s := s.(complete);
  rt_reset := reset;
}.

#[export] Instance ScriptedRuntime_laws : DialogueRuntimeLaws ScriptedRuntime.
Proof. split; intros; cbn; [apply js_map_get_set_eq|by apply js_map_get_set_ne|done|done]. Qed.

End ScriptedRuntime.

#[export] Existing Instances ScriptedRuntime.ScriptedRuntime_DialogueRuntime ScriptedRuntime.ScriptedRuntime_laws.

Module RunnerTree.
Import LineProvider CommandDispatcher DialogueTreeRuntime DialogueTreeRuntimeFacts Runner RunnerFacts.

(** ** The tree runtime meets the runner's control contract *)

Lemma populate_waiting x : (populateEventsForCurrentNode x).(waitingForOption) = x.(waitingForOption).
Proof. unfold populateEventsForCurrentNode, populate_node. by repeat case_match. Qed.

Lemma after_shift_waiting e x :
  (after_shift e x).(waitingForOption) = if is_options e then true else x.(waitingForOption).
Proof. by destruct e. Qed.

(** [continue()] on a runtime that is neither complete nor waiting. *)
Lemma continue_unfold x :
  DialogueTreeRuntime.isComplete x || waitingForOption x = false ->
  DialogueTreeRuntime.continue x =
    let y := match pendingEvents x with [] => populateEventsForCurrentNode x | _ => x end in
    match pendingEvents y with
    | [] => (y, None)
    | e :: rest => (after_shift e (set_pendingEvents rest y), Some e)
    end.
Proof. intros H. unfold DialogueTreeRuntime.continue. by rewrite H. Qed.

Lemma continue_prefix_waiting x :
  (match pendingEvents x with [] => populateEventsForCurrentNode x | _ => x end).(waitingForOption) =
  x.(waitingForOption).
Proof. case_match; [apply populate_waiting|done]. Qed.

#[export] Instance TreeRuntime_control : DialogueRuntimeControl TreeRuntime.
Proof.
  split; cbn; unfold DialogueTreeRuntime.isWaitingForOption.
  - intros x x' e. destruct (DialogueTreeRuntime.isComplete x || waitingForOption x) eqn:Ecw.
    { unfold DialogueTreeRuntime.continue. rewrite Ecw. by intros [=]. }
    rewrite continue_unfold by done. cbn zeta.
    apply orb_false_iff in Ecw as [_ Hw]. generalize (continue_prefix_waiting x).
    generalize (match pendingEvents x with [] => populateEventsForCurrentNode x | _ => x end) as y.
    intros y Hp. destruct (pendingEvents y); [by intros [=]|]. intros [= <- <-].
    rewrite after_shift_waiting. cbn. rewrite Hp, Hw. by case_match.
  - intros x x'. destruct (DialogueTreeRuntime.isComplete x || waitingForOption x) eqn:Ecw.
    { unfold DialogueTreeRuntime.continue. rewrite Ecw. by intros [= <-]. }
    rewrite continue_unfold by done. cbn zeta. generalize (continue_prefix_waiting x).
    generalize (match pendingEvents x with [] => populateEventsForCurrentNode x | _ => x end) as y.
    intros y Hp. destruct (pendingEvents y); [by intros [= <-]|by intros [=]].
  - intros x Hw. by rewrite (continue_waiting x Hw).
  - intros i x x'. unfold setSelectedOption. repeat case_match; intros; simplify_eq; done.
  - done.
  - done.
Qed.

(** ** With fuel 5 a tree-backed runner never runs out of fuel *)

Section TreeRunner.
Context {P : Type} `{LineProviderClass P} {St : Type} `{VariableStorage St}.

Lemma wf_setVariable n v x : wf x -> wf (DialogueTreeRuntime.setVariable n v x).
Proof. intros Hx. apply (wf_apply_op (OpSetVariable n v) x Hx). Qed.

Lemma rank_setVariable n v x : rank (DialogueTreeRuntime.setVariable n v x) = rank x.
Proof. reflexivity. Qed.

Lemma wf_fold_setVariable (vars : list (string * VariableValue)) x :
  wf x -> wf (fold_left (fun rt '(name, value) => rt_setVariable name value rt) vars x).
Proof. revert x. induction vars as [|[n v] vars IH]; intros x Hx; [done|]. cbn. by apply IH, wf_setVariable. Qed.

Lemma tree_runUntilPause_inv fuel (r r' : DialogueRunner TreeRuntime P St) :
  wf r.(runtime) -> runUntilPause fuel r = Ok r' -> wf r'.(runtime).
Proof. intros Hw Hr. exact (runUntilPause_inv wf wf_continue wf_setVariable fuel r r' Hw Hr). Qed.

Lemma tree_runUntilPause_total (r : DialogueRunner TreeRuntime P St) :
  wf r.(runtime) -> exists r', runUntilPause 5 r = Ok r'.
Proof.
  intros Hwf. apply (runUntilPause_total wf rank).
  - exact wf_continue.
  - exact wf_setVariable.
  - exact rank_setVariable.
  - intros x x' e. apply continue_rank_decreases.
  - exact Hwf.
  - pose proof (rank_le (runtime r)). lia.
Qed.

Lemma start_runtime_wf n (r : DialogueRunner TreeRuntime P St) :
  wf r.(runtime) ->
  wf (rt_setNode n (fold_left (fun rt '(name, value) => rt_setVariable name value rt)
                      (vs_getAll r.(variableStorage)) r.(runtime))).
Proof. intros Hwf. apply (wf_apply_op (OpSetNode n)), wf_fold_setVariable, Hwf. Qed.

Lemma apply_runner_op_wf op (r : DialogueRunner TreeRuntime P St) :
  wf r.(runtime) -> wf (apply_runner_op 5 op r).(runtime).
Proof.
  intros Hwf. destruct op; cbn.
  - destruct (start _ _ _) eqn:E; [|done]. eapply tree_runUntilPause_inv; [|exact E].
    by apply start_runtime_wf.
  - destruct (continue 5 r) eqn:E; [|done]. unfold continue in E. repeat case_match; try done.
    by eapply tree_runUntilPause_inv.
  - destruct (selectOption _ _ _) eqn:E; [|done]. unfold selectOption in E.
    destruct (negb _); [done|]. destruct (rt_setSelectedOption _ _) eqn:Es; [|done].
    eapply tree_runUntilPause_inv; [|exact E]. by eapply wf_setSelectedOption.
  - done.
  - apply (wf_apply_op OpReset), Hwf.
  - by apply wf_setVariable.
  - done.
  - unfold unsubscribe. by case_match.
Qed.

(** C10: Termination: with the tree runtime, [runUntilPause] pauses within 5
    iterations, so after any sequence of calls with fuel 5 from a runner
    whose runtime is well formed, no [start], [continue] or [selectOption]
    runs out of fuel: each call returns or throws. *)
Theorem tree_runner_never_out_of_fuel ops (r : DialogueRunner TreeRuntime P St) :
  wf r.(runtime) ->
  let r' := run_runner_ops 5 ops r in
  (forall n, start n 5 r' <> Err OutOfFuel) /\ continue 5 r' <> Err OutOfFuel /\
  (forall i, selectOption i 5 r' <> Err OutOfFuel).
Proof.
  intros Hwf r'.
  assert (wf r'.(runtime)) as Hwf'.
  { subst r'. unfold run_runner_ops. revert r Hwf. induction ops as [|op ops IH]; intros r Hwf; [done|].
    cbn. by apply IH, apply_runner_op_wf. }
  split_and!.
  - intros n. unfold start.
    match goal with |- context [runUntilPause 5 ?x] => destruct (tree_runUntilPause_total x) as [r'' ->] end;
      [|done].
    by apply start_runtime_wf.
  - unfold continue. repeat case_match; try done.
    by destruct (tree_runUntilPause_total r' Hwf') as [r'' ->].
  - intros i. unfold selectOption. destruct (negb _); [done|].
    destruct (rt_setSelectedOption _ _) eqn:Es; [|done].
    match goal with |- context [runUntilPause 5 ?x] => destruct (tree_runUntilPause_total x) as [r'' ->] end;
      [|done].
    by eapply wf_setSelectedOption.
Qed.
End TreeRunner.

(** ** The spec's execution-state invariant

    The spec (§3, Execution State) requires that awaiting a choice implies
    running and not finished, and that finished implies not running.  The
    runner keeps it for a tree runtime except after [stop()] while waiting
    and [continue()] on a runner that was never started or was reset. *)

Section StateSpec.
Context {P : Type} `{LineProviderClass P} {St : Type} `{VariableStorage St}.
Implicit Types r : DialogueRunner TreeRuntime P St.

(** Reduce the runner's projections through its setters, leaving the
    runtime's class methods folded. *)
Ltac runner_simpl :=
  cbn [runtime state with_runtime update_state with_stopped with_state
       syncVariablesToRuntime state_isWaitingForOption isWaitingForOption initial_state].

(** The invariant of the spec, on the runner's [state]. *)
Definition state_ok (s : RunnerState) : Prop :=
  (s.(isWaitingForOption) = true -> s.(isRunning) = true /\ s.(isComplete) = false) /\
  (s.(isComplete) = true -> s.(isRunning) = false).

(** Inside [runUntilPause]'s loop: a runner not stopped is running. *)
Definition loop_ok r : Prop :=
  waiting_synced r /\ wf r.(runtime) /\ state_ok r.(state) /\
  (r.(stopped) = false -> r.(state).(isRunning) = true /\ r.(state).(isComplete) = false).

Lemma handleRuntimeEvent_state e r :
  r.(state).(isWaitingForOption) = false -> r.(state).(isRunning) = true -> r.(state).(isComplete) = false ->
  let r' := (handleRuntimeEvent e r).1 in
  state_ok r'.(state) /\
  (r'.(stopped) = false -> r'.(state).(isRunning) = true /\ r'.(state).(isComplete) = false).
Proof.
  intros Hw Hr Hc. destruct e as [lineId subs|opts|text|name|name| |ids]; cbn;
    unfold handleLine, handleOptions, handleCommand; rewrite ?emit_state, ?emit_stopped; cbn.
  3: { destruct (dispatch _ _) as [handled prog]. cbn. rewrite emit_state, emit_stopped.
       set (Q := fun r : DialogueRunner TreeRuntime P St => state_ok r.(state) /\
         r.(state).(isWaitingForOption) = false /\
         (r.(stopped) = false -> r.(state).(isRunning) = true /\ r.(state).(isComplete) = false)).
       enough (Q (run_cmd prog r)) by (unfold Q in *; naive_solver).
       apply run_cmd_ind; unfold Q.
       - intros n v r0. done.
       - intros r0 (_ & Hw0 & _). cbn. unfold state_ok; cbn. rewrite Hw0. naive_solver.
       - unfold state_ok. rewrite Hw, Hr, Hc. naive_solver. }
  all: unfold state_ok; rewrite ?Hw, ?Hr, ?Hc; naive_solver.
Qed.

Lemma run_loop_ok fuel r r' : loop_ok r -> run_loop fuel r = Ok r' -> loop_ok r'.
Proof.
  revert r. induction fuel as [|fuel IH]; intros r Hok Hl; cbn [run_loop] in Hl;
    (case_match eqn:Eloop; [|by simplify_eq]); [done|].
  destruct Hok as (Hs & Hwf & Ho & Hst).
  apply andb_true_iff in Eloop as [Hnstop _]. apply negb_true_iff in Hnstop.
  destruct (Hst Hnstop) as [Hr Hc].
  destruct (rt_continue (runtime r)) as [x' [e|]] eqn:Ec; cycle 1.
  { simplify_eq. split_and!; try done.
    - unfold waiting_synced in *. change (runtime (with_runtime x' r)) with x'.
      change (state (with_runtime x' r)) with (state r). by rewrite (rt_continue_none_waiting _ _ Ec).
    - cbn. pose proof (wf_continue (runtime r) Hwf) as Hw'. cbn in Ec. by rewrite Ec in Hw'. }
  destruct (handle_step_synced r x' e Hs Ec) as [Hw Hs3].
  set (r2 := update_state (state_lastEvent (Some e)) (with_runtime x' r)) in *.
  assert (wf x') as Hwf'.
  { pose proof (wf_continue (runtime r) Hwf) as Hw'. cbn in Ec. by rewrite Ec in Hw'. }
  assert (loop_ok (handleRuntimeEvent e r2).1) as Hok3.
  { destruct (handleRuntimeEvent_state e r2) as [Ho3 Hst3]; [done..|].
    split_and!; [done| |done|done].
    apply (handleRuntimeEvent_runtime wf); [intros ???; apply wf_setVariable|done]. }
  destruct (handleRuntimeEvent e r2) as [r3 []] eqn:Eh; [by simplify_eq|]. by apply (IH r3).
Qed.

Definition runner_ok r : Prop := waiting_synced r /\ wf r.(runtime) /\ state_ok r.(state).

Lemma runUntilPause_ok fuel r r' : loop_ok r -> runUntilPause fuel r = Ok r' -> runner_ok r'.
Proof.
  unfold runUntilPause. intros Hok Hr. destruct (run_loop fuel r) as [r1|] eqn:E; [|done].
  cbn in Hr. simplify_eq. apply run_loop_ok in E as (Hs & Hwf & Ho & _); [|done].
  unfold after_loop. case_match eqn:Ecmp; [|done].
  split_and!; unfold waiting_synced in *; rewrite ?emit_state, ?emit_runtime; cbn; [done|done|].
  destruct Hwf as (_ & Hwait & _). unfold state_ok in *; cbn.
  split; [|done]. intros Hw. rewrite Hs in Hw. cbn in Hw, Ecmp.
  destruct (Hwait Hw) as (_ & _ & Hc). unfold DialogueTreeRuntime.isDialogueComplete in Ecmp. congruence.
Qed.

(** A new or reset runner: neither running, waiting nor complete. *)
Definition idle (s : RunnerState) : bool :=
  negb s.(isRunning) && negb s.(isWaitingForOption) && negb s.(isComplete).

(** The calls the invariant is kept by: no [continue()] on an idle runner,
    no [stop()] while waiting. *)
Definition spec_allowed r (op : RunnerOp) : bool :=
  match op with
  | ROpContinue => negb (idle r.(state))
  | ROpStop => negb r.(state).(isWaitingForOption)
  | _ => true
  end.

Fixpoint allowed_run (fuel : nat) (ops : list RunnerOp) r : bool :=
  match ops with
  | [] => true
  | op :: ops' => spec_allowed r op && allowed_run fuel ops' (apply_runner_op fuel op r)
  end.

(** C9: The spec's execution-state invariant (awaiting a choice implies
    running and not finished; finished implies not running) holds for a
    tree-backed runner after any sequence of calls in which [continue()] is
    never called on an idle runner (neither running, waiting nor complete:
    new or reset) and [stop()] never while waiting for a choice; the
    runner's waiting flag follows the runtime's and the runtime stays well
    formed. *)
Theorem runner_state_spec ops r :
  runner_ok r -> allowed_run 5 ops r = true -> runner_ok (run_runner_ops 5 ops r).
Proof.
  unfold run_runner_ops. revert r. induction ops as [|op ops IH]; intros r Hok Hal; [done|].
  cbn [allowed_run] in Hal. apply andb_true_iff in Hal as [Hop Hal].
  cbn [fold_left]. apply IH; [clear IH Hal|done].
  destruct Hok as (Hs & Hwf & Ho). rename Hop into Hal. unfold waiting_synced in Hs. destruct op; cbn in Hal |- *.
  - destruct (start _ _ _) eqn:E; [|done]. eapply runUntilPause_ok; [|exact E].
    split_and!; [|by apply start_runtime_wf|unfold state_ok; cbn; naive_solver|done].
    unfold waiting_synced. runner_simpl. by rewrite rt_setNode_waiting.
  - destruct (continue 5 r) eqn:E; [|done]. unfold continue in E.
    destruct (isWaitingForOption (state r)) eqn:Ew; [done|].
    destruct (isComplete (state r)) eqn:Ec; [done|].
    eapply runUntilPause_ok; [|exact E]. split_and!; [by unfold waiting_synced; rewrite Ew|done|done|intros _].
    unfold idle in Hal. rewrite Ew, Ec in Hal. by destruct (isRunning (state r)).
  - destruct (selectOption _ _ _) eqn:E; [|done]. unfold selectOption in E.
    destruct (isWaitingForOption (state r)) eqn:Ew; [|done]. cbn [negb] in E.
    destruct (rt_setSelectedOption _ _) as [x'|] eqn:Esel; [|done].
    destruct Ho as [Hwo _]. destruct (Hwo Ew) as [Hr Hc].
    eapply runUntilPause_ok; [|exact E]. split_and!.
    + unfold waiting_synced. runner_simpl. by rewrite (rt_select_waiting _ _ _ Esel).
    + by eapply wf_setSelectedOption.
    + unfold state_ok. cbn. rewrite Hc. naive_solver.
    + intros _. cbn. by rewrite Hr, Hc.
  - apply negb_true_iff in Hal. split_and!; [done|done|]. unfold state_ok; cbn. rewrite Hal. naive_solver.
  - split_and!; [by unfold waiting_synced|apply (wf_apply_op OpReset), Hwf|unfold state_ok; cbn; naive_solver].
  - split_and!; [|by apply wf_setVariable|done].
    unfold waiting_synced in *. by cbn in *.
  - done.
  - unfold unsubscribe. by case_match.
Qed.
End StateSpec.

(** ** [start()] after a completed run *)

Section Restart.
Context {P : Type} `{LineProviderClass P} {St : Type} `{VariableStorage St}.

Lemma fold_setVariable_complete (vars : list (string * VariableValue)) x :
  DialogueTreeRuntime.isComplete (fold_left (fun rt '(name, value) => rt_setVariable name value rt) vars x) =
  DialogueTreeRuntime.isComplete x.
Proof. revert x. induction vars as [|[n v] vars IH]; intros x; [done|]. cbn. by rewrite IH. Qed.

(** C30: [start(nodeName)] on a runner whose tree runtime has completed
    does not restart the dialogue: the runtime's [setNode] keeps
    [isComplete], so the loop takes no step and the runner, whatever the
    fuel, marks the run complete and not running at once and delivers
    [dialogueComplete] again, and nothing else. *)
Theorem restart_after_complete n fuel (r : DialogueRunner TreeRuntime P St) :
  DialogueTreeRuntime.isComplete r.(runtime) = true ->
  exists r', start n fuel r = Ok r' /\
    r'.(state) = mkRunnerState (Some n) false false true None /\
    DialogueTreeRuntime.isComplete r'.(runtime) = true /\
    r'.(delivered) = (r.(delivered) ++ map (fun h => (h, RDialogueCompleteEvent))
                        (default [] (js_map_get R_dialogueComplete r.(eventHandlers))))%list.
Proof.
  intros Hc. unfold start, runUntilPause, syncVariablesToRuntime.
  set (x := rt_setNode n _).
  assert (DialogueTreeRuntime.isComplete x = true) as Hx by (subst x; cbn; by rewrite fold_setVariable_complete).
  clearbody x. set (r0 := with_runtime x _).
  assert (run_loop fuel r0 = Ok r0) as ->
    by (destruct fuel; cbn; unfold DialogueTreeRuntime.isDialogueComplete; by rewrite Hx).
  cbn. unfold after_loop. cbn. unfold DialogueTreeRuntime.isDialogueComplete. rewrite Hx. eexists; split; [reflexivity|].
  by rewrite emit_state, emit_runtime, emit_delivered.
Qed.
End Restart.

(** ** Fixtures *)

Definition no_options : LineProviderOptions := mkLineProviderOptions None None.

Definition demo_lines : MapLineProvider :=
  MapLineProvider_new (LinesRecord [("npc_1", "Welcome"); ("npc_2", "Farewell")]) no_options.

(** A runner over [demo_tree] with handler [0] subscribed to everything. *)
Definition demo_runner : DialogueRunner TreeRuntime MapLineProvider InMemory.InMemoryVariableStorage :=
  onAny 0 (new_default (DialogueTreeRuntime.new demo_tree) (Some demo_lines) None None).

Definition shop_lines : MapLineProvider :=
  MapLineProvider_new (LinesRecord [("buy", "Buy"); ("chat", "Chat")]) no_options.

Definition shop_runner : DialogueRunner TreeRuntime MapLineProvider InMemory.InMemoryVariableStorage :=
  onAny 0 (new_default (DialogueTreeRuntime.new shop_tree) (Some shop_lines) None None).

(** ** Witnesses of the generic runner theorems, on [demo_runner] *)

Lemma setVariable_write_through_witness :
  getVariable "gold" (setVariable "gold" (VBool true) demo_runner) = Some (VBool true).
Proof. exact (proj1 (setVariable_write_through demo_runner "gold" (VBool true))). Defined.

Lemma stop_spec_witness : stop (stop demo_runner) = stop demo_runner.
Proof. exact (proj1 (stop_spec demo_runner 5)). Defined.

Lemma handleCommand_set_witness :
  (handleRuntimeEvent (CommandEvent (js_join " " ["set"; "$gold"; "150"])) demo_runner).2 = false.
Proof.
  pose proof (handleCommand_set demo_runner "set" "$gold" "150" [] eq_refl
                ltac:(repeat constructor; discriminate) eq_refl) as H.
  cbn zeta in H. destruct (handleRuntimeEvent _ _) as [r' pause]. exact (proj1 H).
Defined.

Lemma runner_waiting_synced_witness :
  RunnerFacts.waiting_synced (run_runner_ops 5 [ROpStart "npc_1"; ROpContinue; ROpStop] demo_runner).
Proof. apply runner_waiting_synced. reflexivity. Defined.

Lemma tree_runner_never_out_of_fuel_witness :
  start "npc_1" 5 (run_runner_ops 5 [ROpStart "npc_1"] demo_runner) <> Err OutOfFuel.
Proof. exact (proj1 (tree_runner_never_out_of_fuel [ROpStart "npc_1"] demo_runner (wf_new demo_tree)) "npc_1"). Defined.

(** A runner that was never started runs the tree on [continue()]: it ends
    waiting for a choice while not running, against the invariant. *)
Lemma continue_idle_breaks_state_spec :
  match continue 5 (new_default (DialogueTreeRuntime.new shop_tree) (Some shop_lines) None None) with
  | Ok r => r.(state).(isWaitingForOption) = true /\ r.(state).(isRunning) = false /\ ~ state_ok r.(state)
  | Err _ => False
  end.
Proof. vm_compute. split_and!; [reflexivity|reflexivity|]. intros [Hw _]. by destruct (Hw eq_refl). Qed.

Lemma runner_state_spec_witness :
  runner_ok (run_runner_ops 5 [ROpStart "player"; ROpSelectOption 1; ROpContinue; ROpStop; ROpReset] shop_runner).
Proof.
  apply runner_state_spec; [split_and!; [reflexivity|apply wf_new|split; cbn; discriminate]|vm_compute; reflexivity].
Defined.

Definition stop_script : list RuntimeEvent := [CommandEvent "stop"; LineEvent "after_stop" []].

Lemma stop_command_halts_witness :
  exists r', runUntilPause 1 (new_default (ScriptedRuntime.new stop_script) None None None) = Ok r' /\
    r'.(runtime) = ScriptedRuntime.mkScriptedRuntime stop_script 1 false [] /\ r'.(stopped) = true /\
    r'.(state).(isComplete) = true /\ r'.(state).(isRunning) = false /\
    r'.(state).(lastEvent) = Some (CommandEvent "stop") /\
    r'.(delivered) =
      (emit (RCommandEvent "stop" true) (new_default (ScriptedRuntime.new stop_script) None None None)).(delivered).
Proof. apply (stop_command_halts _ 0); reflexivity. Defined.

Lemma restart_after_complete_witness :
  let r := with_runtime (set_isComplete true (DialogueTreeRuntime.new demo_tree)) demo_runner in
  exists r', start "npc_1" 5 r = Ok r' /\
    r'.(state) = mkRunnerState (Some "npc_1") false false true None /\
    DialogueTreeRuntime.isComplete r'.(runtime) = true /\
    r'.(delivered) = (r.(delivered) ++ map (fun h => (h, RDialogueCompleteEvent))
                        (default [] (js_map_get R_dialogueComplete r.(eventHandlers))))%list.
Proof. apply restart_after_complete. reflexivity. Defined.

Lemma shared_subscription_unsubscribe_witness :
  In (7, RNodeStartEvent "npc_1")
     (emit (RNodeStartEvent "npc_1") (unsubscribe R_line 7 (onAny 7 (on R_line 7 demo_runner)))).(delivered).
Proof. apply (proj2 (shared_subscription_unsubscribe 7 demo_runner)). discriminate. Defined.

Lemma null_event_not_complete_witness :
  let r := new_default (ScriptedRuntime.new [NodeStartEvent "intro"]) None None None in
  let x := ScriptedRuntime.mkScriptedRuntime [NodeStartEvent "intro"] 1 false [] in
  runUntilPause 1 (with_runtime x r) = Ok (with_runtime x (with_runtime x r)).
Proof. intros r x. apply (null_event_not_complete _ 0 x); reflexivity. Defined.

End RunnerTree.
